(** * CommentTree: a materialized-path comment store

    A shallow embedding of the Go service [CommentTree] (handlers, service
    and repository layers, and the [comments] table of the migration) and
    the properties of its path encoding, subtree deletion, tree assembly,
    pagination and search.

    Conventions of the embedding.
    - A Go [string] is a byte string: Rocq's [string], one [ascii] per byte;
      [len] is [String.length].
    - A Go [int] / [int64] is a [Z] kept in the signed 64-bit range by
      [wrap64].
    - A [*int64] is an [option Z]; a slice that may be [nil] is an
      [option (list _)] with [None] for [nil].
    - A [*models.Comment] is an address into a heap of [Comment] structs;
      the code mutates the structs through those addresses.
    - The PostgreSQL table is a list of rows in insertion order, together
      with the counter of the [BIGSERIAL] column; the statements the
      repository sends are executed by the functions of [Module Pg] and
      recorded in a log.  The engine is deterministic: it has no transient
      failures. *)

From Stdlib Require Import ZArith Ascii String List Bool Lia Permutation.
From Stdlib Require Import Numbers.DecimalString Sorting.Sorted.
From stdpp Require Import base option list strings gmap.
Import ListNotations.

Local Open Scope string_scope.
Local Open Scope list_scope.
Local Open Scope Z_scope.

(** ** Go strings *)

Module GoString.

Definition bytes (s : string) : list ascii := list_ascii_of_string s.
Definition of_bytes (l : list ascii) : string := string_of_list_ascii l.

Definition byte (n : nat) : ascii := ascii_of_nat n.

(** [fmt.Sprintf("%d", z)] *)
Definition itoa (z : Z) : string := NilZero.string_of_int (Z.to_int z).

(** The encodings of the runes for which [unicode.IsSpace] holds: the six
    ASCII spaces, U+0085 and U+00A0, and the runes with the White_Space
    property U+1680, U+2000..U+200A, U+2028, U+2029, U+202F, U+205F and
    U+3000. *)
Definition space_encodings : list (list nat) :=
  [ [9]; [10]; [11]; [12]; [13]; [32];
    [194; 133]; [194; 160];
    [225; 154; 128];
    [226; 128; 128]; [226; 128; 129]; [226; 128; 130]; [226; 128; 131];
    [226; 128; 132]; [226; 128; 133]; [226; 128; 134]; [226; 128; 135];
    [226; 128; 136]; [226; 128; 137]; [226; 128; 138];
    [226; 128; 168]; [226; 128; 169]; [226; 128; 175];
    [226; 129; 159];
    [227; 128; 128] ]%nat.

Fixpoint strip_prefix (p s : list ascii) : option (list ascii) :=
  match p, s with
  | [], _ => Some s
  | _ :: _, [] => None
  | a :: p', b :: s' => if Ascii.eqb a b then strip_prefix p' s' else None
  end.

Fixpoint strip_any (ps : list (list ascii)) (s : list ascii) : option (list ascii) :=
  match ps with
  | [] => None
  | p :: ps' =>
      match strip_prefix p s with
      | Some r => Some r
      | None => strip_any ps' s
      end
  end.

(** Drop leading occurrences of the given encodings, at most [n] of them. *)
Fixpoint trim_prefixes (ps : list (list ascii)) (n : nat) (s : list ascii) : list ascii :=
  match n with
  | O => s
  | S n' =>
      match strip_any ps s with
      | Some r => trim_prefixes ps n' r
      | None => s
      end
  end.

Definition space_prefixes : list (list ascii) :=
  List.map (List.map byte) space_encodings.

Definition space_suffixes_rev : list (list ascii) :=
  List.map (fun e => rev (List.map byte e)) space_encodings.

Definition trim_left_bytes (s : list ascii) : list ascii :=
  trim_prefixes space_prefixes (List.length s) s.

Definition trim_right_bytes (s : list ascii) : list ascii :=
  rev (trim_prefixes space_suffixes_rev (List.length s) (rev s)).

(** [strings.TrimSpace]: leading white space is removed rune by rune from
    the left, then trailing white space from the right of what is left. *)
Definition TrimSpace (s : string) : string :=
  of_bytes (trim_right_bytes (trim_left_bytes (bytes s))).

(** ASCII case folding. *)
Definition lower_byte (c : ascii) : ascii :=
  let n := nat_of_ascii c in
  if ((65 <=? n) && (n <=? 90))%nat then ascii_of_nat (n + 32) else c.

Definition upper_byte (c : ascii) : ascii :=
  let n := nat_of_ascii c in
  if ((97 <=? n) && (n <=? 122))%nat then ascii_of_nat (n - 32) else c.

(** [strings.ToUpper] restricted to its action on ASCII letters.  The Go
    function also maps letters outside ASCII; the functions that use it
    below take the upper-casing function as an argument, and this one is
    the instance used to run them. *)
Definition ToUpperASCII (s : string) : string :=
  of_bytes (List.map upper_byte (bytes s)).

Definition has_prefix (p s : string) : bool := String.prefix p s.

End GoString.

(** ** Go integers *)

Definition MinInt64 : Z := - 2 ^ 63.
Definition MaxInt64 : Z := 2 ^ 63 - 1.

(** Two's complement wrap-around of 64-bit signed arithmetic. *)
Definition wrap64 (z : Z) : Z := (z + 2 ^ 63) mod 2 ^ 64 - 2 ^ 63.

Definition int_sub (a b : Z) : Z := wrap64 (a - b).
Definition int_mul (a b : Z) : Z := wrap64 (a * b).

(** ** Go errors *)

Inductive error : Type :=
| ErrNoRows                         (* sql.ErrNoRows *)
| PgError (msg : string)            (* an error reported by the database *)
| Errorf (msg : string)             (* fmt.Errorf without %w *)
| Wrapf (msg : string) (e : error)  (* fmt.Errorf("msg: %w", e) *).

(** [errors.Is err sql.ErrNoRows] *)
Fixpoint is_no_rows (e : error) : bool :=
  match e with
  | ErrNoRows => true
  | Wrapf _ e' => is_no_rows e'
  | _ => false
  end.

Inductive result (A : Type) : Type :=
| Ok (a : A)
| Err (e : error).
Arguments Ok {A} a.
Arguments Err {A} e.


(** ** internal/models *)

Module models.

(** An address in the heap of structs. *)
Abbreviation ptr := nat.

(** The fields [Comment] and [ParentID] of the Go struct; they are renamed
    here because [Comment] and [ParentID] name the struct below and its
    field. *)
Record CommentRequest : Type := {
  Comment_ : string;           (* json:"comment" *)
  ReqParentID : option Z       (* json:"parent_id,omitempty" *)
}.

Record Comment : Type := {
  ID : Z;
  ParentID : option Z;
  PathID : string;
  Path : string;
  Comm : string;
  CreatedAt : Z;
  Children : option (list ptr)   (* []*Comment; None is the nil slice *)
}.

Record PaginatedComments : Type := {
  Comments : option (list ptr);
  Total : Z;
  Page : Z;
  Limit : Z
}.

Definition set_Children (c : Comment) (ch : option (list ptr)) : Comment :=
  {| ID := ID c; ParentID := ParentID c; PathID := PathID c; Path := Path c;
     Comm := Comm c; CreatedAt := CreatedAt c; Children := ch |}.

(** Go's [append] on a slice that may be nil. *)
Definition append {A} (s : option (list A)) (x : A) : option (list A) :=
  Some (default [] s ++ [x]).

End models.

(** ** The database: table [comments] and the statements run on it *)

Module Pg.

(** A row of
    [CREATE TABLE comments (id BIGSERIAL PRIMARY KEY,
       parent_id BIGINT NULL REFERENCES comments(id) ON DELETE CASCADE,
       path_id UUID NOT NULL UNIQUE, path TEXT NOT NULL,
       comment TEXT NOT NULL, created_at TIMESTAMP WITH TIME ZONE ...)]. *)
Record Row : Type := {
  r_id : Z;
  r_parent_id : option Z;
  r_path_id : string;
  r_path : string;
  r_comment : string;
  r_created_at : Z
}.

Record Database : Type := {
  table : list Row;     (* rows in insertion order *)
  serial : Z            (* next value of the sequence behind [id] *)
}.

Definition empty : Database := {| table := []; serial := 1 |}.

(** *** LIKE and ILIKE

    [%] matches any sequence of bytes, [_] any single byte (PostgreSQL
    matches one character, which is the same on ASCII text), and a
    backslash makes the next pattern byte literal.  [fold] is applied to both sides
    before bytes are compared: the identity for LIKE, ASCII lower-casing
    for ILIKE.  A pattern that ends in a lone backslash is rejected by
    PostgreSQL when the scan reaches it; every pattern built by the
    repository ends in [%], so that case does not arise here and the
    matcher answers [false] for it.

    The matcher is that of PostgreSQL on texts and patterns made of ASCII
    bytes other than NUL, in a database whose locale folds the ASCII
    letters as the C locale does.  PostgreSQL folds the other letters by
    the locale of the database, takes a character of several bytes as one
    for [_], and rejects a value with a NUL byte or a byte sequence that is
    not valid in its encoding; none of that is modelled, and the
    properties of the search are stated for ASCII text. *)
Definition pct : ascii := "%"%char.
Definition und : ascii := "_"%char.
Definition bsl : ascii := "\"%char.

Fixpoint like_match (fold : ascii -> ascii) (p t : list ascii) {struct p} : bool :=
  match p with
  | [] => match t with [] => true | _ :: _ => false end
  | c :: p' =>
      if Ascii.eqb c pct then
        (fix star (t : list ascii) : bool :=
           like_match fold p' t
           || match t with [] => false | _ :: t' => star t' end) t
      else if Ascii.eqb c und then
        match t with [] => false | _ :: t' => like_match fold p' t' end
      else if Ascii.eqb c bsl then
        match p' with
        | [] => false
        | e :: p'' =>
            match t with
            | [] => false
            | d :: t' => Ascii.eqb (fold e) (fold d) && like_match fold p'' t'
            end
        end
      else
        match t with
        | [] => false
        | d :: t' => Ascii.eqb (fold c) (fold d) && like_match fold p' t'
        end
  end.

Definition LIKE (text pattern : string) : bool :=
  like_match (fun c => c) (GoString.bytes pattern) (GoString.bytes text).

Definition ILIKE (text pattern : string) : bool :=
  like_match GoString.lower_byte (GoString.bytes pattern) (GoString.bytes text).

(** *** Input of the [uuid] type

    Thirty-two hexadecimal digits, with an optional hyphen after any group
    of four digits and optional surrounding braces; the stored value is
    printed in lower case as 8-4-4-4-12. *)
Definition is_hex (c : ascii) : bool :=
  let n := nat_of_ascii c in
  (((48 <=? n) && (n <=? 57)) || ((65 <=? n) && (n <=? 70))
   || ((97 <=? n) && (n <=? 102)))%nat.

Definition hyphen : ascii := "-"%char.

(** Reads [n] more bytes of the value, [i] bytes having been read. *)
Fixpoint uuid_bytes (n i : nat) (s : list ascii) : option (list ascii * list ascii) :=
  match n with
  | O => Some ([], s)
  | S n' =>
      match s with
      | a :: b :: r =>
          if is_hex a && is_hex b then
            let r' :=
              match r with
              | h :: r0 =>
                  if Ascii.eqb h hyphen && Nat.odd i && (i <? 15)%nat then r0 else r
              | [] => r
              end in
            match uuid_bytes n' (S i) r' with
            | Some (ds, rest) =>
                Some (GoString.lower_byte a :: GoString.lower_byte b :: ds, rest)
            | None => None
            end
          else None
      | _ => None
      end
  end.

Definition uuid_out (ds : list ascii) : list ascii :=
  firstn 8 ds ++ hyphen :: firstn 4 (skipn 8 ds) ++ hyphen :: firstn 4 (skipn 12 ds)
  ++ hyphen :: firstn 4 (skipn 16 ds) ++ hyphen :: skipn 20 ds.

Definition uuid_in (s : string) : option string :=
  let src := GoString.bytes s in
  let '(braces, src) :=
    match src with
    | c :: r => if Ascii.eqb c "{"%char then (true, r) else (false, src)
    | [] => (false, src)
    end in
  match uuid_bytes 16 0 src with
  | Some (ds, rest) =>
      let rest' :=
        if braces : bool then
          match rest with
          | c :: r => if Ascii.eqb c "}"%char then Some r else None
          | [] => None
          end
        else Some rest in
      match rest' with
      | Some [] => Some (GoString.of_bytes (uuid_out ds))
      | _ => None
      end
  | None => None
  end.

(** *** ORDER BY: a stable insertion sort

    Rows with equal keys stay in the order of the table; SQL leaves their
    order open, so a property that names the order of rows with equal keys
    would hold of this choice only. *)
Fixpoint insert_by {A} (le : A -> A -> bool) (x : A) (l : list A) : list A :=
  match l with
  | [] => [x]
  | y :: l' => if le x y then x :: l else y :: insert_by le x l'
  end.

Definition order_by {A} (le : A -> A -> bool) (l : list A) : list A :=
  List.fold_right (insert_by le) [] l.

(** Text is compared byte by byte (the C collation). *)
Definition text_le (a b : string) : bool := String.leb a b.

(** *** SELECT *)
Definition has_id (id : Z) (r : Row) : bool := r_id r =? id.

(** [SELECT ... FROM comments WHERE id = $1], first row. *)
Definition select_by_id (db : Database) (id : Z) : option Row :=
  List.find (has_id id) (table db).

(** [SELECT ... WHERE path LIKE $1 ORDER BY path DESC] *)
Definition select_like_path (db : Database) (pattern : string) : list Row :=
  order_by (fun a b => text_le (r_path b) (r_path a))
    (List.filter (fun r => LIKE (r_path r) pattern) (table db)).

Definition is_top_level (r : Row) : bool :=
  match r_parent_id r with None => true | Some _ => false end.

(** [SELECT COUNT( * ) FROM comments WHERE parent_id IS NULL] *)
Definition count_top_level (db : Database) : Z :=
  Z.of_nat (List.length (List.filter is_top_level (table db))).

(** [SELECT ... WHERE comment ILIKE $1 ORDER BY created_at DESC LIMIT 50].
    The error of the engine on a pattern that is not a valid text value
    (a NUL byte, an invalid byte sequence) is not modelled. *)
Definition search_ilike (db : Database) (pattern : string) : list Row :=
  firstn 50
    (order_by (fun a b => r_created_at b <=? r_created_at a)
       (List.filter (fun r => ILIKE (r_comment r) pattern) (table db))).

(** The ORDER BY clause of the paginated query, as interpolated text. *)
Definition order_le (column direction : string) : option (Row -> Row -> bool) :=
  let key : option (Row -> Z) :=
    if String.eqb column "created_at" then Some r_created_at
    else if String.eqb column "id" then Some r_id
    else None in
  match key with
  | Some k =>
      if String.eqb direction "ASC" then Some (fun a b => k a <=? k b)
      else if String.eqb direction "DESC" then Some (fun a b => k b <=? k a)
      else None
  | None => None
  end.

(** [SELECT ... WHERE parent_id IS NULL ORDER BY <column> <direction>
     LIMIT $1 OFFSET $2].  A negative LIMIT or OFFSET is an error. *)
Definition select_top_level (db : Database) (column direction : string)
    (limit offset : Z) : result (list Row) :=
  match order_le column direction with
  | None => Err (PgError "syntax error in ORDER BY")
  | Some le =>
      if limit <? 0 then Err (PgError "LIMIT must not be negative")
      else if offset <? 0 then Err (PgError "OFFSET must not be negative")
      else Ok (firstn (Z.to_nat limit)
                 (skipn (Z.to_nat offset)
                    (order_by le (List.filter is_top_level (table db)))))
  end.

(** *** DELETE, with the cascade of the foreign key on [parent_id] *)
Definition refers_to (gone : list Z) (r : Row) : bool :=
  match r_parent_id r with
  | Some p => existsb (Z.eqb p) gone
  | None => false
  end.

Fixpoint cascade (fuel : nat) (gone : list Z) (rows : list Row) : list Row :=
  match fuel with
  | O => rows
  | S fuel' =>
      match List.filter (refers_to gone) rows with
      | [] => rows
      | dead =>
          cascade fuel' (List.map r_id dead)
            (List.filter (fun r => negb (refers_to gone r)) rows)
      end
  end.

(** [DELETE FROM comments WHERE path LIKE $1] *)
Definition delete_like_path (db : Database) (pattern : string) : Database :=
  let hit r := LIKE (r_path r) pattern in
  let dead := List.filter hit (table db) in
  {| table := cascade (List.length (table db)) (List.map r_id dead)
                (List.filter (fun r => negb (hit r)) (table db));
     serial := serial db |}.

(** *** INSERT

    [INSERT INTO comments (parent_id,path_id,path,comment,created_at)
     VALUES ($1,$2,$3,$4,$5)].  The text given for [path_id] must be a
    valid uuid; the sequence is advanced before the constraints are
    checked.  The checks of the engine on the text values themselves (no
    NUL byte, valid encoding) are not modelled: the properties that assert
    a successful insert are stated for texts of ASCII bytes other than
    NUL. *)
Definition insert (db : Database) (parent : option Z) (path_id path comment : string)
    (created_at : Z) : result unit * Database :=
  match uuid_in path_id with
  | None => (Err (PgError "invalid input syntax for type uuid"), db)
  | Some u =>
      let id := serial db in
      let db' := {| table := table db; serial := serial db + 1 |} in
      if existsb (fun r => String.eqb (r_path_id r) u) (table db) then
        (Err (PgError "duplicate key value violates unique constraint"), db')
      else if match parent with
              | Some p => negb (existsb (has_id p) (table db))
              | None => false
              end then
        (Err (PgError "violates foreign key constraint"), db')
      else
        (Ok tt,
         {| table := table db ++
                     [ {| r_id := id; r_parent_id := parent; r_path_id := u;
                          r_path := path; r_comment := comment;
                          r_created_at := created_at |} ];
            serial := serial db + 1 |})
  end.

End Pg.

(** ** The running program: database, statement log and heap *)

Inductive arg : Type :=
| AInt (z : Z)
| AText (s : string)
| ATime (t : Z)
| ANull.

Definition arg_of_opt (o : option Z) : arg :=
  match o with Some z => AInt z | None => ANull end.

Record stmt : Type := { sql : string; args : list arg }.

Record World : Type := {
  db : Pg.Database;
  sent : list stmt;               (* statements executed, oldest first *)
  heap : list models.Comment      (* the structs behind *models.Comment *)
}.

Definition init : World := {| db := Pg.empty; sent := []; heap := [] |}.

Definition M (A : Type) : Type := World -> result A * World.

Definition ret {A} (a : A) : M A := fun w => (Ok a, w).
Definition fail {A} (e : error) : M A := fun w => (Err e, w).
Definition bind {A B} (m : M A) (k : A -> M B) : M B :=
  fun w => match m w with
           | (Ok a, w') => k a w'
           | (Err e, w') => (Err e, w')
           end.
(** [v, err := m; if err != nil { return ..., h(err) }] *)
Definition or_else {A} (m : M A) (h : error -> error) : M A :=
  fun w => match m w with
           | (Ok a, w') => (Ok a, w')
           | (Err e, w') => (Err (h e), w')
           end.

Notation "'let*' x ':=' m 'in' k" := (bind m (fun x => k))
  (at level 10, x name, m at level 100, k at level 200).

Definition log_stmt (q : string) (a : list arg) : M unit :=
  fun w => (Ok tt, {| db := db w; sent := sent w ++ [ {| sql := q; args := a |} ];
                      heap := heap w |}).

(** [new(models.Comment)] after a successful Scan. *)
Definition alloc (c : models.Comment) : M models.ptr :=
  fun w => (Ok (List.length (heap w)),
            {| db := db w; sent := sent w; heap := heap w ++ [c] |}).

(** Reading through a pointer; an address that was never allocated has no
    counterpart in Go and is reported as a failure of the model. *)
Definition load (p : models.ptr) : M models.Comment :=
  fun w => match heap w !! p with
           | Some c => (Ok c, w)
           | None => (Err (Errorf "invalid memory address"), w)
           end.

(** ** github.com/wb-go/wbf: retry and dbpg

    The calls of the imported library, by their effect on the database: an
    attempt sends the statement once, and a failed attempt is repeated
    until the attempts of the strategy are used up (the waits between
    attempts have no counterpart here). *)

Module dbpg.

Record Strategy : Type := { Attempts : nat; Delay : Z; Backoff : Z }.

(** Runs [op]; after a failure runs it again, up to [more] further times. *)
Fixpoint retry_more {A} (more : nat) (op : M A) : M A :=
  fun w =>
    match op w with
    | (Ok a, w') => (Ok a, w')
    | (Err e, w') =>
        match more with
        | O => (Err e, w')
        | S m => retry_more m op w'
        end
    end.

Definition retry_do {A} (s : Strategy) (op : M A) : M A :=
  retry_more (Nat.pred (Attempts s)) op.

(** A query expected to give at most one row; the row (or its absence) is
    consumed by [Scan]. *)
Definition QueryRowWithRetry {A} (s : Strategy) (q : string) (a : list arg)
    (run : Pg.Database -> option A) : M (option A) :=
  retry_do s (let* _ := log_stmt q a in fun w => (Ok (run (db w)), w)).

(** [row.Scan(...)] *)
Definition Scan {A} (row : option A) : M A :=
  match row with
  | Some r => ret r
  | None => fail ErrNoRows
  end.

Definition QueryWithRetry {A} (s : Strategy) (q : string) (a : list arg)
    (run : Pg.Database -> result (list A)) : M (list A) :=
  retry_do s (let* _ := log_stmt q a in fun w => (run (db w), w)).

Definition ExecWithRetry (s : Strategy) (q : string) (a : list arg)
    (run : Pg.Database -> result unit * Pg.Database) : M unit :=
  retry_do s
    (let* _ := log_stmt q a in
     fun w => let '(r, d) := run (db w) in
              (r, {| db := d; sent := sent w; heap := heap w |})).

(** [res.LastInsertId()]: the PostgreSQL drivers of database/sql do not
    implement it and return an error. *)
Definition LastInsertId (res : unit) : result Z :=
  Err (Errorf "LastInsertId is not supported by this driver").

End dbpg.

(** ** internal/repository *)

Module repository.
Import models.

Definition createQuery : string :=
  "INSERT INTO comments (parent_id,path_id,path,comment,created_at) VALUES ($1,$2,$3,$4,$5)".
Definition getPathQuery : string := "SELECT path FROM comments WHERE id = $1".
Definition getCommentByIDQuery : string :=
  "SELECT id,parent_id,path_id,path,comment,created_at FROM comments WHERE id = $1".
Definition getChildrenByPathQuery : string :=
  "SELECT id,parent_id,path_id,path,comment,created_at FROM comments WHERE path LIKE $1 ORDER BY path DESC".
Definition deleteCommentQuery : string := "DELETE FROM comments WHERE path LIKE $1".
Definition countTopLevelCommentsQuery : string :=
  "SELECT COUNT(*) FROM comments WHERE parent_id IS NULL".
Definition searchCommentsQuery : string :=
  "SELECT id, parent_id, path_id, path, comment, created_at FROM comments WHERE comment ILIKE $1 ORDER BY created_at DESC LIMIT 50".

(** Five attempts, one millisecond before the second, doubled each time. *)
Definition retryStrategy : dbpg.Strategy :=
  {| dbpg.Attempts := 5; dbpg.Delay := 1; dbpg.Backoff := 2 |}.

(** [rows.Scan(&comment.ID, &comment.ParentID, ...)] into a fresh struct. *)
Definition scan_comment (r : Pg.Row) : Comment :=
  {| ID := Pg.r_id r; ParentID := Pg.r_parent_id r; PathID := Pg.r_path_id r;
     Path := Pg.r_path r; Comm := Pg.r_comment r; CreatedAt := Pg.r_created_at r;
     Children := None |}.

(** [for rows.Next() { var comment models.Comment; Scan; comments = append(comments, &comment) }] *)
Fixpoint scan_rows (rs : list Pg.Row) (comments : option (list ptr)) : M (option (list ptr)) :=
  match rs with
  | [] => ret comments
  | r :: rs' =>
      let* p := alloc (scan_comment r) in
      scan_rows rs' (append comments p)
  end.

(** The path of a new comment (the local [newPath] of [Create]). *)
Definition newPath (parentPath pathID : string) : string :=
  parentPath +:+ pathID +:+ "/".

Definition Create (c : Comment) : M Z :=
  let* parentPath :=
    match ParentID c with
    | Some pid =>
        let* row :=
          or_else
            (dbpg.QueryRowWithRetry retryStrategy getPathQuery [AInt pid]
               (fun d => Pg.r_path <$> Pg.select_by_id d pid))
            (Wrapf "query for parent comment failed") in
        or_else (dbpg.Scan row)
          (fun err =>
             if is_no_rows err
             then Errorf ("parent comment with id " +:+ GoString.itoa pid +:+ " not found")
             else Wrapf "failed to scan parent path" err)
    | None => ret ""
    end in
  let newPath := newPath parentPath (PathID c) in
  let* res :=
    or_else
      (dbpg.ExecWithRetry retryStrategy createQuery
         [arg_of_opt (ParentID c); AText (PathID c); AText newPath; AText (Comm c);
          ATime (CreatedAt c)]
         (fun d => Pg.insert d (ParentID c) (PathID c) newPath (Comm c) (CreatedAt c)))
      (Wrapf "failed to create comment") in
  match dbpg.LastInsertId res with
  | Ok id => ret id
  | Err _ => ret (-1)
  end.

Definition GetByID (id : Z) : M ptr :=
  let* row :=
    or_else
      (dbpg.QueryRowWithRetry retryStrategy getCommentByIDQuery [AInt id]
         (fun d => Pg.select_by_id d id))
      (Wrapf "failed to get comment by ID") in
  let* r := or_else (dbpg.Scan row) (Wrapf "failed to get comment by ID") in
  alloc (scan_comment r).

Definition GetChildrenByPath (path : string) : M (option (list ptr)) :=
  let likePath := path +:+ "%" in
  let* rows :=
    or_else
      (dbpg.QueryWithRetry retryStrategy getChildrenByPathQuery [AText likePath]
         (fun d => Ok (Pg.select_like_path d likePath)))
      (Wrapf "failed to get children by path") in
  scan_rows rows None.

Definition DeleteByPath (path : string) : M unit :=
  let likePath := path +:+ "%" in
  or_else
    (dbpg.ExecWithRetry retryStrategy deleteCommentQuery [AText likePath]
       (fun d => (Ok tt, Pg.delete_like_path d likePath)))
    (Wrapf "failed to delete comment by path").

(** The whitelisting of [GetTopLevelComments]:
    [allowedSorts := map[string]bool{"created_at": true, "id": true}]. *)
Definition allowedSorts (sortBy : string) : bool :=
  String.eqb sortBy "created_at" || String.eqb sortBy "id".

Definition checked_sortBy (sortBy : string) : string :=
  if negb (allowedSorts sortBy) then "created_at" else sortBy.

Definition checked_sortOrder (ToUpper : string -> string) (sortOrder : string) : string :=
  let sortOrder := ToUpper sortOrder in
  if negb (String.eqb sortOrder "ASC") && negb (String.eqb sortOrder "DESC")
  then "ASC" else sortOrder.

(** [fmt.Sprintf(`SELECT ... ORDER BY %s %s LIMIT $1 OFFSET $2`, sortBy, sortOrder)] *)
Definition topLevelQuery (sortBy sortOrder : string) : string :=
  "SELECT id,parent_id,path_id,path,comment,created_at FROM comments WHERE parent_id IS NULL ORDER BY "
  +:+ sortBy +:+ " " +:+ sortOrder +:+ " LIMIT $1 OFFSET $2".

Definition GetTopLevelComments (ToUpper : string -> string) (limit offset : Z)
    (sortBy sortOrder : string) : M (option (list ptr) * Z) :=
  let* row :=
    or_else
      (dbpg.QueryRowWithRetry retryStrategy countTopLevelCommentsQuery []
         (fun d => Some (Pg.count_top_level d)))
      (Wrapf "failed to get top level comments") in
  let* total := or_else (dbpg.Scan row) (Wrapf "failed to count top level comments") in
  let sortBy := checked_sortBy sortBy in
  let sortOrder := checked_sortOrder ToUpper sortOrder in
  let query := topLevelQuery sortBy sortOrder in
  let* rows :=
    or_else
      (dbpg.QueryWithRetry retryStrategy query [AInt limit; AInt offset]
         (fun d => Pg.select_top_level d sortBy sortOrder limit offset))
      (Wrapf "failed to get top level comments") in
  let* comments := scan_rows rows None in
  ret (comments, total).

Definition SearchByText (query : string) : M (option (list ptr)) :=
  let searchPattern := "%" +:+ query +:+ "%" in
  let* rows :=
    or_else
      (dbpg.QueryWithRetry retryStrategy searchCommentsQuery [AText searchPattern]
         (fun d => Ok (Pg.search_ilike d searchPattern)))
      (Wrapf "failed to search comments") in
  scan_rows rows None.

End repository.

(** ** internal/service *)

Module service.
Import models.

(** *** Tree assembly: the part of [GetComments] after the two reads *)

(** First loop:
    [comment.Children = []*models.Comment{}; commentMap[comment.ID] = comment]. *)
Definition index_step (st : list Comment * gmap Z ptr) (p : ptr) : list Comment * gmap Z ptr :=
  match st.1 !! p with
  | Some c => (<[p := set_Children c (Some [])]> st.1, <[ID c := p]> st.2)
  | None => st
  end.

(** Second loop:
    [if comment.ParentID != nil { if parent, ok := commentMap[*comment.ParentID]; ok
       { parent.Children = append(parent.Children, comment) } }]. *)
Definition link_step (commentMap : gmap Z ptr) (h : list Comment) (p : ptr) : list Comment :=
  match h !! p with
  | Some c =>
      match ParentID c with
      | Some pid =>
          match commentMap !! pid with
          | Some parent =>
              alter (fun pc => set_Children pc (append (Children pc) p)) parent h
          | None => h
          end
      | None => h
      end
  | None => h
  end.

Definition build_map (h : list Comment) (allComments : list ptr) : list Comment * gmap Z ptr :=
  fold_left index_step allComments (h, ∅).

Definition link_all (commentMap : gmap Z ptr) (h : list Comment) (allComments : list ptr) : list Comment :=
  fold_left (link_step commentMap) allComments h.

(** Lines 66 to 89 of service.go, on the heap: the address returned and the
    heap after the mutations. *)
Definition assemble (id : Z) (root : ptr) (allComments : option (list ptr))
    (h : list Comment) : ptr * list Comment :=
  let all := default [] allComments in
  if (List.length all <=? 1)%nat then
    (root, alter (fun r => set_Children r (Some [])) root h)
  else
    let '(h1, commentMap) := build_map h all in
    let h2 := link_all commentMap h1 all in
    match commentMap !! id with
    | Some rootInTree => (rootInTree, h2)
    | None => (root, h2)
    end.

Definition CreateComment (pathID : string) (now : Z) (cr : CommentRequest) : M unit :=
  (* pathID is uuid.New().String(), now is time.Now(); the id that the
     repository returns is not used *)
  let comment :=
    {| ID := 0; ParentID := ReqParentID cr; PathID := pathID; Path := "";
       Comm := Comment_ cr; CreatedAt := now; Children := None |} in
  let* _ := or_else (repository.Create comment) (Wrapf "failed to create comment") in
  ret tt.

Definition GetComments (id : Z) : M ptr :=
  let* root := or_else (repository.GetByID id) (Wrapf "failed to get root comment") in
  let* rootc := load root in
  let* allComments :=
    or_else (repository.GetChildrenByPath (Path rootc)) (Wrapf "failed to get children") in
  fun w =>
    let '(p, h) := assemble id root allComments (heap w) in
    (Ok p, {| db := db w; sent := sent w; heap := h |}).

Definition DeleteComments (id : Z) : M unit :=
  let* rootComment := or_else (repository.GetByID id) (Wrapf "failed to get root comment") in
  let* rootc := load rootComment in
  or_else (repository.DeleteByPath (Path rootc)) (Wrapf "failed to delete comments").

(** [for _, rootComment := range topLevelComments { fullTree, err := GetComments(rootComment.ID);
      if err != nil { continue }; allTrees = append(allTrees, fullTree) }] *)
Fixpoint build_trees (topLevelComments : list ptr) (allTrees : option (list ptr))
    : M (option (list ptr)) :=
  match topLevelComments with
  | [] => ret allTrees
  | rootComment :: rest =>
      let* rc := load rootComment in
      fun w =>
        match GetComments (ID rc) w with
        | (Ok fullTree, w') => build_trees rest (append allTrees fullTree) w'
        | (Err _, w') => build_trees rest allTrees w'
        end
  end.

Definition clamp_page (page : Z) : Z := if page <? 1 then 1 else page.
Definition clamp_limit (limit : Z) : Z :=
  if (limit <? 1) || (100 <? limit) then 10 else limit.

Definition GetAllCommentTrees (ToUpper : string -> string) (page limit : Z)
    (sortBy sortOrder : string) : M PaginatedComments :=
  let page := clamp_page page in
  let limit := clamp_limit limit in
  let offset := int_mul (int_sub page 1) limit in
  let* res :=
    or_else (repository.GetTopLevelComments ToUpper limit offset sortBy sortOrder)
      (Wrapf "failed to get top-level comments") in
  let '(topLevelComments, total) := res in
  let* allTrees := build_trees (default [] topLevelComments) None in
  ret {| Comments := allTrees; Total := total; Page := page; Limit := limit |}.

Definition SearchComments (query : string) : M (option (list ptr)) :=
  if (String.length (GoString.TrimSpace query) <? 3)%nat then ret (Some [])
  else repository.SearchByText query.

End service.

(** ** strconv *)

(** The two functions of Go's [strconv] that the handlers call, for base
    10 and 64-bit integers.  Each returns a value and an error; the value
    is 0 after a syntax error and the nearest bound after a range
    error. *)
Module strconv.

Inductive NumError : Type :=
| ErrSyntax       (* strconv.ErrSyntax *)
| ErrRange        (* strconv.ErrRange *).

Definition maxUint64 : Z := 2 ^ 64 - 1.

(** The loop of [ParseUint(s, 10, 64)]: [n] is the number read so far, an
    unsigned 64-bit integer.  A byte that is not a decimal digit is a
    syntax error; the loop returns at the first digit that does not fit,
    without looking at the bytes after it. *)
Fixpoint parse_digits (s : list ascii) (n : Z) : Z * option NumError :=
  match s with
  | [] => (n, None)
  | c :: s' =>
      let c := Z.of_nat (nat_of_ascii c) in
      if (48 <=? c) && (c <=? 57) then
        let d := c - 48 in
        if maxUint64 / 10 + 1 <=? n then (maxUint64, Some ErrRange)
        else
          let n := (n * 10) mod 2 ^ 64 in
          let n1 := (n + d) mod 2 ^ 64 in
          if (n1 <? n) || (maxUint64 <? n1) then (maxUint64, Some ErrRange)
          else parse_digits s' n1
      else (0, Some ErrSyntax)
  end.

Definition ParseUint (s : string) : Z * option NumError :=
  if String.eqb s "" then (0, Some ErrSyntax)
  else parse_digits (GoString.bytes s) 0.

(** [ParseInt(s, 10, 64)] *)
Definition ParseInt (s : string) : Z * option NumError :=
  match s with
  | EmptyString => (0, Some ErrSyntax)
  | String c rest =>
      let neg := Ascii.eqb c "-" in
      let s := if Ascii.eqb c "+" || neg then rest else s in
      match ParseUint s with
      | (_, Some ErrSyntax) => (0, Some ErrSyntax)
      | (un, _) =>
          let cutoff := 2 ^ 63 in
          if negb neg && (cutoff <=? un) then (cutoff - 1, Some ErrRange)
          else if neg && (cutoff <? un) then (- cutoff, Some ErrRange)
          else
            let n := wrap64 un in
            (if neg then wrap64 (- n) else n, None)
      end
  end.

(** The loop of the fast path of [Atoi]: [ch -= '0'] on a byte, then the
    test [ch > 9]. *)
Fixpoint atoi_digits (s : list ascii) (n : Z) : option Z :=
  match s with
  | [] => Some n
  | ch :: s' =>
      let ch := (Z.of_nat (nat_of_ascii ch) - 48) mod 256 in
      if 9 <? ch then None
      else atoi_digits s' (wrap64 (wrap64 (n * 10) + ch))
  end.

(** [Atoi(s)], with 64-bit [int]: strings of 1 to 18 bytes take the fast
    path, the others go through [ParseInt]. *)
Definition Atoi (s : string) : Z * option NumError :=
  let sLen := String.length s in
  if ((0 <? sLen) && (sLen <? 19))%nat then
    match s with
    | EmptyString => (0, Some ErrSyntax)
    | String c rest =>
        let signed := Ascii.eqb c "-" || Ascii.eqb c "+" in
        let s' := if signed then rest else s in
        if signed && (String.length s' <? 1)%nat then (0, Some ErrSyntax)
        else
          match atoi_digits (GoString.bytes s') 0 with
          | None => (0, Some ErrSyntax)
          | Some n => (if Ascii.eqb c "-" then wrap64 (- n) else n, None)
          end
    end
  else ParseInt s.

End strconv.

(** ** internal/router/handlers *)

Module handlers.
Import models.

Inductive body : Type :=
| ErrorBody (msg : string)              (* ginext.H{"error": msg} *)
| CommentBody (cr : CommentRequest)     (* ginext.H{"comment": commentRequest} *).

(** One call of [c.JSON(status, body)]. *)
Record response : Type := { status : Z; payload : body }.

Definition StatusBadRequest : Z := 400.
Definition StatusCreated : Z := 201.

(** [CreateComment]; [decoded] is the outcome of decoding the request body,
    [pathID] and [now] are what the service draws from [uuid.New] and
    [time.Now].  The result is the list of JSON responses written. *)
Definition CreateComment (decoded : result CommentRequest) (pathID : string) (now : Z)
    : World -> list response * World :=
  fun w =>
    match decoded with
    | Err _ => ([ {| status := StatusBadRequest; payload := ErrorBody "Invalid request body" |} ], w)
    | Ok commentRequest =>
        if String.eqb (Comment_ commentRequest) "" then
          ([ {| status := StatusBadRequest; payload := ErrorBody "Comment is required" |} ], w)
        else
          let written :=
            match ReqParentID commentRequest with
            | Some pid =>
                if pid <? 0 then
                  [ {| status := StatusBadRequest;
                       payload := ErrorBody "ParentID it can't be negative" |} ]
                else []
            | None => []
            end in
          match service.CreateComment pathID now commentRequest w with
          | (Err _, w') =>
              (written ++ [ {| status := StatusBadRequest;
                               payload := ErrorBody "Failed to create comment" |} ], w')
          | (Ok _, w') =>
              (written ++ [ {| status := StatusCreated;
                               payload := CommentBody commentRequest |} ], w')
          end
    end.

(** The bodies written by the other handlers. *)
Inductive reply : Type :=
| ErrorReply (msg : string)                     (* ginext.H{"error": msg} *)
| TreeReply (comments : ptr)                    (* ginext.H{"comments": comments}, one tree *)
| PageReply (paginatedResult : PaginatedComments)
| IdReply (id : Z)                              (* ginext.H{"id": id} *)
| ResultsReply (results : option (list ptr))    (* ginext.H{"comments": results}, a slice *).

Record answer : Type := { code : Z; content : reply }.

Definition StatusOK : Z := 200.
Definition StatusInternalServerError : Z := 500.

(** [c.Query(key)] and [c.DefaultQuery(key, defaultValue)], on the value of
    the key in the query string when the key is there. *)
Definition Query (value : option string) : string := default "" value.
Definition DefaultQuery (value : option string) (defaultValue : string) : string :=
  default defaultValue value.

(** [GetCommentByID]; the arguments are the values of the keys [parent],
    [page], [limit], [sort_by] and [sort_order] of the query string. *)
Definition GetCommentByID (ToUpper : string -> string)
    (parent page limit sort_by sort_order : option string)
    : World -> list answer * World :=
  fun w =>
    let idStr := Query parent in
    if String.eqb idStr "" then
      let page := (strconv.Atoi (DefaultQuery page "1")).1 in
      let limit := (strconv.Atoi (DefaultQuery limit "10")).1 in
      let sortBy := DefaultQuery sort_by "created_at" in
      let sortOrder := DefaultQuery sort_order "asc" in
      match service.GetAllCommentTrees ToUpper page limit sortBy sortOrder w with
      | (Err _, w') =>
          ([ {| code := StatusInternalServerError;
                content := ErrorReply "Failed to get all comments" |} ], w')
      | (Ok paginatedResult, w') =>
          ([ {| code := StatusOK; content := PageReply paginatedResult |} ], w')
      end
    else
      match strconv.ParseInt idStr with
      | (_, Some _) =>
          ([ {| code := StatusBadRequest; content := ErrorReply "Invalid id format" |} ], w)
      | (id, None) =>
          match service.GetComments id w with
          | (Err _, w') =>
              ([ {| code := StatusInternalServerError;
                    content := ErrorReply "Failed to get comments" |} ], w')
          | (Ok comments, w') =>
              ([ {| code := StatusOK; content := TreeReply comments |} ], w')
          end
      end.

(** [DeleteComment]; [idStr] is the path parameter [id]. *)
Definition DeleteComment (idStr : string) : World -> list answer * World :=
  fun w =>
    if String.eqb idStr "" then
      ([ {| code := StatusBadRequest; content := ErrorReply "Invalid id" |} ], w)
    else
      match strconv.ParseInt idStr with
      | (_, Some _) =>
          ([ {| code := StatusBadRequest; content := ErrorReply "Invalid id" |} ], w)
      | (id, None) =>
          match service.DeleteComments id w with
          | (Err _, w') =>
              ([ {| code := StatusInternalServerError;
                    content := ErrorReply "Failed to delete comments" |} ], w')
          | (Ok _, w') =>
              ([ {| code := StatusOK; content := IdReply id |} ], w')
          end
      end.

(** [SearchComments]; [q] is the value of the key [q] of the query
    string. *)
Definition SearchComments (q : option string) : World -> list answer * World :=
  fun w =>
    let query := Query q in
    match service.SearchComments query w with
    | (Err _, w') =>
        ([ {| code := StatusInternalServerError;
              content := ErrorReply "Failed to perform search" |} ], w')
    | (Ok results, w') =>
        ([ {| code := StatusOK; content := ResultsReply results |} ], w')
    end.

End handlers.

(** ** A run of the program used in the examples below *)

Module Scenario.
Import models.

Definition uuidA : string := "0a0a0a0a-aaaa-4aaa-8aaa-aaaaaaaaaaaa".
Definition uuidB : string := "0b0b0b0b-bbbb-4bbb-8bbb-bbbbbbbbbbbb".
Definition uuidC : string := "0c0c0c0c-cccc-4ccc-8ccc-cccccccccccc".

Definition request (text : string) (parent : option Z) : CommentRequest :=
  {| Comment_ := text; ReqParentID := parent |}.

(** A root, then a reply to it, then a reply to the reply. *)
Definition world1 : World := (service.CreateComment uuidA 100 (request "first" None) init).2.
Definition world2 : World :=
  (service.CreateComment uuidB 200 (request "reply" (Some 1)) world1).2.
Definition world3 : World :=
  (service.CreateComment uuidC 300 (request "reply to reply" (Some 2)) world2).2.

(** Twenty-five top-level comments. *)
Definition root_uuid (k : nat) : string :=
  "00000000-0000-4000-8000-0000000000" +:+ GoString.itoa (Z.of_nat (10 + k)).

Definition add_root (w : World) (k : nat) : World :=
  (service.CreateComment (root_uuid k) (1000 + Z.of_nat k)
     (request ("comment " +:+ GoString.itoa (Z.of_nat k)) None) w).2.

Definition world25 : World := fold_left add_root (seq 0 25) init.

End Scenario.

(** * Properties *)

(** ** What each call of the database layer does to the world *)

Section Statements.
Import models.

Definition with_sent (w : World) (new : list stmt) : World :=
  {| db := db w; sent := sent w ++ new; heap := heap w |}.

Lemma with_sent_app w a b : with_sent (with_sent w a) b = with_sent w (a ++ b).
Proof. unfold with_sent; simpl; by rewrite <- app_assoc. Qed.

Lemma QueryRow_run {A} s q a (run : Pg.Database -> option A) w :
  dbpg.QueryRowWithRetry s q a run w
  = (Ok (run (db w)), with_sent w [ {| sql := q; args := a |} ]).
Proof.
  unfold dbpg.QueryRowWithRetry, dbpg.retry_do.
  by destruct (Nat.pred (dbpg.Attempts s)).
Qed.

Lemma Query_ok {A} s q a (run : Pg.Database -> result (list A)) w rs :
  run (db w) = Ok rs ->
  dbpg.QueryWithRetry s q a run w = (Ok rs, with_sent w [ {| sql := q; args := a |} ]).
Proof.
  intros H. unfold dbpg.QueryWithRetry, dbpg.retry_do.
  destruct (Nat.pred (dbpg.Attempts s)); simpl; unfold bind, log_stmt; simpl;
    by rewrite H.
Qed.

Lemma Query_retry_err {A} q a (run : Pg.Database -> result (list A)) e n : forall w,
  run (db w) = Err e ->
  dbpg.retry_more n (let* _ := log_stmt q a in fun w => (run (db w), w)) w
  = (Err e, with_sent w (repeat {| sql := q; args := a |} (S n))).
Proof.
  induction n as [|n IH]; intros w H.
  - simpl. unfold bind, log_stmt; simpl. by rewrite H.
  - cbn [dbpg.retry_more]. unfold bind at 1, log_stmt at 1. cbn [db]. rewrite H.
    rewrite IH by exact H. unfold with_sent. cbn [db sent heap].
    by rewrite <- app_assoc.
Qed.

Lemma Query_err {A} s q a (run : Pg.Database -> result (list A)) w e :
  run (db w) = Err e ->
  dbpg.QueryWithRetry s q a run w
  = (Err e, with_sent w (repeat {| sql := q; args := a |} (S (Nat.pred (dbpg.Attempts s))))).
Proof. intros H. by apply Query_retry_err. Qed.

(** Addresses handed out by [scan_rows]. *)
Definition appended (acc : option (list ptr)) (ps : list ptr) : option (list ptr) :=
  fold_left append ps acc.

Lemma appended_some acc ps :
  ps <> [] -> appended acc ps = Some (default [] acc ++ ps).
Proof.
  revert acc. induction ps as [|p ps IH]; [done|]. intros acc _.
  unfold appended in *. cbn [fold_left]. destruct ps as [|p' ps].
  - reflexivity.
  - rewrite IH by done. unfold append; simpl. by rewrite <- app_assoc.
Qed.

Lemma appended_default acc ps :
  default [] (appended acc ps) = default [] acc ++ ps.
Proof.
  destruct ps as [|p ps]; [simpl; by rewrite app_nil_r|].
  by rewrite appended_some.
Qed.

Lemma scan_rows_run rs : forall acc w,
  repository.scan_rows rs acc w
  = (Ok (appended acc (seq (List.length (heap w)) (List.length rs))),
     {| db := db w; sent := sent w;
        heap := heap w ++ List.map repository.scan_comment rs |}).
Proof.
  induction rs as [|r rs IH]; intros acc w.
  - simpl. unfold ret. destruct w; simpl. by rewrite app_nil_r.
  - cbn [repository.scan_rows]. unfold bind at 1, alloc at 1.
    rewrite IH. cbn [heap db sent]. rewrite length_app. simpl.
    rewrite Nat.add_1_r, <- app_assoc. reflexivity.
Qed.

End Statements.

(** ** The paginated query of [GetTopLevelComments] *)

Section TopLevel.
Import models.

Definition count_stmt : stmt :=
  {| sql := repository.countTopLevelCommentsQuery; args := [] |}.

Definition page_stmt (col dir : string) (limit offset : Z) : stmt :=
  {| sql := repository.topLevelQuery col dir; args := [AInt limit; AInt offset] |}.

Lemma GetTopLevelComments_run U limit offset sortBy sortOrder w :
  repository.GetTopLevelComments U limit offset sortBy sortOrder w =
  let col := repository.checked_sortBy sortBy in
  let dir := repository.checked_sortOrder U sortOrder in
  match Pg.select_top_level (db w) col dir limit offset with
  | Ok rows =>
      (Ok (appended None (seq (List.length (heap w)) (List.length rows)),
           Pg.count_top_level (db w)),
       {| db := db w;
          sent := sent w ++ [count_stmt; page_stmt col dir limit offset];
          heap := heap w ++ List.map repository.scan_comment rows |})
  | Err e =>
      (Err (Wrapf "failed to get top level comments" e),
       with_sent w (count_stmt :: repeat (page_stmt col dir limit offset) 5))
  end.
Proof.
  cbv zeta. unfold repository.GetTopLevelComments.
  unfold bind at 1. unfold or_else at 1. rewrite QueryRow_run.
  unfold bind at 1. unfold or_else at 1. cbn [dbpg.Scan]. unfold ret at 1.
  unfold bind at 1. unfold or_else at 1.
  destruct (Pg.select_top_level (db w) _ _ limit offset) as [rows|e] eqn:E.
  - erewrite Query_ok by (cbn [db with_sent]; exact E).
    unfold bind at 1. rewrite scan_rows_run. unfold ret, with_sent.
    cbn [db sent heap]. by rewrite <- app_assoc.
  - erewrite Query_err by (cbn [db with_sent]; exact E).
    rewrite with_sent_app. reflexivity.
Qed.

Lemma checked_sortBy_cases sortBy :
  repository.checked_sortBy sortBy
  = if String.eqb sortBy "id" then "id" else "created_at".
Proof.
  unfold repository.checked_sortBy, repository.allowedSorts.
  destruct (String.eqb sortBy "created_at") eqn:E1.
  - apply String.eqb_eq in E1. by subst.
  - destruct (String.eqb sortBy "id") eqn:E2; [|done].
    apply String.eqb_eq in E2. by subst.
Qed.

Lemma checked_sortOrder_cases U sortOrder :
  repository.checked_sortOrder U sortOrder
  = if String.eqb (U sortOrder) "DESC" then "DESC" else "ASC".
Proof.
  unfold repository.checked_sortOrder.
  destruct (String.eqb (U sortOrder) "ASC") eqn:E1.
  - apply String.eqb_eq in E1. rewrite E1. by simpl.
  - destruct (String.eqb (U sortOrder) "DESC") eqn:E2; [|done].
    apply String.eqb_eq in E2. by rewrite E2.
Qed.

(** C9. Whatever strings are given for [sortBy] and [sortOrder] (and
    whatever the upper-casing function does), the column placed in the
    ORDER BY clause is "created_at" or "id", with "created_at" for every
    input other than "id"; the direction is "ASC" or "DESC", with "ASC"
    unless the upper-cased input is "DESC"; and every statement that
    [GetTopLevelComments] sends is the fixed counting statement or the
    paginated statement built from that column and that direction. *)
Theorem order_by_is_whitelisted (U : string -> string) (limit offset : Z)
    (sortBy sortOrder : string) (w : World) :
  let col := repository.checked_sortBy sortBy in
  let dir := repository.checked_sortOrder U sortOrder in
  (col = "created_at" \/ col = "id") /\
  col = (if String.eqb sortBy "id" then "id" else "created_at") /\
  (dir = "ASC" \/ dir = "DESC") /\
  dir = (if String.eqb (U sortOrder) "DESC" then "DESC" else "ASC") /\
  exists new,
    sent (repository.GetTopLevelComments U limit offset sortBy sortOrder w).2
      = sent w ++ new /\
    Forall (fun s => s = count_stmt \/ s = page_stmt col dir limit offset) new /\
    Forall (fun s => sql s = repository.countTopLevelCommentsQuery \/
                     sql s = repository.topLevelQuery "created_at" "ASC" \/
                     sql s = repository.topLevelQuery "created_at" "DESC" \/
                     sql s = repository.topLevelQuery "id" "ASC" \/
                     sql s = repository.topLevelQuery "id" "DESC") new.
Proof.
  cbv zeta.
  assert (Hc := checked_sortBy_cases sortBy).
  assert (Hd := checked_sortOrder_cases U sortOrder).
  split; [rewrite Hc; destruct (String.eqb sortBy "id"); auto|].
  split; [exact Hc|].
  split; [rewrite Hd; destruct (String.eqb (U sortOrder) "DESC"); auto|].
  split; [exact Hd|].
  rewrite GetTopLevelComments_run. cbv zeta.
  set (col := repository.checked_sortBy sortBy) in *.
  set (dir := repository.checked_sortOrder U sortOrder) in *.
  assert (Hq : forall s, s = count_stmt \/ s = page_stmt col dir limit offset ->
                sql s = repository.countTopLevelCommentsQuery \/
                sql s = repository.topLevelQuery "created_at" "ASC" \/
                sql s = repository.topLevelQuery "created_at" "DESC" \/
                sql s = repository.topLevelQuery "id" "ASC" \/
                sql s = repository.topLevelQuery "id" "DESC").
  { intros s [->| ->]; [by left|]. right. cbn [sql page_stmt]. rewrite Hc, Hd.
    destruct (String.eqb sortBy "id"), (String.eqb (U sortOrder) "DESC"); auto. }
  destruct (Pg.select_top_level (db w) col dir limit offset) as [rows|e].
  - eexists. split; [reflexivity|].
    assert (HF : Forall (fun s => s = count_stmt \/ s = page_stmt col dir limit offset)
                   [count_stmt; page_stmt col dir limit offset])
      by (repeat constructor; auto).
    split; [exact HF|]. eapply Forall_impl; [exact HF|exact Hq].
  - eexists. split; [reflexivity|].
    assert (HF : Forall (fun s => s = count_stmt \/ s = page_stmt col dir limit offset)
                   (count_stmt :: repeat (page_stmt col dir limit offset) 5))
      by (repeat constructor; auto).
    split; [exact HF|]. eapply Forall_impl; [exact HF|exact Hq].
Qed.

End TopLevel.

(** ** Creating a comment *)

Section Creation.
Import models.

Lemma Exec_ok s q a (run : Pg.Database -> result unit * Pg.Database) w d :
  run (db w) = (Ok tt, d) ->
  dbpg.ExecWithRetry s q a run w
  = (Ok tt, {| db := d; sent := sent w ++ [ {| sql := q; args := a |} ]; heap := heap w |}).
Proof.
  intros H. unfold dbpg.ExecWithRetry, dbpg.retry_do.
  destruct (Nat.pred (dbpg.Attempts s)); simpl; unfold bind, log_stmt; simpl;
    by rewrite H.
Qed.

(** Whether the INSERT passes the checks of the table: the text is a uuid,
    no row has that [path_id], and the parent row exists. *)
Definition insertable (tbl : list Pg.Row) (parent : option Z) (path_id : string) : bool :=
  match Pg.uuid_in path_id with
  | None => false
  | Some u =>
      negb (existsb (fun r => String.eqb (Pg.r_path_id r) u) tbl)
      && negb (match parent with
               | Some p => negb (existsb (Pg.has_id p) tbl)
               | None => false
               end)
  end.

Definition new_row (d : Pg.Database) (parent : option Z) (u path comment : string)
    (created_at : Z) : Pg.Row :=
  {| Pg.r_id := Pg.serial d; Pg.r_parent_id := parent; Pg.r_path_id := u;
     Pg.r_path := path; Pg.r_comment := comment; Pg.r_created_at := created_at |}.

Lemma insert_ok d parent path_id path comment t :
  insertable (Pg.table d) parent path_id = true ->
  exists u, Pg.uuid_in path_id = Some u /\
    Pg.insert d parent path_id path comment t
    = (Ok tt, {| Pg.table := Pg.table d ++ [new_row d parent u path comment t];
                 Pg.serial := Pg.serial d + 1 |}).
Proof.
  unfold insertable, Pg.insert. destruct (Pg.uuid_in path_id) as [u|]; [|done].
  intros H. apply andb_prop in H as [H1 H2].
  apply negb_true_iff in H1. apply negb_true_iff in H2.
  exists u. split; [done|]. by rewrite H1, H2.
Qed.

Lemma insert_err d parent path_id path comment t :
  insertable (Pg.table d) parent path_id = false ->
  exists e d', Pg.insert d parent path_id path comment t = (Err e, d') /\
    Pg.table d' = Pg.table d /\ Pg.serial d <= Pg.serial d'.
Proof.
  unfold insertable, Pg.insert. destruct (Pg.uuid_in path_id) as [u|].
  - intros H. destruct (existsb _ (Pg.table d)) eqn:E1.
    + do 2 eexists. split; [reflexivity|]. simpl. split; [done|lia].
    + simpl in H. apply negb_false_iff in H. rewrite H.
      do 2 eexists. split; [reflexivity|]. simpl. split; [done|lia].
  - intros _. do 2 eexists. split; [reflexivity|]. split; [done|lia].
Qed.

Lemma insert_retry_err q a parent path_id path comment t n : forall w,
  insertable (Pg.table (db w)) parent path_id = false ->
  exists e w',
    dbpg.retry_more n
      (let* _ := log_stmt q a in
       fun w => let '(r, d) := Pg.insert (db w) parent path_id path comment t in
                (r, {| db := d; sent := sent w; heap := heap w |})) w
    = (Err e, w') /\
    Pg.table (db w') = Pg.table (db w) /\ heap w' = heap w /\
    Pg.serial (db w) <= Pg.serial (db w') /\
    sent w' = sent w ++ repeat {| sql := q; args := a |} (S n).
Proof.
  induction n as [|n IH]; intros w H.
  - destruct (insert_err (db w) parent path_id path comment t H) as (e & d' & E & Ht & Hs).
    exists e. eexists. cbn [dbpg.retry_more]. unfold bind, log_stmt. cbn [db sent heap].
    rewrite E. split; [reflexivity|]. cbn [db sent heap]. auto.
  - destruct (insert_err (db w) parent path_id path comment t H) as (e & d' & E & Ht & Hs).
    cbn [dbpg.retry_more]. unfold bind at 1, log_stmt at 1. cbn [db sent heap].
    rewrite E.
    destruct (IH {| db := d'; sent := sent w ++ [ {| sql := q; args := a |} ];
                    heap := heap w |}) as (e' & w' & E' & Ht' & Hh' & Hs' & Hl').
    { cbn [db]. by rewrite Ht. }
    exists e', w'. split; [exact E'|]. cbn [db sent heap] in *.
    split; [congruence|]. split; [done|]. split; [lia|].
    rewrite Hl', <- app_assoc. reflexivity.
Qed.

Definition path_stmt (pid : Z) : stmt :=
  {| sql := repository.getPathQuery; args := [AInt pid] |}.

Definition create_stmt (c : Comment) (path : string) : stmt :=
  {| sql := repository.createQuery;
     args := [arg_of_opt (ParentID c); AText (PathID c); AText path; AText (Comm c);
              ATime (CreatedAt c)] |}.

Definition parent_missing (pid : Z) : error :=
  Errorf ("parent comment with id " +:+ GoString.itoa pid +:+ " not found").

(** The second half of [Create]: the INSERT and its result. *)
Definition create_exec (c : Comment) (parentPath : string) : M Z :=
  let newPath := repository.newPath parentPath (PathID c) in
  let* res :=
    or_else
      (dbpg.ExecWithRetry repository.retryStrategy repository.createQuery
         (args (create_stmt c newPath))
         (fun d => Pg.insert d (ParentID c) (PathID c) newPath (Comm c) (CreatedAt c)))
      (Wrapf "failed to create comment") in
  match dbpg.LastInsertId res with
  | Ok id => ret id
  | Err _ => ret (-1)
  end.

(** The first half of [Create]: the path of the parent. *)
Definition create_parent_path (parent : option Z) : M string :=
  match parent with
  | Some pid =>
      let* row :=
        or_else
          (dbpg.QueryRowWithRetry repository.retryStrategy repository.getPathQuery [AInt pid]
             (fun d => Pg.r_path <$> Pg.select_by_id d pid))
          (Wrapf "query for parent comment failed") in
      or_else (dbpg.Scan row)
        (fun err =>
           if is_no_rows err then parent_missing pid
           else Wrapf "failed to scan parent path" err)
  | None => ret ""
  end.

Lemma Create_split c :
  repository.Create c
  = (let* parentPath := create_parent_path (ParentID c) in create_exec c parentPath).
Proof. reflexivity. Qed.

Lemma create_parent_path_run parent w :
  create_parent_path parent w =
  match parent with
  | None => (Ok "", w)
  | Some pid =>
      match Pg.select_by_id (db w) pid with
      | None => (Err (parent_missing pid), with_sent w [path_stmt pid])
      | Some p => (Ok (Pg.r_path p), with_sent w [path_stmt pid])
      end
  end.
Proof.
  destruct parent as [pid|]; [|reflexivity].
  unfold create_parent_path, bind, or_else. rewrite QueryRow_run.
  destruct (Pg.select_by_id (db w) pid) as [p|]; reflexivity.
Qed.

Lemma Create_run c w :
  repository.Create c w =
  match ParentID c with
  | None => create_exec c "" w
  | Some pid =>
      match Pg.select_by_id (db w) pid with
      | None => (Err (parent_missing pid), with_sent w [path_stmt pid])
      | Some parent => create_exec c (Pg.r_path parent) (with_sent w [path_stmt pid])
      end
  end.
Proof.
  rewrite Create_split. unfold bind at 1. rewrite create_parent_path_run.
  destruct (ParentID c) as [pid|]; [|reflexivity].
  destruct (Pg.select_by_id (db w) pid); reflexivity.
Qed.

Lemma create_exec_ok c parentPath w :
  insertable (Pg.table (db w)) (ParentID c) (PathID c) = true ->
  exists u, Pg.uuid_in (PathID c) = Some u /\
    create_exec c parentPath w =
    (Ok (-1),
     {| db := {| Pg.table := Pg.table (db w) ++
                   [new_row (db w) (ParentID c) u
                      (repository.newPath parentPath (PathID c)) (Comm c) (CreatedAt c)];
                 Pg.serial := Pg.serial (db w) + 1 |};
        sent := sent w ++ [create_stmt c (repository.newPath parentPath (PathID c))];
        heap := heap w |}).
Proof.
  intros H.
  destruct (insert_ok (db w) (ParentID c) (PathID c)
              (repository.newPath parentPath (PathID c)) (Comm c) (CreatedAt c) H)
    as (u & Hu & E).
  exists u. split; [done|]. unfold create_exec. cbv zeta.
  unfold bind, or_else. erewrite Exec_ok by exact E. reflexivity.
Qed.

Lemma create_exec_err c parentPath w :
  insertable (Pg.table (db w)) (ParentID c) (PathID c) = false ->
  exists e w', create_exec c parentPath w = (Err e, w') /\
    Pg.table (db w') = Pg.table (db w) /\ heap w' = heap w /\
    Pg.serial (db w) <= Pg.serial (db w') /\
    exists new, sent w' = sent w ++ new.
Proof.
  intros H. unfold create_exec. cbv zeta. unfold bind, or_else.
  unfold dbpg.ExecWithRetry, dbpg.retry_do.
  edestruct insert_retry_err as (e & w' & E & Ht & Hh & Hs & Hl); [exact H|].
  rewrite E. do 2 eexists. split; [reflexivity|]. eauto 6.
Qed.

Lemma select_by_id_none d pid :
  Forall (fun r => Pg.r_id r <> pid) (Pg.table d) -> Pg.select_by_id d pid = None.
Proof.
  unfold Pg.select_by_id. induction 1 as [|r l Hr _ IH]; [done|].
  simpl. unfold Pg.has_id at 1. destruct (Z.eqb_spec (Pg.r_id r) pid); [done|exact IH].
Qed.

Lemma select_by_id_some d pid r :
  Pg.select_by_id d pid = Some r -> In r (Pg.table d) /\ Pg.r_id r = pid.
Proof.
  unfold Pg.select_by_id. intros H. apply find_some in H as [H1 H2].
  split; [done|]. by apply Z.eqb_eq in H2.
Qed.

Definition request_comment (pathID : string) (now : Z) (cr : CommentRequest) : Comment :=
  {| ID := 0; ParentID := ReqParentID cr; PathID := pathID; Path := "";
     Comm := Comment_ cr; CreatedAt := now; Children := None |}.

Lemma CreateComment_run pathID now cr w :
  service.CreateComment pathID now cr w =
  match repository.Create (request_comment pathID now cr) w with
  | (Ok _, w') => (Ok tt, w')
  | (Err e, w') => (Err (Wrapf "failed to create comment" e), w')
  end.
Proof.
  unfold service.CreateComment, bind, or_else, request_comment.
  by destruct (repository.Create _ w) as [[id|e] w'].
Qed.

(** C1. When a comment is created, the row stored for it carries the path
    of its parent followed by the generated path id and the separator; with
    no parent id the path is the path id followed by the separator.  The
    parent is the row found under the given parent id, the new row is the
    only change to the table, and it takes the next value of the sequence
    as its id. *)
Theorem created_path_extends_parent_path (pathID : string) (now : Z)
    (cr : CommentRequest) (w w' : World) :
  service.CreateComment pathID now cr w = (Ok tt, w') ->
  exists u parentPath,
    Pg.uuid_in pathID = Some u /\
    match ReqParentID cr with
    | None => parentPath = ""
    | Some pid =>
        exists parent, Pg.select_by_id (db w) pid = Some parent /\
                       parentPath = Pg.r_path parent
    end /\
    repository.newPath parentPath pathID = parentPath +:+ pathID +:+ "/" /\
    Pg.table (db w') =
      Pg.table (db w) ++
      [ {| Pg.r_id := Pg.serial (db w); Pg.r_parent_id := ReqParentID cr;
           Pg.r_path_id := u; Pg.r_path := repository.newPath parentPath pathID;
           Pg.r_comment := Comment_ cr; Pg.r_created_at := now |} ].
Proof.
  rewrite CreateComment_run, Create_run.
  set (c := request_comment pathID now cr).
  assert (Hexec : forall pp w0 w1,
    match create_exec c pp w0 with
    | (Ok _, w2) => (Ok tt, w2)
    | (Err e, w2) => (Err (Wrapf "failed to create comment" e), w2)
    end = (Ok tt, w1) ->
    exists u, Pg.uuid_in pathID = Some u /\
      Pg.table (db w1) = Pg.table (db w0) ++
        [new_row (db w0) (ReqParentID cr) u (repository.newPath pp pathID)
           (Comment_ cr) now]).
  { intros pp w0 w1 H.
    destruct (insertable (Pg.table (db w0)) (ParentID c) (PathID c)) eqn:Hi.
    - destruct (create_exec_ok c pp w0 Hi) as (u & Hu & E). rewrite E in H.
      injection H as <-. exists u. split; [exact Hu|reflexivity].
    - destruct (create_exec_err c pp w0 Hi) as (e & w2 & E & _). rewrite E in H.
      discriminate. }
  cbn [ParentID c request_comment]. destruct (ReqParentID cr) as [pid|] eqn:EP.
  - destruct (Pg.select_by_id (db w) pid) as [parent|] eqn:Es; [|discriminate].
    intros H. apply Hexec in H as (u & Hu & Ht).
    exists u, (Pg.r_path parent). split; [exact Hu|].
    split; [by exists parent|]. split; [reflexivity|]. exact Ht.
  - intros H. apply Hexec in H as (u & Hu & Ht).
    exists u, "". split; [exact Hu|]. split; [reflexivity|]. split; [reflexivity|].
    exact Ht.
Qed.

Lemma create_under_missing_parent_fails pathID now cr pid w :
  ReqParentID cr = Some pid ->
  Forall (fun r => Pg.r_id r <> pid) (Pg.table (db w)) ->
  service.CreateComment pathID now cr w
  = (Err (Wrapf "failed to create comment" (parent_missing pid)),
     with_sent w [path_stmt pid]).
Proof.
  intros HP Hnone.
  rewrite CreateComment_run, Create_run. cbn [ParentID request_comment].
  rewrite HP, (select_by_id_none _ _ Hnone). reflexivity.
Qed.

(** C5. When the parent id of a create request is the id of no row, the
    creation fails with the error saying that the parent comment was not
    found; the only statement sent is the lookup of the parent's path, so no
    INSERT is executed and the table is as it was. *)
Theorem create_under_missing_parent_writes_nothing (pathID : string) (now : Z)
    (cr : CommentRequest) (pid : Z) (w : World) :
  ReqParentID cr = Some pid ->
  Forall (fun r => Pg.r_id r <> pid) (Pg.table (db w)) ->
  service.CreateComment pathID now cr w
  = (Err (Wrapf "failed to create comment" (parent_missing pid)),
     with_sent w [path_stmt pid]) /\
  db (service.CreateComment pathID now cr w).2 = db w /\
  Forall (fun s => sql s <> repository.createQuery)
    (skipn (List.length (sent w)) (sent (service.CreateComment pathID now cr w).2)).
Proof.
  intros HP Hnone.
  rewrite (create_under_missing_parent_fails pathID now cr pid w HP Hnone).
  split; [reflexivity|]. split; [reflexivity|].
  cbn [snd sent with_sent]. rewrite drop_app_length.
  constructor; [|constructor]. by compute.
Qed.

(** The example of the specification, on the path encoder alone. *)
Example newPath_chain :
  repository.newPath "" "A" = "A/" /\
  repository.newPath "A/" "B" = "A/B/" /\
  repository.newPath "A/B/" "C" = "A/B/C/".
Proof. repeat split. Qed.

(** The same chain through the service and the table. *)
Example created_chain :
  List.map (fun r => (Pg.r_id r, Pg.r_parent_id r, Pg.r_path r))
    (Pg.table (db Scenario.world3))
  = [ (1, None, Scenario.uuidA +:+ "/");
      (2, Some 1, Scenario.uuidA +:+ "/" +:+ Scenario.uuidB +:+ "/");
      (3, Some 2, Scenario.uuidA +:+ "/" +:+ Scenario.uuidB +:+ "/"
                  +:+ Scenario.uuidC +:+ "/") ].
Proof. vm_compute. reflexivity. Qed.

Lemma created_path_witness :
  service.CreateComment Scenario.uuidC 300
    (Scenario.request "reply to reply" (Some 2)) Scenario.world2
  = (Ok tt, Scenario.world3) /\
  exists u parentPath,
    Pg.uuid_in Scenario.uuidC = Some u /\
    (exists parent, Pg.select_by_id (db Scenario.world2) 2 = Some parent /\
                    parentPath = Pg.r_path parent) /\
    repository.newPath parentPath Scenario.uuidC
      = parentPath +:+ Scenario.uuidC +:+ "/" /\
    Pg.table (db Scenario.world3) =
      Pg.table (db Scenario.world2) ++
      [ {| Pg.r_id := Pg.serial (db Scenario.world2); Pg.r_parent_id := Some 2;
           Pg.r_path_id := u;
           Pg.r_path := repository.newPath parentPath Scenario.uuidC;
           Pg.r_comment := "reply to reply"; Pg.r_created_at := 300 |} ].
Proof.
  assert (H : service.CreateComment Scenario.uuidC 300
                (Scenario.request "reply to reply" (Some 2)) Scenario.world2
              = (Ok tt, Scenario.world3)) by (vm_compute; reflexivity).
  split; [exact H|].
  exact (created_path_extends_parent_path Scenario.uuidC 300
           (Scenario.request "reply to reply" (Some 2))
           Scenario.world2 Scenario.world3 H).
Defined.

Lemma missing_parent_witness :
  ReqParentID (Scenario.request "lost" (Some 42)) = Some 42 /\
  Forall (fun r => Pg.r_id r <> 42) (Pg.table (db Scenario.world3)) /\
  service.CreateComment Scenario.uuidA 400 (Scenario.request "lost" (Some 42))
    Scenario.world3
  = (Err (Wrapf "failed to create comment" (parent_missing 42)),
     with_sent Scenario.world3 [path_stmt 42]).
Proof.
  assert (H : Forall (fun r => Pg.r_id r <> 42) (Pg.table (db Scenario.world3)))
    by (vm_compute; repeat constructor; discriminate).
  split; [reflexivity|]. split; [exact H|].
  exact (proj1 (create_under_missing_parent_writes_nothing Scenario.uuidA 400
                  (Scenario.request "lost" (Some 42)) 42 Scenario.world3 eq_refl H)).
Defined.

End Creation.

(** ** Tree assembly *)

Section Assembly.
Import models.

Definition reset (c : Comment) : Comment := set_Children c (Some []).

Lemma set_Children_twice c a b : set_Children (set_Children c a) b = set_Children c b.
Proof. reflexivity. Qed.

Lemma set_Children_same c : set_Children c (Children c) = c.
Proof. by destruct c. Qed.

Lemma build_map_step h l p :
  service.build_map h (l ++ [p]) = service.index_step (service.build_map h l) p.
Proof. unfold service.build_map. by rewrite fold_left_app. Qed.

(** The heap after the first loop: the structs listed have empty children,
    the others are untouched. *)
Lemma build_map_heap h l q :
  (service.build_map h l).1 !! q
  = if decide (q ∈ l) then reset <$> h !! q else h !! q.
Proof.
  revert q. induction l as [|p l IH] using rev_ind; intros q.
  - destruct (decide (q ∈ [])) as [H%elem_of_nil|]; done.
  - rewrite build_map_step. unfold service.index_step.
    destruct (service.build_map h l) as [h1 m] eqn:E. cbn [fst snd] in *.
    destruct (h1 !! p) as [c|] eqn:Ep; cbn [fst].
    + destruct (decide (q = p)) as [->|Hne].
      * rewrite list_lookup_insert_eq by (by eapply lookup_lt_Some).
        rewrite decide_True by set_solver.
        rewrite IH in Ep. case_decide.
        -- rewrite Ep. apply fmap_Some in Ep as (c0 & _ & ->). done.
        -- rewrite Ep. done.
      * rewrite list_lookup_insert_ne by done. rewrite IH.
        destruct (decide (q ∈ l)), (decide (q ∈ l ++ [p])); set_solver.
    + rewrite IH. destruct (decide (q = p)) as [->|Hne].
      * rewrite IH in Ep. rewrite (decide_True (P := p ∈ l ++ [p])) by set_solver.
        case_decide; [apply fmap_None in Ep|]; by rewrite Ep.
      * destruct (decide (q ∈ l)), (decide (q ∈ l ++ [p])); set_solver.
Qed.

Lemma build_map_length h l : List.length (service.build_map h l).1 = List.length h.
Proof.
  induction l as [|p l IH] using rev_ind; [done|].
  rewrite build_map_step. unfold service.index_step.
  destruct ((service.build_map h l).1 !! p); cbn [fst]; [|done].
  by rewrite length_insert.
Qed.

(** The id of the struct at an address; the loops never change it. *)
Definition id_at (h : list Comment) (p : ptr) : option Z := ID <$> h !! p.
Definition parent_at (h : list Comment) (p : ptr) : option Z :=
  match h !! p with Some c => ParentID c | None => None end.

Lemma build_map_id_at h l p : id_at (service.build_map h l).1 p = id_at h p.
Proof.
  unfold id_at. rewrite build_map_heap. case_decide; [|done].
  by destruct (h !! p).
Qed.

(** The map after the first loop sends an id to an address of the list
    whose struct has that id. *)
Lemma build_map_lookup h l i q :
  (service.build_map h l).2 !! i = Some q -> q ∈ l /\ id_at h q = Some i.
Proof.
  revert q. induction l as [|p l IH] using rev_ind; intros q.
  - unfold service.build_map. cbn [fold_left snd]. by rewrite lookup_empty.
  - rewrite build_map_step. unfold service.index_step.
    destruct ((service.build_map h l).1 !! p) as [c|] eqn:Ep; cbn [snd].
    + assert (Hc : id_at h p = Some (ID c)).
      { rewrite <- (build_map_id_at h l). unfold id_at. by rewrite Ep. }
      destruct (decide (ID c = i)) as [<-|Hne].
      * rewrite lookup_insert_eq. intros [= <-]. split; [set_solver|done].
      * rewrite lookup_insert_ne by done. intros H%IH. set_solver.
    + intros H%IH. set_solver.
Qed.

Lemma build_map_is_Some h l p c :
  p ∈ l -> h !! p = Some c -> is_Some ((service.build_map h l).2 !! ID c).
Proof.
  induction l as [|p' l IH] using rev_ind; [by intros ?%elem_of_nil|].
  intros Hin Hp. rewrite build_map_step. unfold service.index_step.
  destruct ((service.build_map h l).1 !! p') as [c'|] eqn:Ep; cbn [snd].
  - destruct (decide (ID c' = ID c)) as [->|Hne].
    + rewrite lookup_insert_eq. eauto.
    + rewrite lookup_insert_ne by done. apply IH; [|done].
      apply elem_of_app in Hin as [?|Hin]; [done|].
      apply list_elem_of_singleton in Hin as ->.
      assert (Hc : id_at h p' = Some (ID c')).
      { rewrite <- (build_map_id_at h l). unfold id_at. by rewrite Ep. }
      unfold id_at in Hc. rewrite Hp in Hc. simplify_eq/=.
  - apply elem_of_app in Hin as [?|Hin]; [by apply IH|].
    apply list_elem_of_singleton in Hin as ->.
    assert (Hc : id_at (service.build_map h l).1 p' = None)
      by (unfold id_at; by rewrite Ep).
    rewrite build_map_id_at in Hc. unfold id_at in Hc. by rewrite Hp in Hc.
Qed.

(** Ids are a key of the list: two addresses of the list with the same id
    are the same address. *)
Definition ids_unique (h : list Comment) (l : list ptr) : Prop :=
  forall p q, p ∈ l -> q ∈ l -> is_Some (id_at h p) -> id_at h p = id_at h q -> p = q.

Lemma build_map_unique h l p c :
  ids_unique h l -> p ∈ l -> h !! p = Some c ->
  (service.build_map h l).2 !! ID c = Some p.
Proof.
  intros Hu Hin Hp.
  destruct (build_map_is_Some h l p c Hin Hp) as [q Hq].
  rewrite Hq. f_equal.
  apply build_map_lookup in Hq as [Hq1 Hq2].
  symmetry. apply Hu; [done|done| |].
  - unfold id_at. rewrite Hp. eauto.
  - unfold id_at in *. by rewrite Hp.
Qed.

(** The address that the second loop finds for the parent of [p]. *)
Definition parent_ptr (m : gmap Z ptr) (h : list Comment) (p : ptr) : option ptr :=
  match parent_at h p with
  | Some pid => m !! pid
  | None => None
  end.

Definition add_child (p : ptr) (pc : Comment) : Comment :=
  set_Children pc (append (Children pc) p).

Lemma link_step_alt m h p :
  service.link_step m h p
  = match parent_ptr m h p with
    | Some q => alter (add_child p) q h
    | None => h
    end.
Proof.
  unfold service.link_step, parent_ptr, parent_at.
  destruct (h !! p) as [c|]; [|done]. by destruct (ParentID c).
Qed.

Lemma parent_at_alter f h q p :
  (forall c, ParentID (f c) = ParentID c) ->
  parent_at (alter f q h) p = parent_at h p.
Proof.
  intros Hf. unfold parent_at. destruct (decide (q = p)) as [->|Hne].
  - rewrite list_lookup_alter_eq. destruct (h !! p); simpl; [apply Hf|done].
  - by rewrite list_lookup_alter_ne.
Qed.

Lemma parent_ptr_link_step m h p p' :
  parent_ptr m (service.link_step m h p) p' = parent_ptr m h p'.
Proof.
  assert (H : parent_at (service.link_step m h p) p' = parent_at h p').
  { rewrite link_step_alt. destruct (parent_ptr m h p); [|done].
    by rewrite parent_at_alter. }
  unfold parent_ptr. by rewrite H.
Qed.

(** The addresses appended to the children of [q] by the second loop, in
    the order of the list. *)
Definition children_in (m : gmap Z ptr) (h : list Comment) (l : list ptr) (q : ptr) : list ptr :=
  filter (fun p => parent_ptr m h p = Some q) l.

Definition adopt (ps : list ptr) (c : Comment) : Comment :=
  set_Children c (appended (Children c) ps).

Lemma link_all_heap m l : forall h q,
  service.link_all m h l !! q = adopt (children_in m h l q) <$> h !! q.
Proof.
  induction l as [|p l IH]; intros h q.
  - unfold adopt, children_in. cbn. destruct (h !! q) as [c|]; [|done].
    cbn. by rewrite set_Children_same.
  - unfold service.link_all in *. cbn [fold_left]. rewrite IH.
    assert (Hf : children_in m (service.link_step m h p) l q = children_in m h l q).
    { unfold children_in. apply list_filter_iff. intros x.
      by rewrite parent_ptr_link_step. }
    rewrite Hf. unfold children_in at 2. rewrite filter_cons.
    rewrite link_step_alt.
    destruct (parent_ptr m h p) as [q'|] eqn:Ep.
    + destruct (decide (q' = q)) as [->|Hne].
      * rewrite decide_True by done. rewrite list_lookup_alter_eq.
        destruct (h !! q) as [c|]; [|done]. reflexivity.
      * rewrite decide_False by congruence. by rewrite list_lookup_alter_ne.
    + rewrite decide_False by congruence. done.
Qed.

Lemma appended_Some (l0 ps : list ptr) : appended (Some l0) ps = Some (l0 ++ ps).
Proof.
  destruct ps as [|p ps]; [simpl; by rewrite app_nil_r|].
  by rewrite appended_some.
Qed.

Lemma filter_none {A} (P : A -> Prop) `{forall x, Decision (P x)} (l : list A) :
  Forall (fun x => ~ P x) l -> filter P l = [].
Proof.
  induction 1 as [|x l Hx _ IH]; [done|].
  rewrite filter_cons, decide_False by done. exact IH.
Qed.

Lemma children_in_outside h l h' q :
  q ∉ l -> children_in (service.build_map h l).2 h' l q = [].
Proof.
  intros Hq. apply filter_none, Forall_forall. intros p _ Hp.
  unfold parent_ptr in Hp. destruct (parent_at h' p) as [pid|]; [|done].
  apply build_map_lookup in Hp as [Hin _]. done.
Qed.

(** The heap after both loops. *)
Definition assembled (h : list Comment) (all : list ptr) : list Comment :=
  service.link_all (service.build_map h all).2 (service.build_map h all).1 all.

Definition linked (h : list Comment) (all : list ptr) (q : ptr) : list ptr :=
  children_in (service.build_map h all).2 (service.build_map h all).1 all q.

Lemma assembled_lookup h all q :
  assembled h all !! q
  = if decide (q ∈ all)
    then (fun c => set_Children c (Some (linked h all q))) <$> h !! q
    else h !! q.
Proof.
  unfold assembled. rewrite link_all_heap, build_map_heap. fold (linked h all q).
  case_decide as Hq.
  - destruct (h !! q) as [c|]; [|done]. cbn. unfold adopt, reset. cbn.
    by rewrite appended_Some.
  - unfold linked. rewrite children_in_outside by done.
    destruct (h !! q) as [c|]; [|done]. cbn. unfold adopt. cbn.
    by rewrite set_Children_same.
Qed.

Lemma assemble_small id root all h :
  (List.length (default [] all) <= 1)%nat ->
  service.assemble id root all h
  = (root, alter (fun r => set_Children r (Some [])) root h).
Proof.
  intros H. unfold service.assemble. cbv zeta.
  by rewrite (proj2 (Nat.leb_le _ _) H).
Qed.

Lemma assemble_large id root all h :
  (2 <= List.length all)%nat ->
  service.assemble id root (Some all) h
  = (default root ((service.build_map h all).2 !! id), assembled h all).
Proof.
  intros H. unfold service.assemble, assembled. cbv zeta.
  change (default [] (Some all)) with all.
  assert (E : (List.length all <=? 1)%nat = false) by (apply Nat.leb_gt; lia).
  rewrite E. destruct (service.build_map h all) as [h1 m]. cbn [fst snd].
  by destruct (m !! id).
Qed.

(** When the requested id is the id of no struct of a flat set of two or
    more, the struct first fetched is returned as it is: the loops do not
    touch it, so its children stay as [GetByID] left them. *)
Lemma assemble_fallback id root all h :
  (2 <= List.length all)%nat ->
  Forall (fun p => id_at h p <> Some id) all ->
  root ∉ all ->
  (service.assemble id root (Some all) h).1 = root /\
  (service.assemble id root (Some all) h).2 !! root = h !! root.
Proof.
  intros Hlen Hid Hroot. rewrite assemble_large by done. cbn [fst snd].
  destruct ((service.build_map h all).2 !! id) as [q|] eqn:E.
  - apply build_map_lookup in E as [Hin Hq].
    rewrite Forall_forall in Hid. by destruct (Hid q Hin).
  - split; [done|]. rewrite assembled_lookup. by rewrite decide_False.
Qed.

(** *** The tree behind an address *)

(** A struct without its children. *)
Definition strip (c : Comment) : Comment := set_Children c None.

Inductive Tree : Type :=
| Node (c : Comment) (kids : list Tree).

(** The value reached from [p] by following the children, as the JSON
    encoder walks it; [None] when [fuel] levels are not enough. *)
Fixpoint tree_of (fuel : nat) (h : list Comment) (p : ptr) : option Tree :=
  match fuel with
  | O => None
  | S fuel' =>
      match h !! p with
      | Some c =>
          match mapM (tree_of fuel' h) (default [] (Children c)) with
          | Some kids => Some (Node (strip c) kids)
          | None => None
          end
      | None => None
      end
  end.

(** Same comments, same parent and child relation, siblings in any order. *)
Inductive tree_iso : Tree -> Tree -> Prop :=
| tree_iso_node c kids1 kids2 kids2' :
    Forall2 tree_iso kids1 kids2' -> Permutation kids2' kids2 ->
    tree_iso (Node c kids1) (Node c kids2).

(** Two heaps with the same structs and, at each address, the same children
    up to their order. *)
Definition same_links (h h' : list Comment) : Prop :=
  forall p, option_Forall2
    (fun c c' => strip c = strip c' /\
                 Permutation (default [] (Children c)) (default [] (Children c')))
    (h !! p) (h' !! p).

Lemma mapM_related {A B} (R : B -> B -> Prop) (f g : A -> option B) l :
  (forall x, option_Forall2 R (f x) (g x)) ->
  option_Forall2 (Forall2 R) (mapM f l) (mapM g l).
Proof.
  intros H. induction l as [|x l IH]; [repeat constructor|].
  cbn. destruct (H x) as [a b Hab|]; cbn; [|constructor].
  destruct IH as [la lb Hl|]; cbn; constructor. by constructor.
Qed.

Lemma mapM_Permutation {A B} (g : A -> option B) l l' :
  Permutation l l' -> option_Forall2 Permutation (mapM g l) (mapM g l').
Proof.
  induction 1 as [|x l l' _ IH|x y l|l l' l'' _ IH1 _ IH2].
  - repeat constructor.
  - cbn. destruct (g x); cbn; [|constructor].
    destruct IH; cbn; constructor. by constructor.
  - cbn. destruct (g x), (g y); cbn; try constructor;
      destruct (mapM g l); cbn; constructor. apply perm_swap.
  - destruct IH1 as [a b Hab|]; [|done].
    inversion IH2 as [b' c Hbc|]; subst. constructor. by etrans.
Qed.

Lemma tree_of_iso h h' :
  same_links h h' ->
  forall fuel p, option_Forall2 tree_iso (tree_of fuel h p) (tree_of fuel h' p).
Proof.
  intros Hs fuel. induction fuel as [|fuel IH]; intros p; [constructor|].
  cbn [tree_of]. destruct (Hs p) as [c c' [Hc Hp]|]; [|constructor].
  pose proof (mapM_related tree_iso _ _ (default [] (Children c)) IH) as H1.
  pose proof (mapM_Permutation (tree_of fuel h') _ _ Hp) as H2.
  revert H1 H2.
  destruct (mapM (tree_of fuel h) (default [] (Children c))) as [k1|];
    destruct (mapM (tree_of fuel h') (default [] (Children c))) as [k2|];
    destruct (mapM (tree_of fuel h') (default [] (Children c'))) as [k3|];
    intros H1 H2; inversion H1; inversion H2; subst; constructor.
  rewrite Hc. by econstructor.
Qed.

Lemma same_links_refl h : same_links h h.
Proof. intros p. destruct (h !! p); by constructor. Qed.

Lemma ids_unique_Permutation h l l' :
  Permutation l l' -> ids_unique h l -> ids_unique h l'.
Proof.
  intros Hp Hu p q Hin1 Hin2. apply Hu; by rewrite Hp.
Qed.

Lemma build_map_heap_Permutation h l l' :
  Permutation l l' -> (service.build_map h l).1 = (service.build_map h l').1.
Proof.
  intros Hp. apply list_eq. intros q. rewrite !build_map_heap.
  destruct (decide (q ∈ l)) as [Hq|Hq], (decide (q ∈ l')) as [Hq'|Hq']; try done.
  - by rewrite Hp in Hq.
  - by rewrite <- Hp in Hq'.
Qed.

Lemma build_map_sub h l l' i q :
  ids_unique h l' -> (forall p, p ∈ l -> p ∈ l') ->
  (service.build_map h l).2 !! i = Some q -> (service.build_map h l').2 !! i = Some q.
Proof.
  intros Hu Hsub [Hin Hid]%build_map_lookup.
  unfold id_at in Hid. destruct (h !! q) as [c|] eqn:Eq; [|done].
  injection Hid as <-. apply build_map_unique; auto.
Qed.

Lemma build_map_map_Permutation h l l' :
  ids_unique h l -> Permutation l l' ->
  (service.build_map h l).2 = (service.build_map h l').2.
Proof.
  intros Hu Hp. pose proof (ids_unique_Permutation _ _ _ Hp Hu) as Hu'.
  apply map_eq. intros i.
  destruct ((service.build_map h l).2 !! i) as [q|] eqn:E.
  - symmetry. eapply build_map_sub; [done| |exact E]. intros p. by rewrite Hp.
  - destruct ((service.build_map h l').2 !! i) as [q|] eqn:E'; [|done].
    eapply build_map_sub in E'; [|exact Hu|intros p; by rewrite Hp].
    congruence.
Qed.

Lemma assembled_Permutation h l l' :
  ids_unique h l -> Permutation l l' -> same_links (assembled h l) (assembled h l').
Proof.
  intros Hu Hp q. rewrite !assembled_lookup.
  destruct (decide (q ∈ l)) as [Hq|Hq], (decide (q ∈ l')) as [Hq'|Hq'].
  - destruct (h !! q) as [c|]; cbn; constructor. split; [done|]. cbn.
    unfold linked, children_in.
    rewrite <- (build_map_map_Permutation h l l' Hu Hp).
    rewrite <- (build_map_heap_Permutation h l l' Hp).
    by apply filter_Permutation.
  - by rewrite Hp in Hq.
  - by rewrite <- Hp in Hq'.
  - apply same_links_refl.
Qed.

(** C7. Assembling the same flat set of records, given in two different
    orders, returns the same root and links every record to the same
    children: at every address the two heaps hold the same record with the
    same children up to their order, so the trees that hang from the root
    are isomorphic, siblings possibly in a different order.  The ids of
    the records of the set are pairwise distinct. *)
Theorem assembly_is_order_independent (id : Z) (root : ptr) (all all' : list ptr)
    (h : list Comment) :
  ids_unique h all ->
  Permutation all all' ->
  (service.assemble id root (Some all) h).1 = (service.assemble id root (Some all') h).1 /\
  same_links (service.assemble id root (Some all) h).2
             (service.assemble id root (Some all') h).2 /\
  forall fuel,
    option_Forall2 tree_iso
      (tree_of fuel (service.assemble id root (Some all) h).2
                    (service.assemble id root (Some all) h).1)
      (tree_of fuel (service.assemble id root (Some all') h).2
                    (service.assemble id root (Some all') h).1).
Proof.
  intros Hu Hp.
  assert (H : (service.assemble id root (Some all) h).1
              = (service.assemble id root (Some all') h).1 /\
              same_links (service.assemble id root (Some all) h).2
                         (service.assemble id root (Some all') h).2).
  { destruct (le_lt_dec (List.length all) 1) as [Hs|Hl].
    - assert (all' = all) as ->.
      { destruct all as [|a [|b all]]; cbn in Hs; try lia.
        + by apply Permutation_nil.
        + by apply Permutation_singleton_l in Hp. }
      split; [done|apply same_links_refl].
    - rewrite !assemble_large by (rewrite <- ?Hp; lia). cbn [fst snd].
      rewrite (build_map_map_Permutation h all all' Hu Hp).
      split; [done|]. by apply assembled_Permutation. }
  destruct H as [H1 H2]. split; [done|]. split; [done|].
  intros fuel. rewrite H1. by apply tree_of_iso.
Qed.

Lemma build_map_parent_at h l p : parent_at (service.build_map h l).1 p = parent_at h p.
Proof.
  unfold parent_at. rewrite build_map_heap. case_decide; [|done].
  by destruct (h !! p).
Qed.

Lemma filter_length_lt {A} (P Q : A -> Prop) `{forall x, Decision (P x)}
    `{forall x, Decision (Q x)} (l : list A) x :
  (forall y, P y -> Q y) -> x ∈ l -> Q x -> ~ P x ->
  (List.length (filter P l) < List.length (filter Q l))%nat.
Proof.
  intros HPQ Hin HQ HP. induction l as [|y l IH]; [by apply elem_of_nil in Hin|].
  rewrite !filter_cons. apply elem_of_cons in Hin as [<-|Hin].
  - rewrite decide_False, decide_True by done. cbn.
    assert (List.length (filter P l) <= List.length (filter Q l))%nat; [|lia].
    clear IH. induction l as [|z l IH]; [done|]. rewrite !filter_cons.
    destruct (decide (P z)) as [Hz|Hz].
    + rewrite decide_True by auto. cbn. lia.
    + destruct (decide (Q z)); cbn; lia.
  - specialize (IH Hin). destruct (decide (P y)) as [Hy|Hy].
    + rewrite decide_True by auto. cbn. lia.
    + destruct (decide (Q y)); cbn; lia.
Qed.

(** The records of the list whose id is greater than [i]. *)
Definition younger (h : list Comment) (i : Z) (p : ptr) : Prop :=
  match id_at h p with Some j => i < j | None => False end.

#[local] Instance younger_dec h i p : Decision (younger h i p).
Proof. unfold younger. destruct (id_at h p); apply _. Defined.

(** When every record of the flat set is allocated, ids are a key of it and
    every parent id is smaller than the id of the child, the tree below
    any record of the set is finite: as many levels as there are records,
    and one more, are enough to unfold it. *)
Lemma tree_of_defined h all :
  ids_unique h all ->
  Forall (fun p => is_Some (h !! p)) all ->
  (forall p i pid, p ∈ all -> id_at h p = Some i -> parent_at h p = Some pid -> pid < i) ->
  forall q, q ∈ all -> is_Some (tree_of (S (List.length all)) (assembled h all) q).
Proof.
  intros Hu Hv Hlt.
  assert (Hn : forall n q i, q ∈ all -> id_at h q = Some i ->
            (List.length (filter (younger h i) all) < n)%nat ->
            is_Some (tree_of n (assembled h all) q)).
  { induction n as [|n IH]; intros q i Hq Hi Hn; [lia|].
    cbn [tree_of]. rewrite assembled_lookup, decide_True by done.
    unfold id_at in Hi. destruct (h !! q) as [c|] eqn:Ec; [|done].
    injection Hi as Hi. cbn.
    assert (Hk : is_Some (mapM (tree_of n (assembled h all)) (linked h all q))).
    { apply mapM_is_Some, Forall_forall. intros x Hx.
      unfold linked, children_in in Hx. apply list_elem_of_filter in Hx as [Hx Hxin].
      unfold parent_ptr in Hx. rewrite build_map_parent_at in Hx.
      destruct (parent_at h x) as [pid|] eqn:Epx; [|done].
      apply build_map_lookup in Hx as [_ Hqid].
      unfold id_at in Hqid. rewrite Ec in Hqid. injection Hqid as Hqid.
      rewrite Forall_forall in Hv. destruct (Hv x Hxin) as [cx Ecx].
      assert (Hxi : id_at h x = Some (ID cx)) by (unfold id_at; by rewrite Ecx).
      pose proof (Hlt x (ID cx) pid Hxin Hxi Epx) as Hlt'.
      apply (IH x (ID cx) Hxin Hxi).
      assert (List.length (filter (younger h (ID cx)) all)
              < List.length (filter (younger h i) all))%nat; [|lia].
      apply (filter_length_lt _ _ all x); [|done| |].
      - intros y. unfold younger. destruct (id_at h y); [lia|done].
      - unfold younger. rewrite Hxi. lia.
      - unfold younger. rewrite Hxi. lia. }
    destruct Hk as [ks ->]. eauto. }
  intros q Hq. rewrite Forall_forall in Hv. destruct (Hv q Hq) as [c Ec].
  apply (Hn _ q (ID c) Hq); [unfold id_at; by rewrite Ec|].
  pose proof (length_filter (younger h (ID c)) all). lia.
Qed.

Lemma ids_unique_of_NoDup h l :
  NoDup (id_at h <$> l) -> ids_unique h l.
Proof.
  induction l as [|a l IH]; intros Hnd p q Hp Hq Hs Heq.
  - by apply elem_of_nil in Hp.
  - rewrite fmap_cons in Hnd. apply NoDup_cons in Hnd as [Ha Hnd].
    apply elem_of_cons in Hp as [->|Hp]; apply elem_of_cons in Hq as [->|Hq]; try done.
    + destruct Ha. rewrite Heq. by apply list_elem_of_fmap_2.
    + destruct Ha. rewrite <- Heq. by apply list_elem_of_fmap_2.
    + by apply (IH Hnd).
Qed.

(** A flat set that misses the requested root: the struct at address 0 is
    the root as [GetByID] returns it, the structs at 1 and 2 are two other
    records. *)
Definition fallback_heap : list Comment :=
  [ {| ID := 1; ParentID := None; PathID := "a"; Path := "a/"; Comm := "one";
       CreatedAt := 1; Children := None |};
    {| ID := 2; ParentID := Some 1; PathID := "b"; Path := "a/b/"; Comm := "two";
       CreatedAt := 2; Children := None |};
    {| ID := 3; ParentID := Some 2; PathID := "c"; Path := "a/b/c/"; Comm := "three";
       CreatedAt := 3; Children := None |} ].

(** The last return of the assembly, taken alone.  Given a flat set of two
    records, neither of which has the requested id 1, it hands back the
    fetched root at address 0 with its children still [nil]; given a flat
    set of at most one record the same root comes back with an empty,
    non-nil slice.  [GetComments] never passes such a flat set: the set it
    reads always holds the root. *)
Lemma fallback_root_keeps_nil_children :
  (service.assemble 1 0%nat (Some [1%nat; 2%nat]) fallback_heap).1 = 0%nat /\
  Children <$> (service.assemble 1 0%nat (Some [1%nat; 2%nat]) fallback_heap).2 !! 0%nat
    = Some None /\
  Children <$> (service.assemble 1 0%nat (Some [1%nat]) fallback_heap).2 !! 0%nat
    = Some (Some []) /\
  Children <$> (service.assemble 1 0%nat None fallback_heap).2 !! 0%nat
    = Some (Some []).
Proof. vm_compute. repeat split. Qed.

(** The heap after [GetByID 1] and [GetChildrenByPath] on the three
    comments of the scenario: the root at address 0, then the flat set at
    addresses 1, 2 and 3. *)
Definition scenario_heap : list Comment :=
  repository.scan_comment <$>
    (firstn 1 (Pg.table (db Scenario.world3)) ++
     Pg.select_like_path (db Scenario.world3) (Scenario.uuidA +:+ "/%")).

Example scenario_tree :
  (fun t => match t with
            | Some (Node c [Node c1 [Node c2 []]]) => Some (ID c, ID c1, ID c2)
            | _ => None
            end)
    (tree_of 4 (service.assemble 1 0%nat (Some [1; 2; 3]%nat) scenario_heap).2
               (service.assemble 1 0%nat (Some [1; 2; 3]%nat) scenario_heap).1)
  = Some (1, 2, 3).
Proof. vm_compute. reflexivity. Qed.

Lemma assembly_order_witness :
  ids_unique scenario_heap [1; 2; 3]%nat /\
  Permutation [1; 2; 3]%nat [3; 1; 2]%nat /\
  (service.assemble 1 0%nat (Some [1; 2; 3]%nat) scenario_heap).1
  = (service.assemble 1 0%nat (Some [3; 1; 2]%nat) scenario_heap).1 /\
  same_links (service.assemble 1 0%nat (Some [1; 2; 3]%nat) scenario_heap).2
             (service.assemble 1 0%nat (Some [3; 1; 2]%nat) scenario_heap).2.
Proof.
  assert (Hu : ids_unique scenario_heap [1; 2; 3]%nat).
  { apply ids_unique_of_NoDup. apply (bool_decide_unpack _). vm_compute. exact I. }
  assert (Hp : Permutation [1; 2; 3]%nat [3; 1; 2]%nat).
  { change [3; 1; 2]%nat with ([3] ++ [1; 2])%nat.
    change [1; 2; 3]%nat with ([1; 2] ++ [3])%nat. apply Permutation_app_comm. }
  split; [exact Hu|]. split; [exact Hp|].
  pose proof (assembly_is_order_independent 1 0%nat [1; 2; 3]%nat [3; 1; 2]%nat
                scenario_heap Hu Hp) as H.
  split; [exact (proj1 H)|exact (proj1 (proj2 H))].
Defined.

End Assembly.

(** ** Validation in the create handler *)

Section Validation.
Import models.

Definition negative_parent_response : handlers.response :=
  {| handlers.status := handlers.StatusBadRequest;
     handlers.payload := handlers.ErrorBody "ParentID it can't be negative" |}.

Lemma create_exec_sent c parentPath w :
  exists new, sent (create_exec c parentPath w).2 = sent w ++ new.
Proof.
  destruct (insertable (Pg.table (db w)) (ParentID c) (PathID c)) eqn:Hi.
  - destruct (create_exec_ok c parentPath w Hi) as (u & _ & ->). cbn. eauto.
  - destruct (create_exec_err c parentPath w Hi) as (e & w' & -> & _ & _ & _ & Hs).
    exact Hs.
Qed.

(** After the handler has answered 400 for a negative parent id it goes on:
    the service is called and the path of the parent is looked up in the
    table. *)
Lemma negative_parent_reaches_storage cr pid pathID now w :
  Comment_ cr <> "" -> ReqParentID cr = Some pid -> pid < 0 ->
  (exists more, (handlers.CreateComment (Ok cr) pathID now w).1
                = negative_parent_response :: more) /\
  (exists rest, sent (handlers.CreateComment (Ok cr) pathID now w).2
                = sent w ++ path_stmt pid :: rest).
Proof.
  intros Hc Hp Hneg. unfold handlers.CreateComment.
  destruct (String.eqb_spec (Comment_ cr) "") as [|_]; [done|].
  rewrite Hp. rewrite (proj2 (Z.ltb_lt _ _) Hneg).
  rewrite CreateComment_run, Create_run. cbn [ParentID request_comment]. rewrite Hp.
  destruct (Pg.select_by_id (db w) pid) as [parent|].
  - destruct (create_exec_sent (request_comment pathID now cr) (Pg.r_path parent)
                (with_sent w [path_stmt pid])) as [new Hnew].
    destruct (create_exec _ _ _) as [[id|e] w']; cbn [fst snd] in *;
      (split; [eexists; reflexivity|]); exists new; rewrite Hnew; cbn;
      by rewrite <- app_assoc.
  - cbn. split; eexists; reflexivity.
Qed.

(** C4 (what the code does). A request with text "hi" and parent id -1:
    the handler writes the 400 response for the negative id and then a
    second one for the failed creation, and in between the statement that
    looks up the path of comment -1 has been sent to the database. *)
Theorem negative_parent_is_still_looked_up :
  handlers.CreateComment (Ok (Scenario.request "hi" (Some (-1)))) Scenario.uuidC 400
    Scenario.world2
  = ([ negative_parent_response;
       {| handlers.status := handlers.StatusBadRequest;
          handlers.payload := handlers.ErrorBody "Failed to create comment" |} ],
     with_sent Scenario.world2 [path_stmt (-1)]).
Proof. vm_compute. reflexivity. Qed.

End Validation.

(** ** Pattern matching *)

Section Patterns.

Definition is_meta (c : ascii) : bool :=
  Ascii.eqb c Pg.pct || Ascii.eqb c Pg.und || Ascii.eqb c Pg.bsl.

(** No [%], no [_] and no backslash. *)
Definition meta_free (s : list ascii) : bool := forallb (fun c => negb (is_meta c)) s.

Fixpoint prefix_fold (fold : ascii -> ascii) (q t : list ascii) : bool :=
  match q, t with
  | [], _ => true
  | _ :: _, [] => false
  | a :: q', b :: t' => Ascii.eqb (fold a) (fold b) && prefix_fold fold q' t'
  end.

(** [q] occurs somewhere in [t], bytes compared after folding. *)
Fixpoint infix_fold (fold : ascii -> ascii) (q t : list ascii) : bool :=
  prefix_fold fold q t
  || match t with
     | [] => false
     | _ :: t' => infix_fold fold q t'
     end.

Lemma like_percent fold t : Pg.like_match fold [Pg.pct] t = true.
Proof. induction t as [|a t IH]; [reflexivity|]. cbn in *. exact IH. Qed.

Lemma like_percent_cons fold p t :
  Pg.like_match fold (Pg.pct :: p) t
  = Pg.like_match fold p t
    || match t with
       | [] => false
       | _ :: t' => Pg.like_match fold (Pg.pct :: p) t'
       end.
Proof. destruct t; reflexivity. Qed.

Lemma like_plain_cons fold c p t :
  is_meta c = false ->
  Pg.like_match fold (c :: p) t
  = match t with
    | [] => false
    | d :: t' => Ascii.eqb (fold c) (fold d) && Pg.like_match fold p t'
    end.
Proof.
  unfold is_meta. intros H.
  apply orb_false_iff in H as [H Hb]. apply orb_false_iff in H as [Hp Hu].
  cbn [Pg.like_match]. by rewrite Hp, Hu, Hb.
Qed.

Lemma like_prefix fold q : forall t,
  meta_free q = true ->
  Pg.like_match fold (q ++ [Pg.pct]) t = prefix_fold fold q t.
Proof.
  induction q as [|c q IH]; intros t Hq.
  - cbn [app]. rewrite like_percent. by destruct t.
  - cbn [meta_free forallb] in Hq. apply andb_prop in Hq as [Hc Hq].
    apply negb_true_iff in Hc. cbn [app]. rewrite like_plain_cons by done.
    destruct t as [|d t]; [done|]. cbn [prefix_fold]. by rewrite IH.
Qed.


Lemma bytes_append s1 s2 :
  GoString.bytes (s1 +:+ s2) = GoString.bytes s1 ++ GoString.bytes s2.
Proof.
  unfold GoString.bytes. induction s1 as [|a s1 IH]; [done|].
  simpl. f_equal. exact IH.
Qed.

(** The text contains the query, ASCII letters compared without case. *)
Definition contains_fold (query text : string) : bool :=
  infix_fold GoString.lower_byte (GoString.bytes query) (GoString.bytes text).


Lemma prefix_fold_id p s :
  prefix_fold (fun c => c) (GoString.bytes p) (GoString.bytes s) = String.prefix p s.
Proof.
  revert s. induction p as [|a p IH]; intros s; [by destruct s|].
  destruct s as [|b s]; [done|]. cbn. rewrite IH.
  destruct (ascii_dec a b) as [->|Hne].
  - by rewrite Ascii.eqb_refl.
  - apply Ascii.eqb_neq in Hne. by rewrite Hne.
Qed.

Lemma LIKE_prefix path text :
  meta_free (GoString.bytes path) = true ->
  Pg.LIKE text (path +:+ "%") = GoString.has_prefix path text.
Proof.
  intros H. unfold Pg.LIKE, GoString.has_prefix. rewrite bytes_append.
  change (GoString.bytes "%") with [Pg.pct]. rewrite like_prefix by done.
  apply prefix_fold_id.
Qed.

End Patterns.

(** ** ORDER BY *)

Section Ordering.
Context {A : Type} (le : A -> A -> bool).
Hypothesis le_total : forall a b, le a b = true \/ le b a = true.
Hypothesis le_trans : forall a b c, le a b = true -> le b c = true -> le a c = true.

Lemma insert_by_Permutation x l : Permutation (Pg.insert_by le x l) (x :: l).
Proof.
  induction l as [|y l IH]; [done|]. cbn. destruct (le x y); [done|].
  rewrite IH. apply perm_swap.
Qed.

Lemma order_by_Permutation l : Permutation (Pg.order_by le l) l.
Proof.
  induction l as [|x l IH]; [done|]. unfold Pg.order_by in *. cbn.
  rewrite insert_by_Permutation. by constructor.
Qed.

Lemma insert_by_sorted x l :
  StronglySorted (fun a b => le a b = true) l ->
  StronglySorted (fun a b => le a b = true) (Pg.insert_by le x l).
Proof.
  induction 1 as [|y l Hs IH Hy]; [repeat constructor|].
  cbn. destruct (le x y) eqn:E.
  - constructor; [by constructor|]. constructor; [done|].
    eapply Forall_impl; [exact Hy|]. intros z Hz. by eapply le_trans.
  - constructor; [exact IH|].
    rewrite insert_by_Permutation. constructor; [|done].
    destruct (le_total x y); congruence.
Qed.

Lemma order_by_sorted l : StronglySorted (fun a b => le a b = true) (Pg.order_by le l).
Proof.
  induction l as [|x l IH]; [constructor|]. by apply insert_by_sorted.
Qed.

End Ordering.

Lemma StronglySorted_weaken {A} (R R' : A -> A -> Prop) l :
  (forall a b, R a b -> R' a b) -> StronglySorted R l -> StronglySorted R' l.
Proof.
  intros HR. induction 1 as [|x l _ IH Hx]; constructor; [exact IH|].
  eapply Forall_impl; [exact Hx|]. intros y. apply HR.
Qed.

Lemma StronglySorted_firstn {A} (R : A -> A -> Prop) n l :
  StronglySorted R l -> StronglySorted R (firstn n l).
Proof.
  intros H. revert n. induction H as [|x l Hs IH Hx]; intros [|n]; cbn; try constructor.
  - apply IH.
  - by apply Forall_take.
Qed.

(** ** Search *)

Section Search.
Import models.

Definition search_pattern (query : string) : string := "%" +:+ query +:+ "%".

Definition search_stmt (query : string) : stmt :=
  {| sql := repository.searchCommentsQuery; args := [AText (search_pattern query)] |}.

(** Newest first. *)
Definition newer_first (a b : Pg.Row) : bool := Pg.r_created_at b <=? Pg.r_created_at a.


Lemma SearchByText_run query w :
  repository.SearchByText query w
  = (Ok (appended None (seq (List.length (heap w))
                          (List.length (Pg.search_ilike (db w) (search_pattern query))))),
     {| db := db w; sent := sent w ++ [search_stmt query];
        heap := heap w ++
                List.map repository.scan_comment
                  (Pg.search_ilike (db w) (search_pattern query)) |}).
Proof.
  unfold repository.SearchByText. cbv zeta. unfold bind, or_else.
  erewrite Query_ok by reflexivity. by rewrite scan_rows_run.
Qed.

Lemma search_ilike_sorted d pattern :
  StronglySorted (fun a b => Pg.r_created_at b <= Pg.r_created_at a)
    (Pg.search_ilike d pattern).
Proof.
  unfold Pg.search_ilike. apply StronglySorted_firstn.
  eapply (StronglySorted_weaken (fun a b => newer_first a b = true)).
  - intros a b H. by apply Z.leb_le in H.
  - apply order_by_sorted; unfold newer_first; intros; rewrite ?Z.leb_le in *; lia.
Qed.



Lemma like_percents fold n t : Pg.like_match fold (repeat Pg.pct (S n)) t = true.
Proof.
  induction n as [|n IH]; [apply like_percent|].
  change (repeat Pg.pct (S (S n))) with (Pg.pct :: repeat Pg.pct (S n)).
  by rewrite like_percent_cons, IH.
Qed.

(** A query made of percent signs matches every text. *)
Lemma search_percent_matches_all text : Pg.ILIKE text (search_pattern "%%%") = true.
Proof. unfold Pg.ILIKE. exact (like_percents _ 4 _). Qed.

(** C10. [SearchByText] sends the pattern made of the query between two
    percent signs, the query unchanged, and gets back the first fifty, newest
    first, of the rows whose text matches that pattern under ILIKE.  A
    percent sign or an underscore of the query is a wildcard of the
    pattern: the query "%%%" matches every text, "a_c" matches "abc" and
    "a%c" matches "a12c", none of which contains its query; on the three
    comments of the scenario the query "R_P" finds both replies. *)
Theorem search_pattern_is_not_escaped (query : string) (w : World) :
  repository.SearchByText query w
  = (Ok (appended None (seq (List.length (heap w))
                          (List.length (Pg.search_ilike (db w) ("%" +:+ query +:+ "%"))))),
     {| db := db w;
        sent := sent w ++ [ {| sql := repository.searchCommentsQuery;
                               args := [AText ("%" +:+ query +:+ "%")] |} ];
        heap := heap w ++
                List.map repository.scan_comment
                  (Pg.search_ilike (db w) ("%" +:+ query +:+ "%")) |}) /\
  Pg.search_ilike (db w) ("%" +:+ query +:+ "%")
  = firstn 50 (Pg.order_by newer_first
                 (List.filter (fun r => Pg.ILIKE (Pg.r_comment r) ("%" +:+ query +:+ "%"))
                    (Pg.table (db w)))) /\
  (forall text, Pg.ILIKE text ("%" +:+ "%%%" +:+ "%") = true) /\
  contains_fold "%%%" "abc" = false /\
  Pg.ILIKE "abc" ("%" +:+ "a_c" +:+ "%") = true /\
  contains_fold "a_c" "abc" = false /\
  Pg.ILIKE "a12c" ("%" +:+ "a%c" +:+ "%") = true /\
  contains_fold "a%c" "a12c" = false /\
  List.map Pg.r_comment (Pg.search_ilike (db Scenario.world3) ("%" +:+ "R_P" +:+ "%"))
  = ["reply to reply"; "reply"] /\
  List.filter (fun r => contains_fold "R_P" (Pg.r_comment r)) (Pg.table (db Scenario.world3))
  = [].
Proof.
  split; [apply SearchByText_run|]. split; [reflexivity|].
  split; [exact search_percent_matches_all|].
  repeat split; vm_compute; reflexivity.
Qed.

(** *** The guard of [SearchComments] *)










(** Text made of ASCII bytes other than NUL.  On such text a byte is a
    character, every encoding of the database accepts it, and folding the
    case of ASCII letters is what ILIKE does.  PostgreSQL rejects a NUL
    byte in a text value and folds the case of other letters by its
    locale; the properties of the search and of the texts stored are
    stated for plain text. *)
Definition plain_text (s : string) : bool :=
  forallb (fun c => (1 <=? nat_of_ascii c)%nat && (nat_of_ascii c <=? 127)%nat)
    (GoString.bytes s).


Lemma scenario_texts_plain :
  Forall (fun r => plain_text (Pg.r_comment r) = true) (Pg.table (db Scenario.world3)).
Proof. apply Forall_forall. intros r Hr%list_elem_of_In. vm_compute in Hr.
  destruct Hr as [<-|[<-|[<-|[]]]]; reflexivity.
Qed.


End Search.

(** ** Reading a tree *)

Section Reading.
Import models.

Definition by_id_stmt (id : Z) : stmt :=
  {| sql := repository.getCommentByIDQuery; args := [AInt id] |}.

Definition children_stmt (path : string) : stmt :=
  {| sql := repository.getChildrenByPathQuery; args := [AText (path +:+ "%")] |}.

Definition delete_stmt (path : string) : stmt :=
  {| sql := repository.deleteCommentQuery; args := [AText (path +:+ "%")] |}.

Definition not_found : error := Wrapf "failed to get comment by ID" ErrNoRows.

Lemma GetByID_run id w :
  repository.GetByID id w =
  match Pg.select_by_id (db w) id with
  | Some r =>
      (Ok (List.length (heap w)),
       {| db := db w; sent := sent w ++ [by_id_stmt id];
          heap := heap w ++ [repository.scan_comment r] |})
  | None => (Err not_found, with_sent w [by_id_stmt id])
  end.
Proof.
  unfold repository.GetByID, bind, or_else. rewrite QueryRow_run.
  destruct (Pg.select_by_id (db w) id); reflexivity.
Qed.

Lemma GetChildrenByPath_run path w :
  repository.GetChildrenByPath path w =
  (Ok (appended None (seq (List.length (heap w))
                        (List.length (Pg.select_like_path (db w) (path +:+ "%"))))),
   {| db := db w; sent := sent w ++ [children_stmt path];
      heap := heap w ++
              List.map repository.scan_comment
                (Pg.select_like_path (db w) (path +:+ "%")) |}).
Proof.
  unfold repository.GetChildrenByPath. cbv zeta. unfold bind, or_else.
  erewrite Query_ok by reflexivity. by rewrite scan_rows_run.
Qed.

(** The structs on the heap when the assembly starts: the root, then the
    flat set. *)
Definition fetched (w : World) (r : Pg.Row) : list Comment :=
  heap w ++ repository.scan_comment r
            :: List.map repository.scan_comment
                 (Pg.select_like_path (db w) (Pg.r_path r +:+ "%")).

Definition fetched_all (w : World) (r : Pg.Row) : option (list ptr) :=
  appended None (seq (S (List.length (heap w)))
                   (List.length (Pg.select_like_path (db w) (Pg.r_path r +:+ "%")))).

Lemma GetComments_run id w :
  service.GetComments id w =
  match Pg.select_by_id (db w) id with
  | Some r =>
      (Ok (service.assemble id (List.length (heap w)) (fetched_all w r) (fetched w r)).1,
       {| db := db w;
          sent := sent w ++ [by_id_stmt id; children_stmt (Pg.r_path r)];
          heap := (service.assemble id (List.length (heap w)) (fetched_all w r)
                     (fetched w r)).2 |})
  | None => (Err (Wrapf "failed to get root comment" not_found), with_sent w [by_id_stmt id])
  end.
Proof.
  unfold service.GetComments. unfold bind at 1. unfold or_else at 1.
  rewrite GetByID_run. destruct (Pg.select_by_id (db w) id) as [r|]; [|reflexivity].
  unfold bind at 1. unfold load at 1. cbn [heap].
  rewrite lookup_app_r by done. rewrite Nat.sub_diag. cbn [lookup list_lookup].
  unfold bind at 1. unfold or_else at 1. rewrite GetChildrenByPath_run.
  cbn [heap db sent repository.scan_comment Path]. unfold fetched, fetched_all.
  rewrite length_app. cbn [List.length]. rewrite Nat.add_1_r.
  rewrite <- !app_assoc. cbn [app].
  destruct (service.assemble _ _ _ _) as [p h] eqn:E. reflexivity.
Qed.

Lemma link_all_length m l : forall h, List.length (service.link_all m h l) = List.length h.
Proof.
  induction l as [|p l IH]; intros h; [done|].
  unfold service.link_all in *. cbn [fold_left]. rewrite IH, link_step_alt.
  destruct (parent_ptr m h p); [|done]. apply length_alter.
Qed.

Lemma assemble_length id root all h :
  List.length (service.assemble id root all h).2 = List.length h.
Proof.
  unfold service.assemble. cbv zeta.
  destruct (List.length (default [] all) <=? 1)%nat; [apply length_alter|].
  pose proof (build_map_length h (default [] all)) as Hl.
  destruct (service.build_map h (default [] all)) as [h1 m]. cbn [fst] in Hl.
  destruct (m !! id); cbn [snd]; by rewrite link_all_length.
Qed.

Lemma assembled_id_at h all q : id_at (assembled h all) q = id_at h q.
Proof.
  unfold id_at. rewrite assembled_lookup. case_decide; [|done].
  by destruct (h !! q).
Qed.

(** The assembly writes only to the root and to the structs of the flat
    set. *)
Lemma assemble_untouched id root all h q :
  q <> root -> q ∉ default [] all ->
  (service.assemble id root all h).2 !! q = h !! q.
Proof.
  intros Hr Ha. destruct (le_lt_dec (List.length (default [] all)) 1) as [Hs|Hl].
  - rewrite assemble_small by done. cbn [snd]. by rewrite list_lookup_alter_ne.
  - destruct all as [all|]; simpl in Hl, Ha; [|lia].
    rewrite assemble_large by lia. cbn [snd].
    rewrite assembled_lookup. by rewrite decide_False.
Qed.

(** The struct returned has the requested id. *)
Lemma assemble_root_id id root all h :
  id_at h root = Some id ->
  id_at (service.assemble id root all h).2 (service.assemble id root all h).1 = Some id.
Proof.
  intros Hroot. destruct (le_lt_dec (List.length (default [] all)) 1) as [Hs|Hl].
  - rewrite assemble_small by done. cbn [fst snd]. unfold id_at in *.
    rewrite list_lookup_alter_eq. by destruct (h !! root).
  - destruct all as [all|]; simpl in Hl; [|lia].
    rewrite assemble_large by lia. cbn [fst snd]. rewrite assembled_id_at.
    destruct ((service.build_map h all).2 !! id) as [q|] eqn:E; [|done].
    by apply build_map_lookup in E as [_ E].
Qed.

Lemma appended_None_default (l : list ptr) : default [] (appended None l) = l.
Proof. by rewrite appended_default. Qed.

(** Reading the tree of an id that is in the table succeeds; it leaves the
    table and the structs allocated before untouched and returns a struct
    with that id. *)
Lemma GetComments_ok id w r :
  Pg.select_by_id (db w) id = Some r ->
  exists p w',
    service.GetComments id w = (Ok p, w') /\
    db w' = db w /\
    id_at (heap w') p = Some id /\
    (List.length (heap w) <= List.length (heap w'))%nat /\
    forall q, (q < List.length (heap w))%nat -> heap w' !! q = heap w !! q.
Proof.
  intros Hr. rewrite GetComments_run, Hr. do 2 eexists. split; [reflexivity|].
  cbn [db heap]. split; [done|].
  assert (Hroot : id_at (fetched w r) (List.length (heap w)) = Some id).
  { unfold id_at, fetched. rewrite lookup_app_r by done. rewrite Nat.sub_diag.
    cbn. f_equal. by apply select_by_id_some in Hr as [_ ?]. }
  split; [by apply assemble_root_id|].
  split.
  { rewrite assemble_length. unfold fetched. rewrite length_app. lia. }
  intros q Hq. rewrite assemble_untouched.
  - unfold fetched. by rewrite lookup_app_l.
  - lia.
  - unfold fetched_all. rewrite appended_None_default.
    intros Hin%elem_of_seq. lia.
Qed.

(** The trees of a page: every top-level struct whose id is in the table
    gets its tree, in order. *)
Lemma build_trees_ok tops : forall acc w,
  Forall (fun p => exists c, heap w !! p = Some c /\
                             is_Some (Pg.select_by_id (db w) (ID c))) tops ->
  exists trees w',
    service.build_trees tops acc w = (Ok (appended acc trees), w') /\
    db w' = db w /\
    id_at (heap w') <$> trees = id_at (heap w) <$> tops /\
    (List.length (heap w) <= List.length (heap w'))%nat /\
    forall q, (q < List.length (heap w))%nat -> heap w' !! q = heap w !! q.
Proof.
  induction tops as [|p tops IH]; intros acc w Ht.
  - exists [], w. cbn. repeat split; auto.
  - apply Forall_cons in Ht as [(c & Hc & [r Hr]) Ht].
    cbn [service.build_trees]. unfold bind at 1, load at 1. rewrite Hc.
    destruct (GetComments_ok (ID c) w r Hr) as (t & w1 & E & Hdb & Hid & Hlen & Hpre).
    rewrite E.
    destruct (IH (append acc t) w1) as (trees & w' & E' & Hdb' & Hids & Hl' & Hpre').
    { eapply Forall_impl; [exact Ht|]. intros q (cq & Hq & Hs). exists cq.
      rewrite Hdb. split; [|done]. rewrite Hpre; [done|]. by eapply lookup_lt_Some. }
    exists (t :: trees), w'. rewrite E'. split; [reflexivity|].
    split; [congruence|]. split.
    + rewrite !fmap_cons. f_equal.
      * unfold id_at at 2. rewrite Hc. cbn. rewrite <- Hid. unfold id_at.
        rewrite Hpre'; [done|]. unfold id_at in Hid.
        destruct (heap w1 !! t) eqn:Et; [|done]. by eapply lookup_lt_Some.
      * rewrite Hids. apply Forall_fmap_ext. eapply Forall_impl; [exact Ht|].
        intros q (cq & Hq & _). unfold id_at. rewrite Hpre; [done|].
        by eapply lookup_lt_Some.
    + split; [lia|]. intros q Hq. rewrite Hpre' by lia. by apply Hpre.
Qed.

End Reading.

(** ** Pagination *)

Section Pagination.
Import models.

Lemma select_by_id_is_Some d r :
  In r (Pg.table d) -> is_Some (Pg.select_by_id d (Pg.r_id r)).
Proof.
  intros Hin. unfold Pg.select_by_id.
  destruct (List.find (Pg.has_id (Pg.r_id r)) (Pg.table d)) eqn:E; [eauto|].
  eapply find_none in E; [|exact Hin]. unfold Pg.has_id in E.
  by rewrite Z.eqb_refl in E.
Qed.

Lemma select_top_level_rows d col dir limit offset rows :
  Pg.select_top_level d col dir limit offset = Ok rows ->
  Forall (fun r => In r (Pg.table d) /\ Pg.r_parent_id r = None) rows.
Proof.
  unfold Pg.select_top_level. destruct (Pg.order_le col dir) as [le|]; [|done].
  destruct (limit <? 0); [done|]. destruct (offset <? 0); [done|].
  intros [= <-]. apply Forall_take, Forall_drop.
  rewrite order_by_Permutation. apply Forall_forall. intros r Hr.
  apply list_elem_of_In, filter_In in Hr as [Hr1 Hr2]. split; [done|].
  unfold Pg.is_top_level in Hr2. by destruct (Pg.r_parent_id r).
Qed.

Lemma scanned_ids h rows :
  id_at (h ++ List.map repository.scan_comment rows)
    <$> seq (List.length h) (List.length rows)
  = (fun r => Some (Pg.r_id r)) <$> rows.
Proof.
  apply list_eq. intros i. rewrite !list_lookup_fmap.
  destruct (rows !! i) as [r|] eqn:E.
  - rewrite lookup_seq_lt by (by eapply lookup_lt_Some). cbn. unfold id_at.
    rewrite lookup_app_r by lia.
    replace (List.length h + i - List.length h)%nat with i by lia.
    change (List.map repository.scan_comment rows) with (repository.scan_comment <$> rows).
    by rewrite list_lookup_fmap, E.
  - rewrite lookup_seq_ge; [done|]. by apply lookup_ge_None.
Qed.

Definition page_offset (page limit : Z) : Z :=
  int_mul (int_sub (service.clamp_page page) 1) (service.clamp_limit limit).

Lemma GetAllCommentTrees_run U page limit sortBy sortOrder w :
  let col := repository.checked_sortBy sortBy in
  let dir := repository.checked_sortOrder U sortOrder in
  let P := service.clamp_page page in
  let L := service.clamp_limit limit in
  match Pg.select_top_level (db w) col dir L (page_offset page limit) with
  | Ok rows =>
      exists trees w',
        service.GetAllCommentTrees U page limit sortBy sortOrder w
        = (Ok {| Comments := appended None trees; Total := Pg.count_top_level (db w);
                 Page := P; Limit := L |}, w') /\
        db w' = db w /\
        id_at (heap w') <$> trees = (fun r => Some (Pg.r_id r)) <$> rows
  | Err e =>
      service.GetAllCommentTrees U page limit sortBy sortOrder w
      = (Err (Wrapf "failed to get top-level comments"
                (Wrapf "failed to get top level comments" e)),
         with_sent w (count_stmt :: repeat (page_stmt col dir L (page_offset page limit)) 5))
  end.
Proof.
  cbv zeta.
  assert (Hrun := GetTopLevelComments_run U (service.clamp_limit limit)
                    (page_offset page limit) sortBy sortOrder w).
  cbv zeta in Hrun.
  destruct (Pg.select_top_level (db w) _ _ _ _) as [rows|e] eqn:E.
  2:{ unfold service.GetAllCommentTrees. cbv zeta. fold (page_offset page limit).
      unfold bind at 1, or_else at 1. by rewrite Hrun. }
  unfold service.GetAllCommentTrees. cbv zeta. fold (page_offset page limit).
  unfold bind at 1, or_else at 1. rewrite Hrun.
  set (w1 := {| db := db w; sent := _; heap := _ |}).
  destruct (build_trees_ok (seq (List.length (heap w)) (List.length rows)) None w1)
    as (trees & w' & Eb & Hdb & Hids & _ & _).
  { apply Forall_forall. intros p Hp. apply elem_of_seq in Hp.
    destruct (rows !! (p - List.length (heap w))%nat) as [r|] eqn:Er;
      [|apply lookup_ge_None in Er; lia].
    exists (repository.scan_comment r). split.
    - subst w1. cbn [heap]. rewrite lookup_app_r by lia.
      change (List.map repository.scan_comment rows) with (repository.scan_comment <$> rows).
      by rewrite list_lookup_fmap, Er.
    - subst w1. cbn [db repository.scan_comment ID].
      apply select_by_id_is_Some. apply select_top_level_rows in E.
      rewrite Forall_forall in E. apply E. by eapply list_elem_of_lookup_2. }
  exists trees, w'. unfold bind. rewrite appended_None_default, Eb.
  split; [reflexivity|]. split; [by rewrite Hdb|].
  rewrite Hids. subst w1. cbn [heap]. apply scanned_ids.
Qed.

Lemma wrap64_small z : MinInt64 <= z <= MaxInt64 -> wrap64 z = z.
Proof.
  unfold MinInt64, MaxInt64, wrap64. intros H.
  rewrite Z.mod_small by lia. lia.
Qed.

Lemma clamp_limit_range limit : 1 <= service.clamp_limit limit <= 100.
Proof.
  unfold service.clamp_limit.
  destruct (Z.ltb_spec limit 1), (Z.ltb_spec 100 limit); cbn; lia.
Qed.

(** What a page of trees looks like: how many, and the total, page and
    limit reported with them. *)
Definition page_summary (r : result PaginatedComments) : option (nat * Z * Z * Z) :=
  match r with
  | Ok pc => Some (List.length (default [] (Comments pc)), Total pc, Page pc, Limit pc)
  | Err _ => None
  end.

(** What a listing does for every page and limit.  [GetAllCommentTrees]
    replaces a page below 1 by 1 and a limit outside 1..100 by 10,
    computes the offset as (page-1)*limit in Go's integers (the exact
    product whenever it fits in 64 bits), asks for that page of top-level
    rows and, when the query succeeds, returns one tree per row of the
    page, in order, with the count of top-level comments, the clamped page
    and the clamped limit.  With 25 top-level comments, page 1 with limit
    10 gives 10 trees and total 25, and page 3 gives 5 trees. *)
Lemma listing_is_clamped_and_paged (U : string -> string) (page limit : Z)
    (sortBy sortOrder : string) (w : World) :
  let col := repository.checked_sortBy sortBy in
  let dir := repository.checked_sortOrder U sortOrder in
  let P := service.clamp_page page in
  let L := service.clamp_limit limit in
  let off := page_offset page limit in
  P = Z.max 1 page /\
  L = (if (1 <=? limit) && (limit <=? 100) then limit else 10) /\
  1 <= L <= 100 /\
  off = int_mul (int_sub P 1) L /\
  (page <= MaxInt64 -> (P - 1) * L <= MaxInt64 -> off = (P - 1) * L) /\
  (0 <= off ->
   exists le, Pg.order_le col dir = Some le /\
     Pg.select_top_level (db w) col dir L off
     = Ok (firstn (Z.to_nat L)
             (skipn (Z.to_nat off)
                (Pg.order_by le (List.filter Pg.is_top_level (Pg.table (db w))))))) /\
  match Pg.select_top_level (db w) col dir L off with
  | Ok rows =>
      exists trees w',
        service.GetAllCommentTrees U page limit sortBy sortOrder w
        = (Ok {| Comments := appended None trees; Total := Pg.count_top_level (db w);
                 Page := P; Limit := L |}, w') /\
        db w' = db w /\
        id_at (heap w') <$> trees = (fun r => Some (Pg.r_id r)) <$> rows
  | Err e =>
      service.GetAllCommentTrees U page limit sortBy sortOrder w
      = (Err (Wrapf "failed to get top-level comments"
                (Wrapf "failed to get top level comments" e)),
         with_sent w (count_stmt :: repeat (page_stmt col dir L off) 5))
  end /\
  Pg.count_top_level (db Scenario.world25) = 25 /\
  page_summary
    (service.GetAllCommentTrees GoString.ToUpperASCII 1 10 "created_at" "asc"
       Scenario.world25).1
  = Some (10%nat, 25, 1, 10) /\
  page_summary
    (service.GetAllCommentTrees GoString.ToUpperASCII 3 10 "created_at" "asc"
       Scenario.world25).1
  = Some (5%nat, 25, 3, 10).
Proof.
  cbv zeta.
  pose proof (clamp_limit_range limit) as HL.
  split. { unfold service.clamp_page. destruct (Z.ltb_spec page 1); lia. }
  split. { unfold service.clamp_limit.
           destruct (Z.ltb_spec limit 1), (Z.ltb_spec 100 limit),
             (Z.leb_spec 1 limit), (Z.leb_spec limit 100); cbn; lia. }
  split; [exact HL|]. split; [reflexivity|].
  split.
  { intros Hp Hm. unfold page_offset, int_mul, int_sub.
    assert (1 <= service.clamp_page page <= MaxInt64)
      by (unfold service.clamp_page, MaxInt64 in *; destruct (Z.ltb_spec page 1); lia).
    rewrite (wrap64_small (service.clamp_page page - 1))
      by (unfold MinInt64, MaxInt64 in *; lia).
    apply wrap64_small. unfold MinInt64, MaxInt64 in *. nia. }
  split.
  { intros Hoff. unfold Pg.select_top_level.
    rewrite checked_sortBy_cases, checked_sortOrder_cases.
    assert (Hl : (service.clamp_limit limit <? 0) = false) by (apply Z.ltb_ge; lia).
    assert (Ho : (page_offset page limit <? 0) = false) by (by apply Z.ltb_ge).
    destruct (String.eqb sortBy "id"), (String.eqb (U sortOrder) "DESC");
      cbn [Pg.order_le String.eqb Ascii.eqb Bool.eqb]; rewrite Hl, Ho;
      eexists; split; reflexivity. }
  split; [apply GetAllCommentTrees_run|].
  repeat split; vm_compute; reflexivity.
Qed.

(** The ids at the roots of the trees of a listing. *)
Definition page_ids (r : result PaginatedComments * World) : list (option Z) :=
  match r.1 with
  | Ok pc => id_at (heap r.2) <$> default [] (Comments pc)
  | Err _ => []
  end.

(** C8 (where the code departs from it).  The product (page-1)*limit is
    computed in 64-bit integers and wraps around.  With 25 top-level
    comments, page 2^62+1 with limit 4 has the offset 2^64, past every row,
    but the code computes the offset 0 and returns the four trees of page
    1 under the page number 2^62+1; page 2^63-1 with limit 100 has an
    offset past every row as well, but the code computes -200, the
    database rejects the query and the listing fails. *)
Theorem listing_offset_wraps_around :
  let U := GoString.ToUpperASCII in
  let w := Scenario.world25 in
  Pg.count_top_level (db w) = 25 /\
  (* page 2^62+1, limit 4 *)
  MinInt64 <= 2 ^ 62 + 1 <= MaxInt64 /\
  (service.clamp_page (2 ^ 62 + 1) - 1) * service.clamp_limit 4 = 2 ^ 64 /\
  page_offset (2 ^ 62 + 1) 4 = 0 /\
  page_summary (service.GetAllCommentTrees U (2 ^ 62 + 1) 4 "id" "asc" w).1
  = Some (4%nat, 25, 2 ^ 62 + 1, 4) /\
  page_ids (service.GetAllCommentTrees U (2 ^ 62 + 1) 4 "id" "asc" w)
  = [Some 1; Some 2; Some 3; Some 4] /\
  page_ids (service.GetAllCommentTrees U 1 4 "id" "asc" w)
  = [Some 1; Some 2; Some 3; Some 4] /\
  (* page 2^63-1, limit 100 *)
  25 <= (service.clamp_page MaxInt64 - 1) * service.clamp_limit 100 /\
  page_offset MaxInt64 100 = -200 /\
  (service.GetAllCommentTrees U MaxInt64 100 "id" "asc" w).1
  = Err (Wrapf "failed to get top-level comments"
           (Wrapf "failed to get top level comments"
              (PgError "OFFSET must not be negative"))).
Proof. cbv zeta. repeat split; try (vm_compute; reflexivity); vm_compute; discriminate. Qed.

End Pagination.

(** ** Paths stored in the table *)

Section Paths.

Lemma hex_not_meta c : Pg.is_hex c = true -> is_meta c = false.
Proof. destruct c as [[] [] [] [] [] [] [] []]; vm_compute; congruence. Qed.

Lemma meta_free_app a b : meta_free (a ++ b) = meta_free a && meta_free b.
Proof. apply forallb_app. Qed.

Lemma uuid_bytes_meta_free n : forall i s ds rest,
  Pg.uuid_bytes n i s = Some (ds, rest) ->
  meta_free rest = true -> meta_free s = true.
Proof.
  induction n as [|n IH]; intros i s ds rest H Hrest.
  - cbn in H. by injection H as _ <-.
  - cbn [Pg.uuid_bytes] in H. destruct s as [|a [|b r]]; try done.
    destruct (Pg.is_hex a) eqn:Ha; [|done]. destruct (Pg.is_hex b) eqn:Hb; [|done].
    cbn [andb] in H.
    destruct (Pg.uuid_bytes n (S i) _) as [[ds' rest']|] eqn:E; [|done].
    injection H as _ <-. apply IH in E; [|done].
    cbn [meta_free forallb]. rewrite (hex_not_meta a Ha), (hex_not_meta b Hb). cbn.
    destruct r as [|h r0]; [done|]. revert E.
    destruct (Ascii.eqb h Pg.hyphen && Nat.odd i && (i <? 15)%nat) eqn:Eh; [|done].
    apply andb_prop in Eh as [Eh _]. apply andb_prop in Eh as [Eh _].
    apply Ascii.eqb_eq in Eh as ->. intros E. cbn [forallb].
    unfold meta_free in E. by rewrite E.
Qed.

(** A text accepted for the [uuid] column has no LIKE metacharacter. *)
Lemma uuid_in_meta_free s u :
  Pg.uuid_in s = Some u -> meta_free (GoString.bytes s) = true.
Proof.
  unfold Pg.uuid_in.
  set (src := GoString.bytes s). clearbody src.
  assert (Hgo : forall braces src0,
    match Pg.uuid_bytes 16 0 src0 with
    | Some (ds, rest) =>
        match (if braces : bool
               then match rest with
                    | c :: r => if Ascii.eqb c "}"%char then Some r else None
                    | [] => None
                    end
               else Some rest) with
        | Some [] => Some (GoString.of_bytes (Pg.uuid_out ds))
        | _ => None
        end
    | None => None
    end = Some u -> meta_free src0 = true).
  { intros braces src0 H.
    destruct (Pg.uuid_bytes 16 0 src0) as [[ds rest]|] eqn:E; [|done].
    eapply uuid_bytes_meta_free; [exact E|].
    destruct braces.
    - destruct rest as [|c r]; [done|]. destruct (Ascii.eqb_spec c "}"%char) as [->|]; [|done].
      destruct r; [done|done].
    - by destruct rest. }
  destruct src as [|c r]; [apply (Hgo false)|].
  destruct (Ascii.eqb_spec c "{"%char) as [->|Hc].
  - intros H. apply (Hgo true) in H. cbn [meta_free forallb]. unfold meta_free in H.
    by rewrite H.
  - apply (Hgo false).
Qed.

Lemma newPath_meta_free parentPath pathID u :
  meta_free (GoString.bytes parentPath) = true ->
  Pg.uuid_in pathID = Some u ->
  meta_free (GoString.bytes (repository.newPath parentPath pathID)) = true.
Proof.
  intros Hp Hu. unfold repository.newPath. rewrite !bytes_append, !meta_free_app.
  by rewrite Hp, (uuid_in_meta_free _ _ Hu).
Qed.

Lemma prefix_append p x : String.prefix p (p +:+ x) = true.
Proof.
  induction p as [|a p IH]; [by destruct x|]. simpl.
  destruct (ascii_dec a a); [exact IH|done].
Qed.

Lemma prefix_trans a b c :
  String.prefix a b = true -> String.prefix b c = true -> String.prefix a c = true.
Proof.
  revert b c. induction a as [|x a IH]; intros b c Hab Hbc; [by destruct c|].
  destruct b as [|y b]; [done|]. destruct c as [|z c]; [done|].
  simpl in *. destruct (ascii_dec x y) as [->|]; [|done].
  destruct (ascii_dec y z) as [->|]; [|done]. by eapply IH.
Qed.

Lemma prefix_refl a : String.prefix a a = true.
Proof. induction a as [|x a IH]; [done|]. simpl. by destruct (ascii_dec x x). Qed.

End Paths.

(** ** The invariant of the table *)

Section Invariant.
Import models.

(** The parent of a row is a row of the table with a smaller id whose path
    is a prefix of the row's path. *)
Definition parent_ok (tbl : list Pg.Row) (c : Pg.Row) : Prop :=
  match Pg.r_parent_id c with
  | None => True
  | Some pid =>
      exists r, In r tbl /\ Pg.r_id r = pid /\
                String.prefix (Pg.r_path r) (Pg.r_path c) = true /\ pid < Pg.r_id c
  end.

Record wf_db (d : Pg.Database) : Prop := {
  wf_ids : NoDup (Pg.r_id <$> Pg.table d);
  wf_serial : 1 <= Pg.serial d;
  wf_range : Forall (fun r => 1 <= Pg.r_id r < Pg.serial d) (Pg.table d);
  wf_paths : Forall (fun r => meta_free (GoString.bytes (Pg.r_path r)) = true) (Pg.table d);
  wf_parents : Forall (parent_ok (Pg.table d)) (Pg.table d)
}.

Lemma wf_empty : wf_db Pg.empty.
Proof. split; cbn; try constructor. lia. Qed.

Lemma wf_serial_mono tbl s s' :
  wf_db {| Pg.table := tbl; Pg.serial := s |} -> s <= s' ->
  wf_db {| Pg.table := tbl; Pg.serial := s' |}.
Proof.
  intros [H1 H2 H3 H4 H5] Hs. split; cbn in *; try done; [lia|].
  eapply Forall_impl; [exact H3|]. cbn. intros r Hr. lia.
Qed.

Lemma parent_ok_app tbl extra c : parent_ok tbl c -> parent_ok (tbl ++ extra) c.
Proof.
  unfold parent_ok. destruct (Pg.r_parent_id c) as [pid|]; [|done].
  intros (r & Hin & H). exists r. split; [|done]. apply in_or_app. by left.
Qed.

Lemma wf_extend d parent u path comment t :
  wf_db d ->
  meta_free (GoString.bytes path) = true ->
  match parent with
  | None => True
  | Some pid => exists r, In r (Pg.table d) /\ Pg.r_id r = pid /\
                          String.prefix (Pg.r_path r) path = true
  end ->
  wf_db {| Pg.table := Pg.table d ++ [new_row d parent u path comment t];
           Pg.serial := Pg.serial d + 1 |}.
Proof.
  intros [H1 H2 H3 H4 H5] Hpath Hparent. split; cbn [Pg.table Pg.serial].
  - rewrite fmap_app. apply NoDup_app. split; [done|]. split; [|apply NoDup_singleton].
    intros x Hx Hx'. apply list_elem_of_singleton in Hx'. subst x. cbn in Hx.
    apply list_elem_of_fmap in Hx as (r & Hr & Hin). rewrite Forall_forall in H3.
    specialize (H3 r Hin). lia.
  - lia.
  - apply Forall_app. split.
    + eapply Forall_impl; [exact H3|]. cbn. intros r Hr. lia.
    + constructor; [cbn; lia|constructor].
  - apply Forall_app. split; [done|]. constructor; [exact Hpath|constructor].
  - apply Forall_app. split.
    + eapply Forall_impl; [exact H5|]. intros c. apply parent_ok_app.
    + constructor; [|constructor]. unfold parent_ok. cbn [new_row Pg.r_parent_id].
      destruct parent as [pid|]; [|done]. destruct Hparent as (r & Hin & Hid & Hpre).
      exists r. split; [apply in_or_app; by left|]. split; [done|]. split; [done|].
      cbn. rewrite Forall_forall in H3. specialize (H3 r (proj2 (list_elem_of_In _ _) Hin)). lia.
Qed.

Lemma create_exec_wf c parentPath w :
  wf_db (db w) ->
  meta_free (GoString.bytes parentPath) = true ->
  match ParentID c with
  | None => True
  | Some pid => exists r, In r (Pg.table (db w)) /\ Pg.r_id r = pid /\
                          Pg.r_path r = parentPath
  end ->
  wf_db (db (create_exec c parentPath w).2).
Proof.
  intros Hwf Hpp Hparent.
  destruct (insertable (Pg.table (db w)) (ParentID c) (PathID c)) eqn:Hi.
  - destruct (create_exec_ok c parentPath w Hi) as (u & Hu & ->). cbn [snd db].
    apply wf_extend; [done|by eapply newPath_meta_free|].
    destruct (ParentID c) as [pid|]; [|done].
    destruct Hparent as (r & Hin & Hid & <-). exists r. split; [done|]. split; [done|].
    unfold repository.newPath. apply prefix_append.
  - destruct (create_exec_err c parentPath w Hi) as (e & w' & -> & Ht & _ & Hs & _).
    cbn [snd]. destruct (db w') as [tbl s]. destruct (db w) as [tbl0 s0]. cbn in *.
    subst tbl. by eapply wf_serial_mono.
Qed.

Lemma Create_wf c w : wf_db (db w) -> wf_db (db (repository.Create c w).2).
Proof.
  intros Hwf. rewrite Create_run. destruct (ParentID c) as [pid|] eqn:EP.
  - destruct (Pg.select_by_id (db w) pid) as [parent|] eqn:Es; [|done].
    apply create_exec_wf; [done| |].
    + apply select_by_id_some in Es as [Hin _]. destruct Hwf as [_ _ _ H4 _].
      rewrite Forall_forall in H4. apply H4. by apply list_elem_of_In.
    + rewrite EP. exists parent. apply select_by_id_some in Es as [Hin Hid]. done.
  - apply create_exec_wf; [done|done|by rewrite EP].
Qed.

Lemma CreateComment_wf pathID now cr w :
  wf_db (db w) -> wf_db (db (service.CreateComment pathID now cr w).2).
Proof.
  intros Hwf. rewrite CreateComment_run.
  pose proof (Create_wf (request_comment pathID now cr) w Hwf) as H.
  by destruct (repository.Create _ w) as [[id|e] w'].
Qed.

End Invariant.

(** ** Deleting a subtree *)

Section Deletion.
Import models.

(** The rows outside the subtree of [path]. *)
Definition outside (path : string) (tbl : list Pg.Row) : list Pg.Row :=
  List.filter (fun c => negb (GoString.has_prefix path (Pg.r_path c))) tbl.

Lemma filter_all_false {A} (f : A -> bool) l :
  (forall x, In x l -> f x = false) -> List.filter f l = [].
Proof.
  induction l as [|a l IH]; [done|]. intros H. cbn.
  rewrite (H a) by (by left). apply IH. intros x Hx. apply H. by right.
Qed.

Lemma cascade_none fuel gone rows :
  List.filter (Pg.refers_to gone) rows = [] -> Pg.cascade fuel gone rows = rows.
Proof. intros H. destruct fuel; [done|]. cbn. by rewrite H. Qed.

Lemma NoDup_fmap_filter {A B} (f : A -> B) (g : A -> bool) l :
  NoDup (f <$> l) -> NoDup (f <$> List.filter g l).
Proof.
  induction l as [|a l IH]; [done|]. rewrite fmap_cons.
  intros [Ha Hl]%NoDup_cons. cbn. destruct (g a); [|by apply IH].
  rewrite fmap_cons. apply NoDup_cons. split; [|by apply IH].
  intros Hin. apply Ha. apply list_elem_of_fmap in Hin as (x & -> & Hx).
  apply list_elem_of_fmap. exists x. split; [done|].
  apply list_elem_of_In. apply list_elem_of_In, filter_In in Hx. tauto.
Qed.

Lemma NoDup_fmap_inj {A B} (f : A -> B) l a b :
  NoDup (f <$> l) -> In a l -> In b l -> f a = f b -> a = b.
Proof.
  induction l as [|x l IH]; [done|]. rewrite fmap_cons.
  intros [Hx Hl]%NoDup_cons [->|Ha] [->|Hb] Heq; try done.
  - destruct Hx. rewrite Heq. apply list_elem_of_fmap. exists b.
    split; [done|by apply list_elem_of_In].
  - destruct Hx. rewrite <- Heq. apply list_elem_of_fmap. exists a.
    split; [done|by apply list_elem_of_In].
  - by apply IH.
Qed.

(** On a well-formed table, deleting the rows whose path matches the
    pattern built from a stored path removes the rows that have that path
    as a prefix and nothing else: the cascade of the foreign key finds
    nothing more to delete. *)
Lemma delete_like_path_prefix d path :
  wf_db d ->
  meta_free (GoString.bytes path) = true ->
  Pg.delete_like_path d (path +:+ "%")
  = {| Pg.table := outside path (Pg.table d); Pg.serial := Pg.serial d |}.
Proof.
  intros [H1 H2 H3 H4 H5] Hpath. unfold Pg.delete_like_path. cbv zeta. f_equal.
  assert (Hk : List.filter (fun r => negb (Pg.LIKE (Pg.r_path r) (path +:+ "%"))) (Pg.table d)
               = outside path (Pg.table d)).
  { apply filter_ext. intros r. by rewrite LIKE_prefix. }
  rewrite Hk. apply cascade_none. apply filter_all_false.
  intros c Hc. unfold outside in Hc. apply filter_In in Hc as [Hc Hout].
  apply negb_true_iff in Hout. unfold Pg.refers_to.
  destruct (Pg.r_parent_id c) as [pid|] eqn:Ep; [|done].
  destruct (existsb (Z.eqb pid) _) eqn:Ex; [|done]. exfalso.
  apply existsb_exists in Ex as (g & Hg & Hpg). apply Z.eqb_eq in Hpg as <-.
  apply in_map_iff in Hg as (r' & Hid' & Hr'). apply filter_In in Hr' as [Hr' Hhit].
  rewrite LIKE_prefix in Hhit by done.
  rewrite Forall_forall in H5.
  pose proof (H5 c (proj2 (list_elem_of_In _ _) Hc)) as Hpar.
  unfold parent_ok in Hpar. rewrite Ep in Hpar. destruct Hpar as (r & Hr & Hid & Hpre & _).
  assert (r = r') as -> by (eapply NoDup_fmap_inj; eauto; congruence).
  unfold GoString.has_prefix in *.
  rewrite (prefix_trans _ _ _ Hhit Hpre) in Hout. done.
Qed.

Lemma outside_wf d path :
  wf_db d ->
  wf_db {| Pg.table := outside path (Pg.table d); Pg.serial := Pg.serial d |}.
Proof.
  intros [H1 H2 H3 H4 H5]. unfold outside.
  split; cbn [Pg.table Pg.serial]; [by apply NoDup_fmap_filter|done| | |].
  - apply Forall_forall. intros r Hr%list_elem_of_In. apply filter_In in Hr as [Hr _].
    rewrite Forall_forall in H3. apply H3. by apply list_elem_of_In.
  - apply Forall_forall. intros r Hr%list_elem_of_In. apply filter_In in Hr as [Hr _].
    rewrite Forall_forall in H4. apply H4. by apply list_elem_of_In.
  - apply Forall_forall. intros c Hc%list_elem_of_In. apply filter_In in Hc as [Hc Hout].
    rewrite Forall_forall in H5. pose proof (H5 c (proj2 (list_elem_of_In _ _) Hc)) as Hpar.
    unfold parent_ok in *. destruct (Pg.r_parent_id c) as [pid|]; [|done].
    destruct Hpar as (r & Hr & Hid & Hpre & Hlt). exists r. split; [|done].
    apply filter_In. split; [done|]. apply negb_true_iff.
    apply negb_true_iff in Hout. unfold GoString.has_prefix in *.
    destruct (String.prefix path (Pg.r_path r)) eqn:E; [|done].
    by rewrite (prefix_trans _ _ _ E Hpre) in Hout.
Qed.

Lemma DeleteComments_run id w :
  service.DeleteComments id w =
  match Pg.select_by_id (db w) id with
  | Some r =>
      (Ok tt,
       {| db := Pg.delete_like_path (db w) (Pg.r_path r +:+ "%");
          sent := sent w ++ [by_id_stmt id; delete_stmt (Pg.r_path r)];
          heap := heap w ++ [repository.scan_comment r] |})
  | None => (Err (Wrapf "failed to get root comment" not_found), with_sent w [by_id_stmt id])
  end.
Proof.
  unfold service.DeleteComments. unfold bind at 1. unfold or_else at 1.
  rewrite GetByID_run. destruct (Pg.select_by_id (db w) id) as [r|]; [|reflexivity].
  unfold bind at 1. unfold load at 1. cbn [heap].
  rewrite lookup_app_r by done. rewrite Nat.sub_diag. cbn [lookup list_lookup].
  unfold or_else, repository.DeleteByPath. cbv zeta.
  unfold or_else. erewrite Exec_ok by reflexivity.
  cbn [db sent heap repository.scan_comment Path]. by rewrite <- app_assoc.
Qed.

Lemma select_by_id_unique d R :
  NoDup (Pg.r_id <$> Pg.table d) -> In R (Pg.table d) ->
  Pg.select_by_id d (Pg.r_id R) = Some R.
Proof.
  intros Hnd Hin. destruct (select_by_id_is_Some d R Hin) as [r Hr]. rewrite Hr.
  f_equal. apply select_by_id_some in Hr as [Hr Hid].
  eapply NoDup_fmap_inj; eauto.
Qed.

Lemma outside_spec path tbl c :
  In c (outside path tbl) <-> In c tbl /\ String.prefix path (Pg.r_path c) = false.
Proof.
  unfold outside, GoString.has_prefix. rewrite filter_In, negb_true_iff. tauto.
Qed.

(** C2. On a table that satisfies the invariant, [DeleteComments] first
    reads the row of the given id.  When no row has that id it fails with
    an error that wraps [sql.ErrNoRows] and sends nothing else.  When [R]
    is the row of that id, it sends one DELETE statement, with the pattern
    made of the path of [R] and a percent sign, and the table afterwards
    holds exactly the rows whose path does not have the path of [R] as a
    prefix, in their order: [R] and the rows below it are gone, no other
    row is.  The invariant holds again afterwards. *)
Theorem delete_removes_exactly_the_subtree (id : Z) (w : World) :
  wf_db (db w) ->
  (Forall (fun r => Pg.r_id r <> id) (Pg.table (db w)) ->
   service.DeleteComments id w
   = (Err (Wrapf "failed to get root comment" not_found), with_sent w [by_id_stmt id]) /\
   is_no_rows (Wrapf "failed to get root comment" not_found) = true) /\
  (forall R, In R (Pg.table (db w)) -> Pg.r_id R = id ->
   service.DeleteComments id w
   = (Ok tt,
      {| db := {| Pg.table := outside (Pg.r_path R) (Pg.table (db w));
                  Pg.serial := Pg.serial (db w) |};
         sent := sent w ++ [by_id_stmt id; delete_stmt (Pg.r_path R)];
         heap := heap w ++ [repository.scan_comment R] |}) /\
   (forall c, In c (outside (Pg.r_path R) (Pg.table (db w))) <->
              In c (Pg.table (db w)) /\
              String.prefix (Pg.r_path R) (Pg.r_path c) = false) /\
   ~ In R (outside (Pg.r_path R) (Pg.table (db w))) /\
   wf_db {| Pg.table := outside (Pg.r_path R) (Pg.table (db w));
            Pg.serial := Pg.serial (db w) |}).
Proof.
  intros Hwf. split.
  - intros Hnone. rewrite DeleteComments_run, (select_by_id_none _ _ Hnone). done.
  - intros R Hin <-. rewrite DeleteComments_run.
    rewrite (select_by_id_unique _ _ (wf_ids _ Hwf) Hin).
    rewrite delete_like_path_prefix; [|done|].
    + split; [reflexivity|]. split; [intros c; apply outside_spec|].
      split; [|by apply outside_wf].
      rewrite outside_spec, prefix_refl. intros [_ ?]. done.
    + pose proof (wf_paths _ Hwf) as Hp. rewrite Forall_forall in Hp.
      apply Hp. by apply list_elem_of_In.
Qed.

(** *** The states the program can be in *)

Inductive step : World -> World -> Prop :=
| step_create pathID now cr w :
    step w (service.CreateComment pathID now cr w).2
| step_post decoded pathID now w :
    step w (handlers.CreateComment decoded pathID now w).2
| step_get id w :
    step w (service.GetComments id w).2
| step_delete id w :
    step w (service.DeleteComments id w).2
| step_list U page limit sortBy sortOrder w :
    step w (service.GetAllCommentTrees U page limit sortBy sortOrder w).2
| step_search query w :
    step w (service.SearchComments query w).2.

Inductive reachable : World -> Prop :=
| reach_init : reachable init
| reach_step w w' : reachable w -> step w w' -> reachable w'.

Lemma DeleteComments_wf id w :
  wf_db (db w) -> wf_db (db (service.DeleteComments id w).2).
Proof.
  intros Hwf. rewrite DeleteComments_run.
  destruct (Pg.select_by_id (db w) id) as [r|] eqn:E; [|done].
  cbn [snd db]. rewrite delete_like_path_prefix; [by apply outside_wf|done|].
  apply select_by_id_some in E as [Hin _].
  pose proof (wf_paths _ Hwf) as Hp. rewrite Forall_forall in Hp.
  apply Hp. by apply list_elem_of_In.
Qed.

Lemma step_wf w w' : step w w' -> wf_db (db w) -> wf_db (db w').
Proof.
  intros [pathID now cr w0|decoded pathID now w0|id w0|id w0|U page limit sb so w0|q w0] Hwf.
  - by apply CreateComment_wf.
  - unfold handlers.CreateComment. destruct decoded as [cr|e]; [|done].
    destruct (String.eqb (Comment_ cr) ""); [done|].
    pose proof (CreateComment_wf pathID now cr w0 Hwf) as H.
    by destruct (service.CreateComment pathID now cr w0) as [[u|e] w1].
  - rewrite GetComments_run. by destruct (Pg.select_by_id (db w0) id).
  - by apply DeleteComments_wf.
  - pose proof (GetAllCommentTrees_run U page limit sb so w0) as H. cbv zeta in H.
    destruct (Pg.select_top_level _ _ _ _ _).
    + destruct H as (trees & w1 & E & Hdb & _). rewrite E. cbn [snd]. by rewrite Hdb.
    + by rewrite H.
  - unfold service.SearchComments.
    destruct (String.length (GoString.TrimSpace q) <? 3)%nat; [done|].
    by rewrite SearchByText_run.
Qed.

(** Every state the program reaches from the empty table satisfies the
    invariant. *)
Lemma reachable_wf w : reachable w -> wf_db (db w).
Proof.
  induction 1 as [|w w' _ IH Hs]; [apply wf_empty|]. by eapply step_wf.
Qed.

Definition reply_row : Pg.Row :=
  {| Pg.r_id := 2; Pg.r_parent_id := Some 1; Pg.r_path_id := Scenario.uuidB;
     Pg.r_path := Scenario.uuidA +:+ "/" +:+ Scenario.uuidB +:+ "/";
     Pg.r_comment := "reply"; Pg.r_created_at := 200 |}.

Lemma scenario_reachable : reachable Scenario.world3.
Proof.
  eapply reach_step; [|apply step_create].
  eapply reach_step; [|apply step_create].
  eapply reach_step; [|apply step_create].
  apply reach_init.
Qed.

Lemma delete_subtree_witness :
  wf_db (db Scenario.world3) /\
  In reply_row (Pg.table (db Scenario.world3)) /\
  Pg.r_id reply_row = 2 /\
  service.DeleteComments 2 Scenario.world3
  = (Ok tt,
     {| db := {| Pg.table := outside (Pg.r_path reply_row) (Pg.table (db Scenario.world3));
                 Pg.serial := Pg.serial (db Scenario.world3) |};
        sent := sent Scenario.world3 ++ [by_id_stmt 2; delete_stmt (Pg.r_path reply_row)];
        heap := heap Scenario.world3 ++ [repository.scan_comment reply_row] |}) /\
  Pg.r_id <$> outside (Pg.r_path reply_row) (Pg.table (db Scenario.world3)) = [1].
Proof.
  pose proof (reachable_wf _ scenario_reachable) as Hwf.
  assert (Hin : In reply_row (Pg.table (db Scenario.world3)))
    by (vm_compute; right; left; reflexivity).
  split; [exact Hwf|]. split; [exact Hin|]. split; [reflexivity|].
  split.
  - exact (proj1 (proj2 (delete_removes_exactly_the_subtree 2 Scenario.world3 Hwf)
                    reply_row Hin eq_refl)).
  - vm_compute. reflexivity.
Defined.

(** On a reachable table no row has a negative id, so the create request
    with a negative parent id, although it reaches the database, leaves
    the table as it was. *)
Lemma negative_parent_not_persisted cr pid pathID now w :
  wf_db (db w) -> ReqParentID cr = Some pid -> pid < 0 ->
  Pg.table (db (handlers.CreateComment (Ok cr) pathID now w).2) = Pg.table (db w).
Proof.
  intros Hwf Hp Hneg. unfold handlers.CreateComment.
  destruct (String.eqb (Comment_ cr) ""); [done|].
  assert (Hnone : Forall (fun r => Pg.r_id r <> pid) (Pg.table (db w))).
  { eapply Forall_impl; [exact (wf_range _ Hwf)|]. cbn. intros r Hr. lia. }
  by rewrite (create_under_missing_parent_fails pathID now cr pid w Hp Hnone).
Qed.

End Deletion.

(** * Further properties of the repository and the service *)

(** ** When a creation succeeds, and what a failed one leaves behind *)

Section CreationOutcome.
Import models.

Lemma insertable_spec tbl parent pathID :
  insertable tbl parent pathID = true <->
  (exists u, Pg.uuid_in pathID = Some u /\ Forall (fun r => Pg.r_path_id r <> u) tbl) /\
  (forall pid, parent = Some pid -> exists r, In r tbl /\ Pg.r_id r = pid).
Proof.
  unfold insertable. destruct (Pg.uuid_in pathID) as [u|].
  - rewrite andb_true_iff, !negb_true_iff. split.
    + intros [Hdup Hfk]. split.
      * exists u. split; [done|]. apply Forall_forall. intros r Hr%list_elem_of_In E.
        assert (existsb (fun r => String.eqb (Pg.r_path_id r) u) tbl = true); [|congruence].
        apply existsb_exists. exists r. split; [done|]. by apply String.eqb_eq.
      * intros pid ->. apply negb_false_iff, existsb_exists in Hfk as (r & Hr & Hid).
        exists r. split; [done|]. by apply Z.eqb_eq in Hid.
    + intros [(u' & [= <-] & Hdup) Hfk]. split.
      * destruct (existsb _ tbl) eqn:E; [|done]. exfalso.
        apply existsb_exists in E as (r & Hr & Heq). apply String.eqb_eq in Heq.
        rewrite Forall_forall in Hdup. by apply (Hdup r (proj2 (list_elem_of_In _ _) Hr)).
      * destruct parent as [pid|]; [|done]. apply negb_false_iff, existsb_exists.
        destruct (Hfk pid eq_refl) as (r & Hr & Hid). exists r. split; [done|].
        unfold Pg.has_id. by apply Z.eqb_eq.
  - split; [done|]. by intros [(u & ? & _) _].
Qed.

Lemma select_by_id_found d pid r :
  In r (Pg.table d) -> Pg.r_id r = pid -> is_Some (Pg.select_by_id d pid).
Proof. intros Hin <-. by apply select_by_id_is_Some. Qed.

(** What [CreateComment] does, in one equation per outcome. *)
Lemma CreateComment_outcome pathID now cr w :
  let c := request_comment pathID now cr in
  (insertable (Pg.table (db w)) (ReqParentID cr) pathID = true /\
   exists u parentPath,
     Pg.uuid_in pathID = Some u /\
     (service.CreateComment pathID now cr w).1 = Ok tt /\
     Pg.table (db (service.CreateComment pathID now cr w).2)
     = Pg.table (db w) ++
       [new_row (db w) (ReqParentID cr) u (repository.newPath parentPath pathID)
          (Comment_ cr) now] /\
     Pg.serial (db (service.CreateComment pathID now cr w).2) = Pg.serial (db w) + 1 /\
     heap (service.CreateComment pathID now cr w).2 = heap w) \/
  (insertable (Pg.table (db w)) (ReqParentID cr) pathID = false /\
   (exists e, (service.CreateComment pathID now cr w).1 = Err e) /\
   Pg.table (db (service.CreateComment pathID now cr w).2) = Pg.table (db w) /\
   heap (service.CreateComment pathID now cr w).2 = heap w).
Proof.
  cbv zeta. rewrite CreateComment_run, Create_run.
  set (c := request_comment pathID now cr).
  assert (Hexec : forall pp w0, Pg.table (db w0) = Pg.table (db w) ->
            Pg.serial (db w0) = Pg.serial (db w) -> heap w0 = heap w ->
    let out := match create_exec c pp w0 with
               | (Ok _, w2) => (Ok tt, w2)
               | (Err e, w2) => (Err (Wrapf "failed to create comment" e), w2)
               end in
    (insertable (Pg.table (db w)) (ReqParentID cr) pathID = true /\
     exists u, Pg.uuid_in pathID = Some u /\ out.1 = Ok tt /\
       Pg.table (db out.2) = Pg.table (db w) ++
         [new_row (db w) (ReqParentID cr) u (repository.newPath pp pathID) (Comment_ cr) now] /\
       Pg.serial (db out.2) = Pg.serial (db w) + 1 /\ heap out.2 = heap w) \/
    (insertable (Pg.table (db w)) (ReqParentID cr) pathID = false /\
     (exists e, out.1 = Err e) /\ Pg.table (db out.2) = Pg.table (db w) /\
     heap out.2 = heap w)).
  { intros pp w0 Ht Hs Hh. cbv zeta.
    destruct (insertable (Pg.table (db w)) (ReqParentID cr) pathID) eqn:Hi.
    - left. split; [done|].
      destruct (create_exec_ok c pp w0) as (u & Hu & E);
        [by rewrite Ht|]. rewrite E. exists u. cbn [fst snd db heap Pg.table Pg.serial].
      split; [done|]. split; [done|]. rewrite Ht, Hs, Hh.
      split; [|done]. unfold new_row. by rewrite Hs.
    - right. split; [done|].
      destruct (create_exec_err c pp w0) as (e & w' & E & Ht' & Hh' & _);
        [by rewrite Ht|]. rewrite E. cbn [fst snd]. split; [eauto|]. split; congruence. }
  cbn [ParentID c request_comment]. destruct (ReqParentID cr) as [pid|] eqn:EP.
  - destruct (Pg.select_by_id (db w) pid) as [parent|] eqn:Es.
    + destruct (Hexec (Pg.r_path parent) (with_sent w [path_stmt pid]) eq_refl eq_refl eq_refl)
        as [(Hi & u & H)|H]; [left|right; exact H].
      split; [done|]. by exists u, (Pg.r_path parent).
    + right. split.
      * apply not_true_is_false. intros [_ Hfk]%insertable_spec.
        destruct (Hfk pid eq_refl) as (r & Hr & Hid).
        destruct (select_by_id_found (db w) pid r Hr Hid) as [x Hx]. congruence.
      * cbn. eauto.
  - destruct (Hexec "" w eq_refl eq_refl eq_refl) as [(Hi & u & H)|H];
      [left|right; exact H].
    split; [done|]. by exists u, "".
Qed.

(** X1. For a comment whose text is plain (ASCII bytes other than NUL), a
    creation succeeds exactly when the text of the path id is a uuid that
    no row carries yet and the parent id, when one is given, is the id of a
    row.  A failed creation leaves the rows and the structs as they were. *)
Theorem create_succeeds_exactly_when_insertable (pathID : string) (now : Z)
    (cr : CommentRequest) (w : World) :
  plain_text (Comment_ cr) = true ->
  ((service.CreateComment pathID now cr w).1 = Ok tt <->
   (exists u, Pg.uuid_in pathID = Some u /\
              Forall (fun r => Pg.r_path_id r <> u) (Pg.table (db w))) /\
   (forall pid, ReqParentID cr = Some pid ->
                exists r, In r (Pg.table (db w)) /\ Pg.r_id r = pid)) /\
  ((service.CreateComment pathID now cr w).1 <> Ok tt ->
   Pg.table (db (service.CreateComment pathID now cr w).2) = Pg.table (db w) /\
   heap (service.CreateComment pathID now cr w).2 = heap w).
Proof.
  intros _. rewrite <- insertable_spec.
  destruct (CreateComment_outcome pathID now cr w)
    as [(Hi & u & pp & Hu & Hok & _)|(Hi & [e He] & Ht & Hh)].
  - rewrite Hok, Hi. split; [done|]. by intros [].
  - rewrite He, Hi. split; [split; intros; done|done].
Qed.

Lemma select_by_id_last tbl s r :
  Forall (fun x => Pg.r_id x <> Pg.r_id r) tbl ->
  Pg.select_by_id {| Pg.table := tbl ++ [r]; Pg.serial := s |} (Pg.r_id r) = Some r.
Proof.
  unfold Pg.select_by_id. cbn [Pg.table]. induction 1 as [|x l Hx _ IH].
  - cbn. unfold Pg.has_id. by rewrite Z.eqb_refl.
  - cbn. unfold Pg.has_id at 1. destruct (Z.eqb_spec (Pg.r_id x) (Pg.r_id r)); [done|].
    exact IH.
Qed.

(** X2. Insert, then look up.  After a successful creation on a well-formed
    table, [GetByID] of the id taken from the sequence finds the comment as
    it was stored: the parent id, the text and the time of the request, the
    uuid in its canonical form, the path built from it; the struct has no
    children yet. *)
Theorem created_comment_is_found_by_id (pathID : string) (now : Z)
    (cr : CommentRequest) (w w' : World) :
  wf_db (db w) ->
  service.CreateComment pathID now cr w = (Ok tt, w') ->
  exists u parentPath,
    Pg.uuid_in pathID = Some u /\
    repository.GetByID (Pg.serial (db w)) w'
    = (Ok (List.length (heap w')),
       {| db := db w'; sent := sent w' ++ [by_id_stmt (Pg.serial (db w))];
          heap := heap w' ++
                  [ {| ID := Pg.serial (db w); ParentID := ReqParentID cr; PathID := u;
                       Path := parentPath +:+ pathID +:+ "/"; Comm := Comment_ cr;
                       CreatedAt := now; Children := None |} ] |}).
Proof.
  intros Hwf E.
  destruct (CreateComment_outcome pathID now cr w)
    as [(Hi & u & pp & Hu & Hok & Ht & _)|(_ & [e He] & _)];
    rewrite E in *; cbn [fst snd] in *; [|done].
  exists u, pp. split; [done|]. rewrite GetByID_run.
  assert (Hs : Pg.select_by_id (db w') (Pg.serial (db w))
               = Some (new_row (db w) (ReqParentID cr) u (repository.newPath pp pathID)
                         (Comment_ cr) now)).
  { destruct (db w') as [tbl s]. cbn [Pg.table] in Ht. subst tbl.
    apply (select_by_id_last _ s (new_row _ _ _ _ _ _)).
    eapply Forall_impl; [exact (wf_range _ Hwf)|]. cbn. intros r Hr. lia. }
  rewrite Hs. reflexivity.
Qed.

End CreationOutcome.

(** ** After a deletion *)

Section AfterDeletion.
Import models.

Lemma select_by_id_outside d path c :
  NoDup (Pg.r_id <$> Pg.table d) -> In c (Pg.table d) ->
  GoString.has_prefix path (Pg.r_path c) = true ->
  Pg.select_by_id {| Pg.table := outside path (Pg.table d); Pg.serial := Pg.serial d |}
    (Pg.r_id c) = None.
Proof.
  intros Hnd Hc Hpre. apply select_by_id_none. cbn [Pg.table].
  apply Forall_forall. intros r Hr%list_elem_of_In Hid.
  apply outside_spec in Hr as [Hr Hout].
  assert (r = c) as -> by (eapply NoDup_fmap_inj; eauto).
  unfold GoString.has_prefix in Hpre. congruence.
Qed.

(** X3. After the subtree of [R] has been deleted, reading the tree of [R] or of
    any comment that was below it fails with an error that wraps
    [sql.ErrNoRows], and every other comment is still found by its id,
    unchanged. *)
Theorem deleted_subtree_is_gone_and_the_rest_stays (id : Z) (w : World) (R : Pg.Row) :
  wf_db (db w) ->
  In R (Pg.table (db w)) -> Pg.r_id R = id ->
  (service.DeleteComments id w).1 = Ok tt /\
  forall c, In c (Pg.table (db w)) ->
    if String.prefix (Pg.r_path R) (Pg.r_path c)
    then (service.GetComments (Pg.r_id c) (service.DeleteComments id w).2).1
         = Err (Wrapf "failed to get root comment" not_found) /\
         is_no_rows (Wrapf "failed to get root comment" not_found) = true
    else Pg.select_by_id (db (service.DeleteComments id w).2) (Pg.r_id c) = Some c.
Proof.
  intros Hwf Hin <-. rewrite DeleteComments_run.
  rewrite (select_by_id_unique _ _ (wf_ids _ Hwf) Hin). cbn [fst snd].
  split; [done|]. intros c Hc.
  assert (Hmeta : meta_free (GoString.bytes (Pg.r_path R)) = true).
  { pose proof (wf_paths _ Hwf) as Hp. rewrite Forall_forall in Hp.
    apply Hp. by apply list_elem_of_In. }
  destruct (String.prefix (Pg.r_path R) (Pg.r_path c)) eqn:Hpre.
  - rewrite GetComments_run. cbn [db]. rewrite delete_like_path_prefix by done.
    rewrite (select_by_id_outside _ _ _ (wf_ids _ Hwf) Hc Hpre). done.
  - cbn [db]. rewrite delete_like_path_prefix by done.
    pose proof (outside_wf (db w) (Pg.r_path R) Hwf) as Hwf'.
    apply (select_by_id_unique _ _ (wf_ids _ Hwf')). cbn [Pg.table].
    by apply outside_spec.
Qed.

Lemma outside_idem path tbl : outside path (outside path tbl) = outside path tbl.
Proof.
  unfold outside. induction tbl as [|c tbl IH]; [done|]. cbn.
  destruct (negb (GoString.has_prefix path (Pg.r_path c))) eqn:E; [|exact IH].
  cbn. by rewrite E, IH.
Qed.

Lemma outside_none path tbl :
  Forall (fun c => String.prefix path (Pg.r_path c) = false) tbl ->
  outside path tbl = tbl.
Proof.
  unfold outside, GoString.has_prefix. induction 1 as [|c tbl Hc _ IH]; [done|].
  cbn. by rewrite Hc, IH.
Qed.

(** X4. The prefix delete can be repeated: on a well-formed table, and for a
    path without LIKE metacharacters, [DeleteByPath] always succeeds, a
    second run leaves the table as the first left it, and a run for a path
    that is a prefix of no stored path changes nothing. *)
Theorem delete_by_path_is_idempotent (path : string) (w : World) :
  wf_db (db w) ->
  meta_free (GoString.bytes path) = true ->
  (repository.DeleteByPath path w).1 = Ok tt /\
  Pg.table (db (repository.DeleteByPath path w).2) = outside path (Pg.table (db w)) /\
  (repository.DeleteByPath path (repository.DeleteByPath path w).2).1 = Ok tt /\
  db (repository.DeleteByPath path (repository.DeleteByPath path w).2).2
  = db (repository.DeleteByPath path w).2 /\
  (Forall (fun c => String.prefix path (Pg.r_path c) = false) (Pg.table (db w)) ->
   db (repository.DeleteByPath path w).2 = db w).
Proof.
  intros Hwf Hmeta.
  assert (Hrun : forall w0, wf_db (db w0) ->
    repository.DeleteByPath path w0
    = (Ok tt, {| db := {| Pg.table := outside path (Pg.table (db w0));
                          Pg.serial := Pg.serial (db w0) |};
                 sent := sent w0 ++ [delete_stmt path]; heap := heap w0 |})).
  { intros w0 Hwf0. unfold repository.DeleteByPath. cbv zeta. unfold or_else.
    erewrite Exec_ok by reflexivity. by rewrite delete_like_path_prefix. }
  rewrite (Hrun w Hwf). cbn [fst snd db Pg.table].
  split; [done|]. split; [done|].
  rewrite Hrun by (by apply outside_wf). cbn [fst snd db Pg.table Pg.serial].
  split; [done|]. split; [by rewrite outside_idem|].
  intros Hnone. rewrite outside_none by done. by destruct (db w).
Qed.

End AfterDeletion.

(** ** The flat set of a subtree *)

Section FlatSet.
Import models.

Lemma ascii_compare_trans_lt a b c :
  Ascii.compare a b = Lt -> Ascii.compare b c = Lt -> Ascii.compare a c = Lt.
Proof.
  unfold Ascii.compare. rewrite !N.compare_lt_iff. lia.
Qed.

Lemma ascii_compare_refl a : Ascii.compare a a = Eq.
Proof. unfold Ascii.compare. apply N.compare_refl. Qed.

Lemma string_compare_trans_lt : forall s1 s2 s3,
  String.compare s1 s2 = Lt -> String.compare s2 s3 = Lt -> String.compare s1 s3 = Lt.
Proof.
  induction s1 as [|a s1 IH]; intros [|b s2] [|c s3]; cbn; try done.
  destruct (Ascii.compare a b) eqn:Eab; try done;
    destruct (Ascii.compare b c) eqn:Ebc; try done.
  - apply Ascii.compare_eq_iff in Eab, Ebc. subst. rewrite ascii_compare_refl. apply IH.
  - apply Ascii.compare_eq_iff in Eab. subst. by rewrite Ebc.
  - apply Ascii.compare_eq_iff in Ebc. subst. by rewrite Eab.
  - by rewrite (ascii_compare_trans_lt _ _ _ Eab Ebc).
Qed.

Lemma string_leb_cases s1 s2 :
  String.leb s1 s2 = true <-> String.compare s1 s2 = Lt \/ s1 = s2.
Proof.
  unfold String.leb. destruct (String.compare s1 s2) eqn:E.
  - apply String.compare_eq_iff in E. tauto.
  - tauto.
  - split; [done|]. intros [?| ->]; [done|].
    assert (String.compare s2 s2 = Eq); [|congruence].
    clear E. induction s2 as [|a s IH]; [done|]. cbn. by rewrite ascii_compare_refl.
Qed.

Lemma string_leb_trans s1 s2 s3 :
  String.leb s1 s2 = true -> String.leb s2 s3 = true -> String.leb s1 s3 = true.
Proof.
  rewrite !string_leb_cases. intros [H1| ->] [H2| ->]; auto.
  left. by eapply string_compare_trans_lt.
Qed.

(** The rows with a given path prefix. *)
Definition below (path : string) (tbl : list Pg.Row) : list Pg.Row :=
  List.filter (fun c => GoString.has_prefix path (Pg.r_path c)) tbl.

Definition path_descending (a b : Pg.Row) : Prop :=
  String.leb (Pg.r_path b) (Pg.r_path a) = true.

Lemma select_like_path_prefix d path :
  meta_free (GoString.bytes path) = true ->
  Permutation (Pg.select_like_path d (path +:+ "%")) (below path (Pg.table d)) /\
  StronglySorted path_descending (Pg.select_like_path d (path +:+ "%")).
Proof.
  intros Hmeta. unfold Pg.select_like_path.
  assert (Hf : List.filter (fun r => Pg.LIKE (Pg.r_path r) (path +:+ "%")) (Pg.table d)
               = below path (Pg.table d)).
  { apply filter_ext. intros r. by apply LIKE_prefix. }
  rewrite Hf. split; [apply order_by_Permutation|].
  apply (order_by_sorted (fun a b => Pg.text_le (Pg.r_path b) (Pg.r_path a))).
  - intros a b. apply String.leb_total.
  - intros a b c H1 H2. unfold Pg.text_le in *. by eapply string_leb_trans.
Qed.

(** X5. [GetChildrenByPath] for the path of a stored row returns, in fresh
    structs without children, exactly the rows whose path has that path as
    a prefix, the row itself among them, by decreasing path. *)
Theorem children_by_path_are_the_rows_below (w : World) (R : Pg.Row) :
  wf_db (db w) ->
  In R (Pg.table (db w)) ->
  exists rows,
    repository.GetChildrenByPath (Pg.r_path R) w
    = (Ok (appended None (seq (List.length (heap w)) (List.length rows))),
       {| db := db w; sent := sent w ++ [children_stmt (Pg.r_path R)];
          heap := heap w ++ List.map repository.scan_comment rows |}) /\
    Permutation rows (below (Pg.r_path R) (Pg.table (db w))) /\
    StronglySorted path_descending rows /\
    In R rows /\
    Forall (fun c => Children c = None) (List.map repository.scan_comment rows).
Proof.
  intros Hwf Hin.
  assert (Hmeta : meta_free (GoString.bytes (Pg.r_path R)) = true).
  { pose proof (wf_paths _ Hwf) as Hp. rewrite Forall_forall in Hp.
    apply Hp. by apply list_elem_of_In. }
  destruct (select_like_path_prefix (db w) (Pg.r_path R) Hmeta) as [Hperm Hsort].
  exists (Pg.select_like_path (db w) (Pg.r_path R +:+ "%")).
  split; [apply GetChildrenByPath_run|]. split; [done|]. split; [done|]. split.
  - apply (Permutation_in _ (Permutation_sym Hperm)). apply filter_In.
    split; [done|]. apply prefix_refl.
  - apply Forall_forall. intros c Hc%list_elem_of_In. apply in_map_iff in Hc as (r & <- & _).
    done.
Qed.

(** *** The structs of the flat set and the rows they were scanned from *)

Definition subtree_rows (w : World) (R : Pg.Row) : list Pg.Row :=
  Pg.select_like_path (db w) (Pg.r_path R +:+ "%").

Definition subtree_ptrs (w : World) (R : Pg.Row) : list ptr :=
  seq (S (List.length (heap w))) (List.length (subtree_rows w R)).

Lemma fetched_lookup w R k :
  fetched w R !! (S (List.length (heap w)) + k)%nat
  = repository.scan_comment <$> subtree_rows w R !! k.
Proof.
  unfold fetched. rewrite lookup_app_r by lia.
  replace (S (List.length (heap w)) + k - List.length (heap w))%nat with (S k) by lia.
  cbn [lookup list_lookup]. unfold subtree_rows.
  change (List.map repository.scan_comment
            (Pg.select_like_path (db w) (Pg.r_path R +:+ "%")))
    with (repository.scan_comment <$> Pg.select_like_path (db w) (Pg.r_path R +:+ "%")).
  exact (list_lookup_fmap _ _ _).
Qed.

Lemma fetched_root w R : fetched w R !! List.length (heap w) = Some (repository.scan_comment R).
Proof. unfold fetched. rewrite lookup_app_r by lia. by rewrite Nat.sub_diag. Qed.

(** Address and row at the same position. *)
Definition scanned_from (w : World) (R : Pg.Row) (p : ptr) (r : Pg.Row) : Prop :=
  fetched w R !! p = Some (repository.scan_comment r).

Lemma subtree_zip w R : Forall2 (scanned_from w R) (subtree_ptrs w R) (subtree_rows w R).
Proof.
  apply Forall2_same_length_lookup. split; [unfold subtree_ptrs; by rewrite length_seq|].
  intros k p r Hp Hr. unfold subtree_ptrs in Hp. apply lookup_seq in Hp as [-> _].
  unfold scanned_from. by rewrite fetched_lookup, Hr.
Qed.

Lemma fetched_all_ptrs w R : default [] (fetched_all w R) = subtree_ptrs w R.
Proof. unfold fetched_all. apply appended_None_default. Qed.

Lemma Forall2_filter_rel {A B} (Rl : A -> B -> Prop) (P : A -> Prop) (Q : B -> bool)
    `{forall x, Decision (P x)} l rs :
  Forall2 Rl l rs ->
  (forall a b, Rl a b -> (P a <-> Q b = true)) ->
  Forall2 Rl (filter P l) (List.filter Q rs).
Proof.
  intros HF Heq. induction HF as [|a b l rs Hab _ IH]; [constructor|].
  rewrite filter_cons. cbn [List.filter]. destruct (Q b) eqn:Eb.
  - rewrite decide_True by (by apply (Heq a b Hab)). by constructor.
  - rewrite decide_False; [done|]. rewrite (Heq a b Hab). congruence.
Qed.

Lemma Permutation_List_filter {A} (f : A -> bool) l l' :
  Permutation l l' -> Permutation (List.filter f l) (List.filter f l').
Proof.
  induction 1 as [|x l l' _ IH|x y l|l l' l'' _ IH1 _ IH2]; cbn.
  - done.
  - destruct (f x); [by constructor|done].
  - destruct (f x), (f y); try done. apply perm_swap.
  - by etrans.
Qed.

Lemma filter_absorb {A} (f g : A -> bool) l :
  (forall x, In x l -> f x = true -> g x = true) ->
  List.filter f (List.filter g l) = List.filter f l.
Proof.
  induction l as [|x l IH]; [done|]. intros H. cbn.
  destruct (g x) eqn:Eg; cbn.
  - destruct (f x); [f_equal|]; apply IH; intros y Hy; apply H; by apply in_cons.
  - destruct (f x) eqn:Ef.
    + rewrite (H x (in_eq _ _) Ef) in Eg. done.
    + apply IH. intros y Hy. apply H. by apply in_cons.
Qed.

(** The struct at [k] carries the row [r]. *)
Definition holds_row (h : list Comment) (k : ptr) (r : Pg.Row) : Prop :=
  strip <$> h !! k = Some (repository.scan_comment r).

(** The replies to the comment [i]. *)
Definition replies_to (i : Z) (c : Pg.Row) : bool :=
  match Pg.r_parent_id c with Some pid => pid =? i | None => false end.

Section Subtree.
Variables (w : World) (R : Pg.Row).
Hypothesis Hwf : wf_db (db w).
Hypothesis HR : In R (Pg.table (db w)).

Let rows := subtree_rows w R.
Let all := subtree_ptrs w R.
Let h0 := fetched w R.

Lemma subtree_rows_below : Permutation rows (below (Pg.r_path R) (Pg.table (db w))).
Proof.
  apply select_like_path_prefix.
  pose proof (wf_paths _ Hwf) as Hp. rewrite Forall_forall in Hp.
  apply Hp. by apply list_elem_of_In.
Qed.

Lemma subtree_row_in r :
  In r rows -> In r (Pg.table (db w)) /\ String.prefix (Pg.r_path R) (Pg.r_path r) = true.
Proof.
  intros Hr. apply (Permutation_in _ subtree_rows_below) in Hr.
  by apply filter_In in Hr.
Qed.

Lemma subtree_has_root : In R rows.
Proof.
  apply (Permutation_in _ (Permutation_sym subtree_rows_below)).
  apply filter_In. split; [done|apply prefix_refl].
Qed.

Lemma subtree_ids_NoDup : NoDup (Pg.r_id <$> rows).
Proof.
  rewrite subtree_rows_below. apply NoDup_fmap_filter. apply (wf_ids _ Hwf).
Qed.

Lemma subtree_ids_unique : ids_unique h0 all.
Proof.
  apply ids_unique_of_NoDup.
  assert (E : id_at h0 <$> all = (fun r => Some (Pg.r_id r)) <$> rows).
  { subst h0 all rows. unfold fetched, subtree_ptrs.
    pose proof (scanned_ids (heap w ++ [repository.scan_comment R]) (subtree_rows w R)) as H.
    rewrite length_app in H. cbn [List.length] in H. rewrite Nat.add_1_r in H.
    rewrite <- app_assoc in H. exact H. }
  rewrite E. rewrite (list_fmap_compose Pg.r_id Some).
  apply NoDup_fmap_2; [apply _|]. apply subtree_ids_NoDup.
Qed.

Lemma scanned_id_at p r : scanned_from w R p r -> id_at h0 p = Some (Pg.r_id r).
Proof. unfold scanned_from, id_at. subst h0. by intros ->. Qed.

Lemma scanned_parent_at p r : scanned_from w R p r -> parent_at h0 p = Pg.r_parent_id r.
Proof. unfold scanned_from, parent_at. subst h0. by intros ->. Qed.

(** In the flat set, the second loop hangs a struct under [q] exactly when
    its row is a reply to the row of [q]. *)
Lemma linked_replies q rq :
  q ∈ all -> scanned_from w R q rq ->
  Forall2 (scanned_from w R) (linked h0 all q) (List.filter (replies_to (Pg.r_id rq)) rows).
Proof.
  intros Hq Hrq. unfold linked, children_in.
  apply Forall2_filter_rel; [apply subtree_zip|].
  intros p r Hpr. unfold parent_ptr. rewrite build_map_parent_at.
  fold h0. rewrite (scanned_parent_at p r Hpr). unfold replies_to.
  destruct (Pg.r_parent_id r) as [pid|]; [|done]. split.
  - intros [_ Hid]%build_map_lookup. fold h0 in Hid.
    rewrite (scanned_id_at q rq Hrq) in Hid. injection Hid as <-. apply Z.eqb_refl.
  - intros ->%Z.eqb_eq.
    apply (build_map_unique h0 all q (repository.scan_comment rq)
             subtree_ids_unique Hq Hrq).
Qed.

Lemma replies_in_subtree rq :
  In rq rows ->
  Permutation (List.filter (replies_to (Pg.r_id rq)) rows)
              (List.filter (replies_to (Pg.r_id rq)) (Pg.table (db w))).
Proof.
  intros Hrq. rewrite (Permutation_List_filter _ _ _ subtree_rows_below).
  unfold below. rewrite filter_absorb; [done|].
  intros c Hc Hrep. unfold replies_to in Hrep.
  destruct (Pg.r_parent_id c) as [pid|] eqn:Ep; [|done]. apply Z.eqb_eq in Hrep as ->.
  pose proof (wf_parents _ Hwf) as Hpar. rewrite Forall_forall in Hpar.
  specialize (Hpar c (proj2 (list_elem_of_In _ _) Hc)). unfold parent_ok in Hpar.
  rewrite Ep in Hpar. destruct Hpar as (r' & Hr' & Hid & Hpre & _).
  destruct (subtree_row_in rq Hrq) as [Hin Hpq].
  assert (r' = rq) as -> by (eapply NoDup_fmap_inj; eauto using wf_ids).
  unfold GoString.has_prefix. by eapply prefix_trans.
Qed.

Lemma no_self_reply r : In r (Pg.table (db w)) -> replies_to (Pg.r_id r) r = false.
Proof.
  intros Hr. unfold replies_to. destruct (Pg.r_parent_id r) as [pid|] eqn:Ep; [|done].
  pose proof (wf_parents _ Hwf) as Hpar. rewrite Forall_forall in Hpar.
  specialize (Hpar r (proj2 (list_elem_of_In _ _) Hr)). unfold parent_ok in Hpar.
  rewrite Ep in Hpar. destruct Hpar as (_ & _ & _ & _ & Hlt). apply Z.eqb_neq. lia.
Qed.

Lemma subtree_ptr_row q : q ∈ all -> exists rq, In rq rows /\ scanned_from w R q rq.
Proof.
  intros [k Hk]%list_elem_of_lookup_1.
  destruct (Forall2_lookup_l _ _ _ k q (subtree_zip w R) Hk) as (rq & Hr & Hs).
  exists rq. split; [|done]. apply list_elem_of_In. by eapply list_elem_of_lookup_2.
Qed.

(** The assembly changes nothing but the children. *)
Lemma assemble_strip id root allc h k :
  strip <$> (service.assemble id root allc h).2 !! k = strip <$> h !! k.
Proof.
  destruct (le_lt_dec (List.length (default [] allc)) 1) as [Hs|Hl].
  - rewrite assemble_small by done. cbn [snd].
    destruct (decide (k = root)) as [->|Hne].
    + rewrite list_lookup_alter_eq. by destruct (h !! root).
    + by rewrite list_lookup_alter_ne.
  - destruct allc as [l|]; simpl in Hl; [|lia].
    rewrite assemble_large by lia. cbn [snd]. rewrite assembled_lookup.
    case_decide; [|done]. by destruct (h !! k).
Qed.

Lemma subtree_small : (List.length rows <= 1)%nat -> rows = [R].
Proof.
  intros Hlen. pose proof subtree_has_root as Hin.
  destruct rows as [|a [|b l]]; cbn in *; [done| |lia].
  by destruct Hin as [->|[]].
Qed.

Lemma subtree_root_ptr : exists q0, q0 ∈ all /\ scanned_from w R q0 R.
Proof.
  pose proof subtree_has_root as Hin. apply list_elem_of_In in Hin.
  apply list_elem_of_lookup_1 in Hin as [k Hk].
  destruct (Forall2_lookup_r _ _ _ k R (subtree_zip w R) Hk) as (q0 & Hq & Hs).
  exists q0. split; [by eapply list_elem_of_lookup_2|done].
Qed.

Lemma linked_in_flat_set q : Forall (fun k => k ∈ all) (linked h0 all q).
Proof.
  apply Forall_forall. intros k Hk. unfold linked, children_in in Hk.
  by apply list_elem_of_filter in Hk as [_ ?].
Qed.

(** What the assembly leaves on the heap, for the root and for every struct
    of the flat set. *)
Lemma assemble_subtree :
  let res := service.assemble (Pg.r_id R) (List.length (heap w)) (fetched_all w R) h0 in
  (exists kids,
     strip <$> res.2 !! res.1 = Some (repository.scan_comment R) /\
     Children <$> res.2 !! res.1 = Some (Some kids) /\
     Forall (fun k => k ∈ all) kids /\
     Forall2 (scanned_from w R) kids (List.filter (replies_to (Pg.r_id R)) rows)) /\
  (forall q, q ∈ all ->
     exists rq c,
       In rq rows /\ res.2 !! q = Some c /\ strip c = repository.scan_comment rq /\
       Forall (fun k => k ∈ all) (default [] (Children c)) /\
       Forall2 (scanned_from w R) (default [] (Children c))
         (List.filter (replies_to (Pg.r_id rq)) rows)).
Proof.
  cbv zeta.
  assert (Hall : default [] (fetched_all w R) = all) by apply fetched_all_ptrs.
  assert (Hlen : List.length all = List.length rows)
    by (subst all; unfold subtree_ptrs; by rewrite length_seq).
  destruct (le_lt_dec (List.length rows) 1) as [Hs|Hl].
  - rewrite assemble_small by (rewrite Hall; lia). cbn [fst snd].
    pose proof (subtree_small Hs) as Erows. split.
    + exists []. rewrite list_lookup_alter_eq. subst h0. rewrite fetched_root. cbn.
      split; [done|]. split; [done|]. split; [constructor|].
      rewrite Erows. cbn. by rewrite (no_self_reply R HR).
    + intros q Hq. destruct (subtree_ptr_row q Hq) as (rq & Hrq & Hsq).
      exists rq, (repository.scan_comment rq). split; [done|].
      rewrite list_lookup_alter_ne.
      2:{ subst all. unfold subtree_ptrs in Hq. apply elem_of_seq in Hq. lia. }
      split; [exact Hsq|]. split; [done|]. cbn. split; [constructor|].
      rewrite Erows in Hrq |- *. destruct Hrq as [<-|[]]. cbn.
      by rewrite (no_self_reply R HR).
  - assert (Hne : all <> []) by (intros E; rewrite E in Hlen; cbn in Hlen; lia).
    assert (Hsome : fetched_all w R = Some all) by exact (appended_some None all Hne).
    rewrite Hsome, assemble_large by lia. cbn [fst snd].
    assert (Hnode : forall q rq, q ∈ all -> scanned_from w R q rq ->
      assembled h0 all !! q
      = Some (set_Children (repository.scan_comment rq) (Some (linked h0 all q)))).
    { intros q rq Hq Hsq. rewrite assembled_lookup, decide_True by done.
      unfold scanned_from in Hsq. fold h0 in Hsq. by rewrite Hsq. }
    split.
    + destruct subtree_root_ptr as (q0 & Hq0 & Hs0).
      pose proof (build_map_unique h0 all q0 (repository.scan_comment R)
                    subtree_ids_unique Hq0 Hs0) as Hm.
      cbn [ID repository.scan_comment] in Hm. rewrite Hm.
      change (default (List.length (heap w)) (Some q0)) with q0.
      exists (linked h0 all q0). rewrite (Hnode q0 R Hq0 Hs0). cbn.
      split; [done|]. split; [done|]. split; [apply linked_in_flat_set|].
      by apply linked_replies.
    + intros q Hq. destruct (subtree_ptr_row q Hq) as (rq & Hrq & Hsq).
      exists rq, (set_Children (repository.scan_comment rq) (Some (linked h0 all q))).
      split; [done|]. split; [by apply Hnode|]. split; [done|]. cbn.
      split; [apply linked_in_flat_set|]. by apply linked_replies.
Qed.

Lemma assemble_subtree_finite :
  let res := service.assemble (Pg.r_id R) (List.length (heap w)) (fetched_all w R) h0 in
  is_Some (tree_of (S (List.length rows)) res.2 res.1).
Proof.
  cbv zeta.
  assert (Hall : default [] (fetched_all w R) = all) by apply fetched_all_ptrs.
  assert (Hlen : List.length all = List.length rows)
    by (subst all; unfold subtree_ptrs; by rewrite length_seq).
  destruct (le_lt_dec (List.length rows) 1) as [Hs|Hl].
  - rewrite assemble_small by (rewrite Hall; lia). cbn [fst snd tree_of].
    rewrite list_lookup_alter_eq. subst h0. rewrite fetched_root. cbn. eauto.
  - assert (Hne : all <> []) by (intros E; rewrite E in Hlen; cbn in Hlen; lia).
    assert (Hsome : fetched_all w R = Some all) by exact (appended_some None all Hne).
    rewrite Hsome, assemble_large by lia. cbn [fst snd].
    destruct subtree_root_ptr as (q0 & Hq0 & Hs0).
    pose proof (build_map_unique h0 all q0 (repository.scan_comment R)
                  subtree_ids_unique Hq0 Hs0) as Hm.
    cbn [ID repository.scan_comment] in Hm. rewrite Hm.
    change (default (List.length (heap w)) (Some q0)) with q0.
    rewrite <- Hlen. apply tree_of_defined; [apply subtree_ids_unique| | |done].
    + apply Forall_forall. intros q Hq. destruct (subtree_ptr_row q Hq) as (rq & _ & Hsq).
      unfold scanned_from in Hsq. fold h0 in Hsq. rewrite Hsq. eauto.
    + intros q i pid Hq Hi Hp. destruct (subtree_ptr_row q Hq) as (rq & Hrq & Hsq).
      rewrite (scanned_id_at q rq Hsq) in Hi. injection Hi as <-.
      rewrite (scanned_parent_at q rq Hsq) in Hp.
      destruct (subtree_row_in rq Hrq) as [Hin _].
      pose proof (wf_parents _ Hwf) as Hpar. rewrite Forall_forall in Hpar.
      specialize (Hpar rq (proj2 (list_elem_of_In _ _) Hin)). unfold parent_ok in Hpar.
      rewrite Hp in Hpar. by destruct Hpar as (_ & _ & _ & _ & Hlt).
Qed.

End Subtree.

Lemma scanned_holds w R id root allc k r :
  scanned_from w R k r -> holds_row (service.assemble id root allc (fetched w R)).2 k r.
Proof.
  unfold scanned_from, holds_row. intros H. by rewrite assemble_strip, H.
Qed.

(** X6. The tree that [GetComments] returns for a stored comment is the
    stored subtree.  The struct returned carries the row of the requested
    id and a non-nil list of children; every struct of the flat set carries
    a row whose path has the path of the root as a prefix; and the children
    of each struct are structs of the flat set that carry, one for one and
    in the order of the query, the rows that are replies to its row.  Those
    are all the replies to it that the table holds. *)
Theorem get_comments_returns_the_stored_subtree (w : World) (R : Pg.Row) :
  wf_db (db w) ->
  In R (Pg.table (db w)) ->
  exists p w',
    service.GetComments (Pg.r_id R) w = (Ok p, w') /\
    (exists kids,
       holds_row (heap w') p R /\
       Children <$> heap w' !! p = Some (Some kids) /\
       Forall (fun k => k ∈ subtree_ptrs w R) kids /\
       Forall2 (holds_row (heap w')) kids
         (List.filter (replies_to (Pg.r_id R)) (subtree_rows w R))) /\
    (forall q, q ∈ subtree_ptrs w R ->
       exists rq c,
         In rq (subtree_rows w R) /\ heap w' !! q = Some c /\
         strip c = repository.scan_comment rq /\
         Forall (fun k => k ∈ subtree_ptrs w R) (default [] (Children c)) /\
         Forall2 (holds_row (heap w')) (default [] (Children c))
           (List.filter (replies_to (Pg.r_id rq)) (subtree_rows w R))) /\
    (forall rq, In rq (subtree_rows w R) ->
       In rq (Pg.table (db w)) /\
       String.prefix (Pg.r_path R) (Pg.r_path rq) = true /\
       Permutation (List.filter (replies_to (Pg.r_id rq)) (subtree_rows w R))
                   (List.filter (replies_to (Pg.r_id rq)) (Pg.table (db w)))).
Proof.
  intros Hwf HR.
  rewrite GetComments_run, (select_by_id_unique _ _ (wf_ids _ Hwf) HR).
  do 2 eexists. split; [reflexivity|]. cbn [heap].
  destruct (assemble_subtree w R Hwf HR) as [(kids & Hk1 & Hk2 & Hk3 & Hk4) Hnodes].
  split; [|split].
  - exists kids. split; [exact Hk1|]. split; [exact Hk2|]. split; [exact Hk3|].
    eapply Forall2_impl; [exact Hk4|]. intros k r. apply scanned_holds.
  - intros q Hq. destruct (Hnodes q Hq) as (rq & c & H1 & H2 & H3 & H4 & H5).
    exists rq, c. repeat (split; [done|]).
    eapply Forall2_impl; [exact H5|]. intros k r. apply scanned_holds.
  - intros rq Hrq. destruct (subtree_row_in w R Hwf HR rq Hrq) as [? ?].
    split; [done|]. split; [done|]. by apply replies_in_subtree.
Qed.

(** X7. The tree returned for a stored comment is finite: unfolding it through
    as many levels as the subtree has comments, and one more, reaches every
    leaf. *)
Theorem get_comments_tree_is_finite (w : World) (R : Pg.Row) :
  wf_db (db w) ->
  In R (Pg.table (db w)) ->
  exists p w' t,
    service.GetComments (Pg.r_id R) w = (Ok p, w') /\
    tree_of (S (List.length (subtree_rows w R))) (heap w') p = Some t.
Proof.
  intros Hwf HR.
  rewrite GetComments_run, (select_by_id_unique _ _ (wf_ids _ Hwf) HR).
  destruct (assemble_subtree_finite w R Hwf HR) as [t Ht].
  do 3 eexists. split; [reflexivity|]. exact Ht.
Qed.

(** X8. On every state the program reaches, a tree that [GetComments] returns
    has the requested id at its root and a children slice that is not
    nil: the return at the end of the function, which hands back the root
    as it was fetched, is not taken with two or more records. *)
Theorem reachable_trees_have_non_nil_children (w : World) (id : Z) (p : ptr) (w' : World) :
  reachable w ->
  service.GetComments id w = (Ok p, w') ->
  exists c kids, heap w' !! p = Some c /\ ID c = id /\ Children c = Some kids.
Proof.
  intros Hreach E. pose proof (reachable_wf w Hreach) as Hwf.
  rewrite GetComments_run in E.
  destruct (Pg.select_by_id (db w) id) as [R|] eqn:Es; [|done].
  apply select_by_id_some in Es as [HR <-].
  destruct (assemble_subtree w R Hwf HR) as [(kids & Hk1 & Hk2 & _) _].
  injection E as <- <-. cbn [heap].
  destruct (_ !! _) as [c|] eqn:Ec; [|done].
  exists c, kids. split; [done|]. cbn in Hk1, Hk2. injection Hk1 as Hk1. injection Hk2 as Hk2.
  by split.
Qed.



End FlatSet.

(** ** The paths of the table are materialized paths *)

Section Materialized.
Import models.

(** The path of a row is the path of its parent, the text of its own path
    id and the separator; a top-level row has no parent path. *)
Definition path_ok (tbl : list Pg.Row) (c : Pg.Row) : Prop :=
  exists s,
    Pg.uuid_in s = Some (Pg.r_path_id c) /\
    match Pg.r_parent_id c with
    | None => Pg.r_path c = s +:+ "/"
    | Some pid =>
        exists r, In r tbl /\ Pg.r_id r = pid /\ Pg.r_path c = Pg.r_path r +:+ s +:+ "/"
    end.

Definition materialized (tbl : list Pg.Row) : Prop :=
  NoDup (Pg.r_path_id <$> tbl) /\ Forall (path_ok tbl) tbl.

Lemma path_ok_app tbl extra c : path_ok tbl c -> path_ok (tbl ++ extra) c.
Proof.
  intros (s & Hs & H). exists s. split; [done|].
  destruct (Pg.r_parent_id c) as [pid|]; [|done].
  destruct H as (r & Hr & H). exists r. split; [|done]. apply in_or_app. by left.
Qed.

(** What a creation does to the table. *)
Lemma CreateComment_table pathID now cr w :
  let w' := (service.CreateComment pathID now cr w).2 in
  Pg.table (db w') = Pg.table (db w) \/
  exists u parentPath,
    Pg.uuid_in pathID = Some u /\
    Forall (fun r => Pg.r_path_id r <> u) (Pg.table (db w)) /\
    Pg.table (db w')
    = Pg.table (db w) ++
      [new_row (db w) (ReqParentID cr) u (repository.newPath parentPath pathID)
         (Comment_ cr) now] /\
    match ReqParentID cr with
    | None => parentPath = ""
    | Some pid =>
        exists r, In r (Pg.table (db w)) /\ Pg.r_id r = pid /\ Pg.r_path r = parentPath
    end.
Proof.
  cbv zeta. rewrite CreateComment_run, Create_run.
  set (c := request_comment pathID now cr).
  assert (Hexec : forall pp w0, Pg.table (db w0) = Pg.table (db w) ->
            Pg.serial (db w0) = Pg.serial (db w) ->
    let out := match create_exec c pp w0 with
               | (Ok _, w2) => (Ok tt, w2)
               | (Err e, w2) => (Err (Wrapf "failed to create comment" e), w2)
               end in
    Pg.table (db out.2) = Pg.table (db w) \/
    exists u, Pg.uuid_in pathID = Some u /\
      Forall (fun r => Pg.r_path_id r <> u) (Pg.table (db w)) /\
      Pg.table (db out.2) = Pg.table (db w) ++
        [new_row (db w) (ReqParentID cr) u (repository.newPath pp pathID) (Comment_ cr) now]).
  { intros pp w0 Ht Hs. cbv zeta.
    destruct (insertable (Pg.table (db w)) (ReqParentID cr) pathID) eqn:Hi.
    - right. destruct (create_exec_ok c pp w0) as (u & Hu & E); [by rewrite Ht|].
      rewrite E. exists u. cbn [fst snd db Pg.table]. split; [done|].
      apply insertable_spec in Hi as [(u' & Hu' & Hfresh) _].
      cbn [PathID c request_comment] in Hu. rewrite Hu in Hu'. injection Hu' as <-.
      split; [done|]. rewrite Ht. unfold new_row. by rewrite Hs.
    - left. destruct (create_exec_err c pp w0) as (e & w' & E & Ht' & _); [by rewrite Ht|].
      rewrite E. cbn [snd]. congruence. }
  cbn [ParentID c request_comment]. destruct (ReqParentID cr) as [pid|] eqn:EP.
  - destruct (Pg.select_by_id (db w) pid) as [parent|] eqn:Es; [|by left].
    apply select_by_id_some in Es as [Hin Hid].
    destruct (Hexec (Pg.r_path parent) (with_sent w [path_stmt pid]) eq_refl eq_refl)
      as [H|(u & Hu & Hf & H)]; [by left|right].
    exists u, (Pg.r_path parent). repeat (split; [done|]). by exists parent.
  - destruct (Hexec "" w eq_refl eq_refl) as [H|(u & Hu & Hf & H)]; [by left|right].
    by exists u, "".
Qed.

Lemma CreateComment_materialized pathID now cr w :
  materialized (Pg.table (db w)) ->
  materialized (Pg.table (db (service.CreateComment pathID now cr w).2)).
Proof.
  intros [Hnd Hp].
  destruct (CreateComment_table pathID now cr w) as [->|(u & pp & Hu & Hfresh & -> & Hpar)];
    [done|].
  split.
  - rewrite fmap_app. apply NoDup_app. split; [done|]. split; [|apply NoDup_singleton].
    intros x Hx Hx2. cbn in Hx2. apply list_elem_of_singleton in Hx2 as ->.
    apply list_elem_of_fmap in Hx as (r & Hr1 & Hr2).
    rewrite Forall_forall in Hfresh. by apply (Hfresh r Hr2).
  - apply Forall_app. split.
    + eapply Forall_impl; [exact Hp|]. intros c. apply path_ok_app.
    + constructor; [|constructor]. exists pathID. cbn [new_row Pg.r_path_id]. split; [done|].
      cbn [Pg.r_parent_id Pg.r_path]. destruct (ReqParentID cr) as [pid|].
      * destruct Hpar as (r & Hr & Hid & <-). exists r. split; [|done].
        apply in_or_app. by left.
      * by subst pp.
Qed.

Lemma outside_materialized path tbl :
  materialized tbl -> materialized (outside path tbl).
Proof.
  intros [Hnd Hp]. unfold outside. split; [by apply NoDup_fmap_filter|].
  apply Forall_forall. intros c Hc%list_elem_of_In. apply filter_In in Hc as [Hc Hout].
  rewrite Forall_forall in Hp. destruct (Hp c (proj2 (list_elem_of_In _ _) Hc)) as (s & Hs & H).
  exists s. split; [done|]. destruct (Pg.r_parent_id c) as [pid|]; [|done].
  destruct H as (r & Hr & Hid & Hpath). exists r. split; [|done].
  apply filter_In. split; [done|]. apply negb_true_iff. apply negb_true_iff in Hout.
  unfold GoString.has_prefix in *.
  destruct (String.prefix path (Pg.r_path r)) eqn:E; [|done].
  rewrite Hpath in Hout. by rewrite (prefix_trans _ _ _ E (prefix_append _ _)) in Hout.
Qed.

Lemma DeleteComments_materialized id w :
  wf_db (db w) -> materialized (Pg.table (db w)) ->
  materialized (Pg.table (db (service.DeleteComments id w).2)).
Proof.
  intros Hwf Hm. rewrite DeleteComments_run.
  destruct (Pg.select_by_id (db w) id) as [r|] eqn:E; [|done].
  cbn [snd db]. rewrite delete_like_path_prefix; [by apply outside_materialized|done|].
  apply select_by_id_some in E as [Hin _].
  pose proof (wf_paths _ Hwf) as Hp. rewrite Forall_forall in Hp.
  apply Hp. by apply list_elem_of_In.
Qed.

Lemma GetComments_db id w : db (service.GetComments id w).2 = db w.
Proof. rewrite GetComments_run. by destruct (Pg.select_by_id (db w) id). Qed.

Lemma GetAllCommentTrees_db U page limit sortBy sortOrder w :
  db (service.GetAllCommentTrees U page limit sortBy sortOrder w).2 = db w.
Proof.
  pose proof (GetAllCommentTrees_run U page limit sortBy sortOrder w) as H.
  cbv zeta in H. destruct (Pg.select_top_level _ _ _ _ _).
  - destruct H as (trees & w1 & E & Hdb & _). by rewrite E.
  - by rewrite H.
Qed.

Lemma SearchComments_db query w : db (service.SearchComments query w).2 = db w.
Proof.
  unfold service.SearchComments.
  destruct (String.length (GoString.TrimSpace query) <? 3)%nat; [done|].
  by rewrite SearchByText_run.
Qed.

Lemma step_materialized w w' :
  step w w' -> wf_db (db w) -> materialized (Pg.table (db w)) ->
  materialized (Pg.table (db w')).
Proof.
  intros [pathID now cr w0|decoded pathID now w0|id w0|id w0|U page limit sb so w0|q w0] Hwf Hm.
  - by apply CreateComment_materialized.
  - unfold handlers.CreateComment. destruct decoded as [cr|e]; [|done].
    destruct (String.eqb (Comment_ cr) ""); [done|].
    pose proof (CreateComment_materialized pathID now cr w0 Hm) as H.
    by destruct (service.CreateComment pathID now cr w0) as [[u|e] w1].
  - by rewrite GetComments_db.
  - by apply DeleteComments_materialized.
  - by rewrite GetAllCommentTrees_db.
  - by rewrite SearchComments_db.
Qed.

Lemma reachable_materialized w : reachable w -> materialized (Pg.table (db w)).
Proof.
  induction 1 as [|w w' Hreach IH Hs].
  - split; [constructor|constructor].
  - eapply step_materialized; [exact Hs|by apply reachable_wf|exact IH].
Qed.

(** X9. Whatever requests the program has served since the empty table, the
    path column is a materialized path: no two rows carry the same path id,
    the path of a top-level row is the text of its path id followed by the
    separator, and the path of a reply is the path of the row it replies
    to, which is in the table, followed by the text of its own path id and
    the separator. *)
Theorem reachable_paths_are_materialized (w : World) :
  reachable w ->
  NoDup (Pg.r_path_id <$> Pg.table (db w)) /\
  forall c, In c (Pg.table (db w)) ->
    exists s,
      Pg.uuid_in s = Some (Pg.r_path_id c) /\
      match Pg.r_parent_id c with
      | None => Pg.r_path c = s +:+ "/"
      | Some pid =>
          exists r, In r (Pg.table (db w)) /\ Pg.r_id r = pid /\
                    Pg.r_path c = Pg.r_path r +:+ s +:+ "/"
      end.
Proof.
  intros Hreach. destruct (reachable_materialized w Hreach) as [Hnd Hp].
  split; [done|]. intros c Hc.
  rewrite Forall_forall in Hp. apply Hp. by apply list_elem_of_In.
Qed.

End Materialized.

(** ** A page of trees *)

Section Listing.
Import models.

(** A struct that carries the row [r] and a children slice that is not
    nil. *)
Definition tree_root (h : list Comment) (t : ptr) (r : Pg.Row) : Prop :=
  exists c kids, h !! t = Some c /\ strip c = repository.scan_comment r /\
                 Children c = Some kids.

Definition tree_stmts (r : Pg.Row) : list stmt :=
  [by_id_stmt (Pg.r_id r); children_stmt (Pg.r_path r)].

Lemma GetComments_stored w R :
  wf_db (db w) -> In R (Pg.table (db w)) ->
  exists p w',
    service.GetComments (Pg.r_id R) w = (Ok p, w') /\
    db w' = db w /\
    sent w' = sent w ++ tree_stmts R /\
    tree_root (heap w') p R /\
    (List.length (heap w) <= List.length (heap w'))%nat /\
    forall q, (q < List.length (heap w))%nat -> heap w' !! q = heap w !! q.
Proof.
  intros Hwf HR.
  destruct (GetComments_ok (Pg.r_id R) w R (select_by_id_unique _ _ (wf_ids _ Hwf) HR))
    as (p & w' & E & Hdb & _ & Hlen & Hpre).
  exists p, w'. split; [exact E|]. split; [exact Hdb|].
  rewrite GetComments_run, (select_by_id_unique _ _ (wf_ids _ Hwf) HR) in E.
  injection E as <- <-. cbn [sent heap]. split; [done|]. split; [|by split].
  destruct (assemble_subtree w R Hwf HR) as [(kids & Hk1 & Hk2 & _) _].
  destruct (_ !! _) as [c|] eqn:Ec; [|done].
  exists c, kids. cbn in Hk1, Hk2. by simplify_eq.
Qed.

Lemma build_trees_rows rows : forall tops acc w,
  wf_db (db w) ->
  Forall (fun r => In r (Pg.table (db w))) rows ->
  Forall2 (fun p r => strip <$> heap w !! p = Some (repository.scan_comment r)) tops rows ->
  exists trees w',
    service.build_trees tops acc w = (Ok (appended acc trees), w') /\
    db w' = db w /\
    sent w' = sent w ++ flat_map tree_stmts rows /\
    Forall2 (tree_root (heap w')) trees rows /\
    (List.length (heap w) <= List.length (heap w'))%nat /\
    forall q, (q < List.length (heap w))%nat -> heap w' !! q = heap w !! q.
Proof.
  induction rows as [|r rows IH]; intros tops acc w Hwf Hin Ht.
  - apply Forall2_nil_inv_r in Ht as ->. exists [], w. cbn. rewrite app_nil_r.
    repeat split; auto.
  - apply Forall2_cons_inv_r in Ht as (p & tops' & Hp & Ht & ->).
    apply Forall_cons in Hin as [Hr Hin].
    destruct (heap w !! p) as [c|] eqn:Hc; [|done]. cbn in Hp. injection Hp as Hid _ _ _ _ _.
    cbn [service.build_trees]. unfold bind at 1, load at 1. rewrite Hc.
    rewrite Hid.
    destruct (GetComments_stored w r Hwf Hr) as (t & w1 & E & Hdb & Hsent & Hroot & Hlen & Hpre).
    rewrite E.
    destruct (IH tops' (append acc t) w1) as (trees & w' & E' & Hdb' & Hsent' & Hroots & Hl' & Hpre').
    { by rewrite Hdb. }
    { by rewrite Hdb. }
    { eapply Forall2_impl; [exact Ht|]. intros q rq Hq. cbv beta in Hq |- *.
      rewrite Hpre; [exact Hq|].
      destruct (heap w !! q) eqn:Eq; [|done]. by eapply lookup_lt_Some. }
    exists (t :: trees), w'. rewrite E'. split; [reflexivity|].
    split; [congruence|]. split.
    { rewrite Hsent', Hsent. cbn [flat_map]. by rewrite <- app_assoc. }
    split.
    { constructor; [|done]. destruct Hroot as (c0 & kids & H0 & H1 & H2).
      exists c0, kids. split; [|done]. rewrite Hpre'; [done|]. by eapply lookup_lt_Some. }
    split; [lia|]. intros q Hq. rewrite Hpre' by lia. by apply Hpre.
Qed.

Lemma scanned_rows h rows :
  Forall2 (fun p r => strip <$> (h ++ List.map repository.scan_comment rows) !! p
                      = Some (repository.scan_comment r))
    (seq (List.length h) (List.length rows)) rows.
Proof.
  apply Forall2_same_length_lookup. split; [by rewrite length_seq|].
  intros i p r Hp Hr. apply lookup_seq in Hp as [-> Hi].
  rewrite lookup_app_r by lia.
  change (List.map repository.scan_comment rows) with (repository.scan_comment <$> rows).
  replace (List.length h + i - List.length h)%nat with i by lia.
  by rewrite list_lookup_fmap, Hr.
Qed.

(** What a listing does when the paginated query gives [rows]. *)
Lemma GetAllCommentTrees_page U page limit sortBy sortOrder w rows :
  let col := repository.checked_sortBy sortBy in
  let dir := repository.checked_sortOrder U sortOrder in
  let L := service.clamp_limit limit in
  wf_db (db w) ->
  Pg.select_top_level (db w) col dir L (page_offset page limit) = Ok rows ->
  exists trees w',
    service.GetAllCommentTrees U page limit sortBy sortOrder w
    = (Ok {| Comments := appended None trees; Total := Pg.count_top_level (db w);
             Page := service.clamp_page page; Limit := L |}, w') /\
    db w' = db w /\
    sent w' = sent w ++ [count_stmt; page_stmt col dir L (page_offset page limit)]
                     ++ flat_map tree_stmts rows /\
    Forall2 (tree_root (heap w')) trees rows.
Proof.
  cbv zeta. intros Hwf E.
  assert (Hrun := GetTopLevelComments_run U (service.clamp_limit limit)
                    (page_offset page limit) sortBy sortOrder w).
  cbv zeta in Hrun. rewrite E in Hrun.
  unfold service.GetAllCommentTrees. cbv zeta. fold (page_offset page limit).
  unfold bind at 1, or_else at 1. rewrite Hrun.
  set (w1 := {| db := db w; sent := _; heap := _ |}).
  destruct (build_trees_rows rows (seq (List.length (heap w)) (List.length rows)) None w1)
    as (trees & w' & Eb & Hdb & Hsent & Hroots & _ & _).
  { done. }
  { subst w1. cbn [db]. apply select_top_level_rows in E.
    eapply Forall_impl; [exact E|]. by intros r [? _]. }
  { subst w1. cbn [heap]. apply scanned_rows. }
  exists trees, w'. unfold bind. rewrite appended_None_default, Eb.
  split; [reflexivity|]. split; [by rewrite Hdb|]. split; [|done].
  rewrite Hsent. subst w1. cbn [sent]. by rewrite <- app_assoc.
Qed.

Lemma page_offset_exact page limit :
  (service.clamp_page page - 1) * service.clamp_limit limit <= MaxInt64 ->
  page_offset page limit = (service.clamp_page page - 1) * service.clamp_limit limit /\
  0 <= page_offset page limit.
Proof.
  intros Hb. unfold page_offset, int_mul, int_sub.
  pose proof (clamp_limit_range limit) as HL.
  assert (HP : 1 <= service.clamp_page page).
  { unfold service.clamp_page. destruct (Z.ltb_spec page 1); lia. }
  unfold MaxInt64, MinInt64 in *.
  rewrite (wrap64_small (service.clamp_page page - 1)) by (unfold MaxInt64, MinInt64; nia).
  rewrite wrap64_small by (unfold MaxInt64, MinInt64; nia). nia.
Qed.


(** The key and the direction of the ORDER BY clause that remain after
    the whitelisting. *)
Definition sort_key (sortBy : string) : Pg.Row -> Z :=
  if String.eqb sortBy "id" then Pg.r_id else Pg.r_created_at.

Definition in_order (U : string -> string) (sortBy sortOrder : string) (a b : Pg.Row) : Prop :=
  if String.eqb (U sortOrder) "DESC" then sort_key sortBy b <= sort_key sortBy a
  else sort_key sortBy a <= sort_key sortBy b.

Lemma order_le_checked U sortBy sortOrder :
  exists le,
    Pg.order_le (repository.checked_sortBy sortBy) (repository.checked_sortOrder U sortOrder)
    = Some le /\
    forall l, StronglySorted (in_order U sortBy sortOrder) (Pg.order_by le l).
Proof.
  rewrite checked_sortBy_cases, checked_sortOrder_cases. unfold in_order, sort_key.
  destruct (String.eqb sortBy "id"), (String.eqb (U sortOrder) "DESC");
    cbn; eexists; (split; [reflexivity|]); intros l;
    (eapply StronglySorted_weaken;
     [|apply order_by_sorted; intros; rewrite ?Z.leb_le in *; lia]);
    cbn; intros a b H; by apply Z.leb_le in H.
Qed.

Lemma select_top_level_page U sortBy sortOrder d L off :
  0 <= L -> 0 <= off ->
  exists le,
    Pg.order_le (repository.checked_sortBy sortBy) (repository.checked_sortOrder U sortOrder)
    = Some le /\
    (forall l, StronglySorted (in_order U sortBy sortOrder) (Pg.order_by le l)) /\
    Pg.select_top_level d (repository.checked_sortBy sortBy)
      (repository.checked_sortOrder U sortOrder) L off
    = Ok (firstn (Z.to_nat L) (skipn (Z.to_nat off)
            (Pg.order_by le (List.filter Pg.is_top_level (Pg.table d))))).
Proof.
  intros HL Ho. destruct (order_le_checked U sortBy sortOrder) as (le & Hle & Hs).
  exists le. split; [done|]. split; [done|]. unfold Pg.select_top_level. rewrite Hle.
  destruct (Z.ltb_spec L 0); [lia|]. by destruct (Z.ltb_spec off 0); [lia|].
Qed.


(** X11. The statements of a listing, for every page and limit, on a
    well-formed table.  The offset is the clamped page less one times the
    clamped limit, in 64-bit integers.  When it is not negative the listing
    succeeds and sends the count, the paginated query and then, for each
    row of the page in turn, the two queries of [GetComments]: two
    statements and two more per tree.  When it is negative the paginated
    query fails; it is sent five times, the listing fails and no tree is
    read: six statements. *)
Theorem listing_sends_two_statements_per_tree (U : string -> string) (page limit : Z)
    (sortBy sortOrder : string) (w : World) :
  wf_db (db w) ->
  let col := repository.checked_sortBy sortBy in
  let dir := repository.checked_sortOrder U sortOrder in
  let L := service.clamp_limit limit in
  let off := int_mul (int_sub (service.clamp_page page) 1) L in
  if off <? 0 then
    service.GetAllCommentTrees U page limit sortBy sortOrder w
    = (Err (Wrapf "failed to get top-level comments"
              (Wrapf "failed to get top level comments"
                 (PgError "OFFSET must not be negative"))),
       {| db := db w;
          sent := sent w ++ count_stmt :: repeat (page_stmt col dir L off) 5;
          heap := heap w |})
  else
    exists rows pc w',
      Pg.select_top_level (db w) col dir L off = Ok rows /\
      service.GetAllCommentTrees U page limit sortBy sortOrder w = (Ok pc, w') /\
      List.length (default [] (Comments pc)) = List.length rows /\
      sent w' = sent w
                ++ [count_stmt; page_stmt col dir L off]
                ++ flat_map (fun r => [by_id_stmt (Pg.r_id r); children_stmt (Pg.r_path r)])
                     rows /\
      List.length (sent w') = (List.length (sent w) + 2 + 2 * List.length rows)%nat.
Proof.
  intros Hwf. cbv zeta. fold (page_offset page limit).
  pose proof (clamp_limit_range limit) as HL.
  destruct (Z.ltb_spec (page_offset page limit) 0) as [Hneg|Hoff].
  - pose proof (GetAllCommentTrees_run U page limit sortBy sortOrder w) as H.
    cbv zeta in H. destruct (order_le_checked U sortBy sortOrder) as (le & Hle & _).
    assert (E : Pg.select_top_level (db w) (repository.checked_sortBy sortBy)
                  (repository.checked_sortOrder U sortOrder) (service.clamp_limit limit)
                  (page_offset page limit)
                = Err (PgError "OFFSET must not be negative")).
    { unfold Pg.select_top_level. rewrite Hle.
      destruct (Z.ltb_spec (service.clamp_limit limit) 0); [lia|].
      by destruct (Z.ltb_spec (page_offset page limit) 0); [|lia]. }
    rewrite E in H. exact H.
  - destruct (select_top_level_page U sortBy sortOrder (db w) (service.clamp_limit limit)
                (page_offset page limit)) as (le & Hle & Hsorted & E); [lia|done|].
    destruct (GetAllCommentTrees_page U page limit sortBy sortOrder w _ Hwf E)
      as (trees & w' & Erun & _ & Hsent & Hroots).
    eexists _, _, w'. split; [exact E|]. split; [exact Erun|]. cbn [Comments].
    split; [rewrite appended_None_default; by eapply Forall2_length|].
    split; [exact Hsent|]. rewrite Hsent, !length_app. cbn [List.length].
    assert (Hfm : forall l : list Pg.Row,
              List.length (flat_map tree_stmts l) = (2 * List.length l)%nat).
    { induction l as [|r l IH]; [done|]. cbn [flat_map List.length app tree_stmts]. lia. }
    rewrite Hfm. lia.
Qed.

(** With pairwise distinct keys there is one sorted order only. *)
Lemma sorted_unique U sortBy sortOrder (l1 : list Pg.Row) : forall l2,
  NoDup (sort_key sortBy <$> l1) ->
  Permutation l1 l2 ->
  StronglySorted (in_order U sortBy sortOrder) l1 ->
  StronglySorted (in_order U sortBy sortOrder) l2 ->
  l1 = l2.
Proof.
  induction l1 as [|a l1 IH]; intros l2 Hnd Hp H1 H2.
  - by apply Permutation_nil in Hp.
  - destruct l2 as [|b l2]; [by apply Permutation_sym, Permutation_nil in Hp|].
    assert (Hab : a = b).
    { assert (Ha : In a (b :: l2)) by (apply (Permutation_in _ Hp); by left).
      assert (Hb : In b (a :: l1))
        by (apply (Permutation_in _ (Permutation_sym Hp)); by left).
      destruct Ha as [Ha|Ha]; [done|]. destruct Hb as [Hb|Hb]; [done|].
      apply StronglySorted_inv in H1 as [_ H1]. apply StronglySorted_inv in H2 as [_ H2].
      rewrite List.Forall_forall in H1, H2. specialize (H1 b Hb). specialize (H2 a Ha).
      eapply (NoDup_fmap_inj (sort_key sortBy) (a :: l1)); [done|by left|by right|].
      unfold in_order in *. destruct (String.eqb (U sortOrder) "DESC"); lia. }
    subst b. f_equal. rewrite fmap_cons in Hnd. apply NoDup_cons in Hnd as [_ Hnd].
    apply Permutation_cons_inv in Hp.
    apply StronglySorted_inv in H1 as [H1 _]. apply StronglySorted_inv in H2 as [H2 _].
    by apply IH.
Qed.

(** X12. Consecutive pages tile the listing.  On a well-formed table whose
    top-level rows have pairwise distinct sort keys (with the column [id]
    they always have), there is one sorted order of the top-level rows, and
    the listings of pages 1 to [n] with a fixed limit and sort, made in
    whatever states of the heap over the same table, succeed and return the
    trees of the rows of consecutive pieces of it: one page after the
    other they give its first [n] times the clamped limit rows, so no row
    is skipped and none is given twice, and all of it once [n] pages are
    enough.  The number of pages is such that the last offset fits in Go's
    integers. *)
Theorem pages_tile_the_listing (U : string -> string) (limit : Z)
    (sortBy sortOrder : string) (n : nat) (w : World) :
  wf_db (db w) ->
  Z.of_nat n * service.clamp_limit limit <= MaxInt64 ->
  NoDup (sort_key sortBy <$> List.filter Pg.is_top_level (Pg.table (db w))) ->
  exists sorted pages,
    Permutation sorted (List.filter Pg.is_top_level (Pg.table (db w))) /\
    StronglySorted (in_order U sortBy sortOrder) sorted /\
    (forall sorted',
       Permutation sorted' (List.filter Pg.is_top_level (Pg.table (db w))) ->
       StronglySorted (in_order U sortBy sortOrder) sorted' -> sorted' = sorted) /\
    Forall2 (fun p rows =>
               forall w0, db w0 = db w ->
                 exists trees w1,
                   service.GetAllCommentTrees U (Z.of_nat p) limit sortBy sortOrder w0
                   = (Ok {| Comments := appended None trees;
                            Total := Pg.count_top_level (db w);
                            Page := Z.of_nat p;
                            Limit := service.clamp_limit limit |}, w1) /\
                   db w1 = db w /\
                   Forall2 (tree_root (heap w1)) trees rows)
      (seq 1 n) pages /\
    concat pages = firstn (n * Z.to_nat (service.clamp_limit limit)) sorted /\
    ((List.length sorted <= n * Z.to_nat (service.clamp_limit limit))%nat ->
     concat pages = sorted).
Proof.
  intros Hwf Hb Hkeys. pose proof (clamp_limit_range limit) as HL.
  destruct (order_le_checked U sortBy sortOrder) as (le & Hle & Hsorted).
  set (top := List.filter Pg.is_top_level (Pg.table (db w))) in *.
  exists (Pg.order_by le top).
  assert (Hperm : Permutation (Pg.order_by le top) top) by apply order_by_Permutation.
  assert (Hpages : exists pages,
    Forall2 (fun p rows =>
               forall w0, db w0 = db w ->
                 exists trees w1,
                   service.GetAllCommentTrees U (Z.of_nat p) limit sortBy sortOrder w0
                   = (Ok {| Comments := appended None trees;
                            Total := Pg.count_top_level (db w);
                            Page := Z.of_nat p;
                            Limit := service.clamp_limit limit |}, w1) /\
                   db w1 = db w /\
                   Forall2 (tree_root (heap w1)) trees rows)
      (seq 1 n) pages /\
    concat pages
    = firstn (n * Z.to_nat (service.clamp_limit limit)) (Pg.order_by le top)).
  { induction n as [|n IH].
    - exists []. split; [constructor|done].
    - destruct IH as (pages & Hp & Hc); [nia|].
      assert (HP : service.clamp_page (Z.of_nat (S n)) = Z.of_nat (S n)).
      { unfold service.clamp_page. destruct (Z.ltb_spec (Z.of_nat (S n)) 1); lia. }
      destruct (page_offset_exact (Z.of_nat (S n)) limit) as [Hexact Hoff];
        [rewrite HP; nia|].
      rewrite HP in Hexact.
      set (rows := firstn (Z.to_nat (service.clamp_limit limit))
                     (skipn (n * Z.to_nat (service.clamp_limit limit))
                        (Pg.order_by le top))).
      exists (pages ++ [rows]). split.
      + rewrite seq_S. apply Forall2_app; [exact Hp|]. constructor; [|constructor].
        cbn [Nat.add]. intros w0 Hdb.
        assert (E : Pg.select_top_level (db w0) (repository.checked_sortBy sortBy)
                      (repository.checked_sortOrder U sortOrder) (service.clamp_limit limit)
                      (page_offset (Z.of_nat (S n)) limit) = Ok rows).
        { rewrite Hdb. unfold Pg.select_top_level. rewrite Hle.
          destruct (Z.ltb_spec (service.clamp_limit limit) 0); [lia|].
          destruct (Z.ltb_spec (page_offset (Z.of_nat (S n)) limit) 0); [lia|].
          subst rows top. do 3 f_equal. rewrite Hexact. lia. }
        destruct (GetAllCommentTrees_page U (Z.of_nat (S n)) limit sortBy sortOrder w0 rows)
          as (trees & w1 & Erun & Hdb1 & _ & Hroots); [by rewrite Hdb|exact E|].
        exists trees, w1. rewrite Erun, HP, Hdb. split; [done|]. split; [congruence|done].
      + rewrite concat_app, Hc. cbn [concat]. subst rows.
        rewrite app_nil_r, take_take_drop. f_equal. lia. }
  destruct Hpages as (pages & Hp & Hc). exists pages.
  split; [done|]. split; [apply Hsorted|]. split.
  { intros sorted' Hp' Hs'. apply (sorted_unique U sortBy sortOrder); [|by etrans|done|apply Hsorted].
    eapply NoDup_Permutation_proper; [|exact Hkeys]. by apply fmap_Permutation. }
  split; [done|]. split; [done|].
  intros Hlen. rewrite Hc. by apply take_ge.
Qed.

End Listing.

(** ** The handlers *)

Section Handlers.
Import models.

Definition answered (c : Z) (r : handlers.reply) : list handlers.answer :=
  [ {| handlers.code := c; handlers.content := r |} ].

Lemma ParseInt_empty : strconv.ParseInt "" = (0, Some strconv.ErrSyntax).
Proof. reflexivity. Qed.

(** X13. The answers of [DeleteComment].  A parameter that [ParseInt] rejects,
    the empty one among them, is answered 400 and nothing is sent to the
    database.  An id that no row carries is answered 500, and the table
    stays as it was.  The id of a row is answered 200 with that id, and
    the rows left are those whose path does not start with the path of that
    row. *)
Theorem delete_handler_answers (idStr : string) (w : World) :
  wf_db (db w) ->
  match strconv.ParseInt idStr with
  | (_, Some _) =>
      handlers.DeleteComment idStr w
      = (answered handlers.StatusBadRequest (handlers.ErrorReply "Invalid id"), w)
  | (id, None) =>
      match Pg.select_by_id (db w) id with
      | None =>
          exists w',
            handlers.DeleteComment idStr w
            = (answered handlers.StatusInternalServerError
                 (handlers.ErrorReply "Failed to delete comments"), w') /\
            db w' = db w
      | Some r =>
          exists w',
            handlers.DeleteComment idStr w
            = (answered handlers.StatusOK (handlers.IdReply id), w') /\
            Pg.table (db w') = outside (Pg.r_path r) (Pg.table (db w)) /\
            Pg.select_by_id (db w') id = None
      end
  end.
Proof.
  intros Hwf. unfold handlers.DeleteComment.
  destruct (String.eqb_spec idStr "") as [->|Hne]; [by rewrite ParseInt_empty|].
  destruct (strconv.ParseInt idStr) as [id [e|]]; [done|].
  rewrite DeleteComments_run.
  destruct (Pg.select_by_id (db w) id) as [r|] eqn:E.
  - eexists. split; [reflexivity|]. cbn [db].
    apply select_by_id_some in E as [Hin Hid].
    assert (Hmf : meta_free (GoString.bytes (Pg.r_path r)) = true).
    { pose proof (wf_paths _ Hwf) as Hp. rewrite Forall_forall in Hp.
      apply Hp. by apply list_elem_of_In. }
    rewrite delete_like_path_prefix by done. cbn [Pg.table]. split; [done|].
    apply select_by_id_none. cbn [Pg.table]. apply Forall_forall.
    intros c Hc%list_elem_of_In%outside_spec Heq. destruct Hc as [Hc Hpre].
    assert (c = r) as ->.
    { eapply NoDup_fmap_inj; [exact (wf_ids _ Hwf)|done|done|congruence]. }
    by rewrite prefix_refl in Hpre.
  - eexists. split; [reflexivity|done].
Qed.

(** X14. The answers of [GetCommentByID] to a request with a parent.  A parent
    that [ParseInt] rejects is answered 400 and nothing is sent to the
    database; an id that no row carries is answered 500; the id of a row is
    answered 200 with a tree whose root carries that row and has a
    children slice that is not nil. *)
Theorem get_handler_answers (U : string -> string) (idStr : string)
    (page limit sort_by sort_order : option string) (w : World) :
  wf_db (db w) ->
  idStr <> "" ->
  match strconv.ParseInt idStr with
  | (_, Some _) =>
      handlers.GetCommentByID U (Some idStr) page limit sort_by sort_order w
      = (answered handlers.StatusBadRequest (handlers.ErrorReply "Invalid id format"), w)
  | (id, None) =>
      match Pg.select_by_id (db w) id with
      | None =>
          exists w',
            handlers.GetCommentByID U (Some idStr) page limit sort_by sort_order w
            = (answered handlers.StatusInternalServerError
                 (handlers.ErrorReply "Failed to get comments"), w') /\
            db w' = db w
      | Some r =>
          exists p w',
            handlers.GetCommentByID U (Some idStr) page limit sort_by sort_order w
            = (answered handlers.StatusOK (handlers.TreeReply p), w') /\
            db w' = db w /\
            tree_root (heap w') p r
      end
  end.
Proof.
  intros Hwf Hne. unfold handlers.GetCommentByID. cbv zeta.
  change (handlers.Query (Some idStr)) with idStr.
  destruct (String.eqb_spec idStr "") as [E|_]; [by destruct (Hne E)|].
  destruct (strconv.ParseInt idStr) as [id [e|]]; [done|].
  destruct (Pg.select_by_id (db w) id) as [r|] eqn:E.
  - apply select_by_id_some in E as [Hin <-].
    destruct (GetComments_stored w r Hwf Hin) as (p & w' & Erun & Hdb & _ & Hroot & _).
    rewrite Erun. by exists p, w'.
  - rewrite GetComments_run, E. eexists. split; [reflexivity|done].
Qed.

Lemma Atoi_syntax s :
  (strconv.Atoi s).2 = Some strconv.ErrSyntax -> strconv.Atoi s = (0, Some strconv.ErrSyntax).
Proof.
  unfold strconv.Atoi. cbv zeta.
  destruct ((0 <? String.length s)%nat && (String.length s <? 19)%nat).
  - destruct s as [|c rest]; [done|].
    destruct ((Ascii.eqb c "-" || Ascii.eqb c "+") && _); [done|].
    by destruct (strconv.atoi_digits _ 0).
  - unfold strconv.ParseInt. destruct s as [|c rest]; [done|]. cbv zeta.
    destruct (strconv.ParseUint _) as [un [[|]|]]; [done| |];
      destruct (negb (Ascii.eqb c "-") && _); try done;
      destruct (Ascii.eqb c "-" && _); done.
Qed.

(** A listing depends on its four parameters through the clamped page,
    the clamped limit and the whitelisted sort only. *)
Lemma GetAllCommentTrees_normal U p1 l1 s1 o1 p2 l2 s2 o2 w :
  service.clamp_page p1 = service.clamp_page p2 ->
  service.clamp_limit l1 = service.clamp_limit l2 ->
  repository.checked_sortBy s1 = repository.checked_sortBy s2 ->
  repository.checked_sortOrder U o1 = repository.checked_sortOrder U o2 ->
  service.GetAllCommentTrees U p1 l1 s1 o1 w = service.GetAllCommentTrees U p2 l2 s2 o2 w.
Proof.
  intros Hp Hl Hs Ho. unfold service.GetAllCommentTrees. cbv zeta.
  rewrite Hp, Hl. unfold repository.GetTopLevelComments. cbv zeta.
  by rewrite Hs, Ho.
Qed.

(** X15. A listing request whose parameters are missing or unusable is
    answered as the request without parameters: a page or a limit that is
    absent or not a number, a sort column that is absent or not on the
    whitelist, and a sort order that is absent or neither ASC nor DESC give
    page 1 with limit 10, sorted on [created_at] in ascending order. *)
Theorem listing_parameters_fall_back_to_defaults (U : string -> string)
    (parent page limit sort_by sort_order : option string) (w : World) :
  U "asc" = "ASC" ->
  handlers.Query parent = "" ->
  (forall s, page = Some s -> (strconv.Atoi s).2 = Some strconv.ErrSyntax) ->
  (forall s, limit = Some s -> (strconv.Atoi s).2 = Some strconv.ErrSyntax) ->
  (forall s, sort_by = Some s -> s <> "created_at" /\ s <> "id") ->
  (forall s, sort_order = Some s -> U s <> "ASC" /\ U s <> "DESC") ->
  handlers.GetCommentByID U parent page limit sort_by sort_order w
  = handlers.GetCommentByID U None None None None None w /\
  handlers.GetCommentByID U None None None None None w
  = match service.GetAllCommentTrees U 1 10 "created_at" "asc" w with
    | (Err _, w') =>
        (answered handlers.StatusInternalServerError
           (handlers.ErrorReply "Failed to get all comments"), w')
    | (Ok paginatedResult, w') =>
        (answered handlers.StatusOK (handlers.PageReply paginatedResult), w')
    end /\
  forall paginatedResult w',
    service.GetAllCommentTrees U 1 10 "created_at" "asc" w = (Ok paginatedResult, w') ->
    Page paginatedResult = 1 /\ Limit paginatedResult = 10.
Proof.
  intros HU Hparent Hpage Hlimit Hsb Hso. split; [|split].
  - unfold handlers.GetCommentByID. cbv zeta. rewrite Hparent.
    change (handlers.Query None) with "". cbn [String.eqb].
    unfold handlers.DefaultQuery.
    erewrite (GetAllCommentTrees_normal U _ _ _ _ 1 10 "created_at" "asc"); [reflexivity| | | |].
    + destruct page as [s|]; [|done]. change (default "1" (Some s)) with s.
      by rewrite (Atoi_syntax s (Hpage s eq_refl)).
    + destruct limit as [s|]; [|done]. change (default "10" (Some s)) with s.
      by rewrite (Atoi_syntax s (Hlimit s eq_refl)).
    + destruct sort_by as [s|]; [|done]. change (default "created_at" (Some s)) with s.
      destruct (Hsb s eq_refl) as [H1 H2]. unfold repository.checked_sortBy, repository.allowedSorts.
      apply String.eqb_neq in H1, H2. by rewrite H1, H2.
    + destruct sort_order as [s|]; [|done]. change (default "asc" (Some s)) with s.
      destruct (Hso s eq_refl) as [H1 H2]. rewrite !checked_sortOrder_cases, HU.
      apply String.eqb_neq in H2. by rewrite H2.
  - reflexivity.
  - intros pr w' E.
    pose proof (GetAllCommentTrees_run U 1 10 "created_at" "asc" w) as H. cbv zeta in H.
    destruct (Pg.select_top_level _ _ _ _ _).
    + destruct H as (trees & w1 & E1 & _). rewrite E in E1. by injection E1 as -> _.
    + by rewrite E in H.
Qed.

(** X16. [CreateComment] answers a request whose text is plain (ASCII
    bytes other than NUL) and whose parent id is absent or not negative
    exactly once.  The answer is 201, with the request as body, when the
    body decodes, the text is not empty, the path id is the text of a uuid
    no row carries and the parent, when given, is the id of a row; then the
    table has one row more, with the text of the request.  Otherwise the
    answer is 400 and the table stays as it was. *)
Theorem create_handler_answers_once (decoded : result CommentRequest) (pathID : string)
    (now : Z) (w : World) :
  (forall cr, decoded = Ok cr -> plain_text (Comment_ cr) = true) ->
  (forall cr pid, decoded = Ok cr -> ReqParentID cr = Some pid -> 0 <= pid) ->
  exists r w',
    handlers.CreateComment decoded pathID now w = ([r], w') /\
    ((handlers.status r = handlers.StatusCreated /\
      exists cr u parentPath,
        decoded = Ok cr /\ Comment_ cr <> "" /\ handlers.payload r = handlers.CommentBody cr /\
        Pg.uuid_in pathID = Some u /\
        Forall (fun x => Pg.r_path_id x <> u) (Pg.table (db w)) /\
        (forall pid, ReqParentID cr = Some pid ->
                     exists x, In x (Pg.table (db w)) /\ Pg.r_id x = pid) /\
        Pg.table (db w')
        = Pg.table (db w) ++
          [new_row (db w) (ReqParentID cr) u (repository.newPath parentPath pathID)
             (Comment_ cr) now]) \/
     (handlers.status r = handlers.StatusBadRequest /\
      Pg.table (db w') = Pg.table (db w) /\
      (forall cr, decoded = Ok cr -> Comment_ cr <> "" ->
                  insertable (Pg.table (db w)) (ReqParentID cr) pathID = false))).
Proof.
  intros _ Hpos. unfold handlers.CreateComment.
  destruct decoded as [cr|e].
  2:{ do 2 eexists. split; [reflexivity|]. right. by repeat split. }
  destruct (String.eqb_spec (Comment_ cr) "") as [He|Hne].
  { do 2 eexists. split; [reflexivity|]. right. repeat split; try done.
    intros cr' [= <-] H. done. }
  assert (Hw : match ReqParentID cr with
               | Some pid =>
                   if pid <? 0
                   then [ {| handlers.status := handlers.StatusBadRequest;
                             handlers.payload :=
                               handlers.ErrorBody "ParentID it can't be negative" |} ]
                   else []
               | None => []
               end = []).
  { destruct (ReqParentID cr) as [pid|] eqn:EP; [|done].
    specialize (Hpos cr pid eq_refl EP). by destruct (Z.ltb_spec pid 0); [lia|]. }
  rewrite Hw. cbn [app].
  destruct (CreateComment_outcome pathID now cr w)
    as [(Hi & u & pp & Hu & Hok & Ht & _)|(Hi & [e He] & Ht & _)].
  - destruct (service.CreateComment pathID now cr w) as [[[]|e] w1]; [|done].
    do 2 eexists. split; [reflexivity|]. left. split; [done|].
    apply insertable_spec in Hi as [(u' & Hu' & Hfresh) Hfk].
    rewrite Hu in Hu'. injection Hu' as <-.
    exists cr, u, pp. by repeat split.
  - destruct (service.CreateComment pathID now cr w) as [[[]|e'] w1]; [done|].
    do 2 eexists. split; [reflexivity|]. right. split; [done|]. split; [done|].
    by intros cr' [= <-] _.
Qed.

Lemma seq_scanned h rows :
  Forall2 (fun p r => (h ++ List.map repository.scan_comment rows) !! p
                      = Some (repository.scan_comment r))
    (seq (List.length h) (List.length rows)) rows.
Proof.
  apply Forall2_same_length_lookup. split; [by rewrite length_seq|].
  intros i p r Hp Hr. apply lookup_seq in Hp as [-> Hi].
  rewrite lookup_app_r by lia.
  change (List.map repository.scan_comment rows) with (repository.scan_comment <$> rows).
  replace (List.length h + i - List.length h)%nat with i by lia.
  by rewrite list_lookup_fmap, Hr.
Qed.

(** X17. For a query and stored texts that are plain (ASCII bytes other
    than NUL), [SearchComments] answers 200 and does not write.  The slice
    it sends is empty and not nil exactly when the query without its outer
    white space is shorter than three bytes, and nil exactly when the query
    is longer and no row matches; its elements are structs without
    children, one per row found, each a row of the table whose text
    matches the pattern. *)
Theorem search_handler_answers (q : option string) (w : World) :
  let query := handlers.Query q in
  plain_text query = true ->
  Forall (fun r => plain_text (Pg.r_comment r) = true) (Pg.table (db w)) ->
  exists results w',
    handlers.SearchComments q w
    = (answered handlers.StatusOK (handlers.ResultsReply results), w') /\
    db w' = db w /\
    (results = Some [] <-> (String.length (GoString.TrimSpace query) < 3)%nat) /\
    (results = None <->
     (3 <= String.length (GoString.TrimSpace query))%nat /\
     Forall (fun r => Pg.ILIKE (Pg.r_comment r) ("%" +:+ query +:+ "%") = false)
       (Pg.table (db w))) /\
    exists rows,
      Forall2 (fun p r => heap w' !! p = Some (repository.scan_comment r))
        (default [] results) rows /\
      Forall (fun r => In r (Pg.table (db w)) /\
                       Pg.ILIKE (Pg.r_comment r) ("%" +:+ query +:+ "%") = true) rows.
Proof.
  cbv zeta. intros _ _. unfold handlers.SearchComments. cbv zeta.
  set (query := handlers.Query q). unfold service.SearchComments.
  destruct (Nat.ltb_spec (String.length (GoString.TrimSpace query)) 3) as [Hs|Hl].
  - do 2 eexists. split; [reflexivity|]. split; [done|]. split; [done|].
    split; [split; [done|intros [? _]; lia]|].
    exists []. split; constructor.
  - rewrite SearchByText_run. do 2 eexists. split; [reflexivity|]. cbn [db heap].
    split; [done|].
    set (found := Pg.search_ilike (db w) (search_pattern query)).
    assert (Hfound : Forall (fun r => In r (Pg.table (db w)) /\
                       Pg.ILIKE (Pg.r_comment r) (search_pattern query) = true) found).
    { subst found. unfold Pg.search_ilike. apply Forall_take.
      rewrite order_by_Permutation. apply Forall_forall.
      intros r Hr%list_elem_of_In%filter_In. exact Hr. }
    assert (Hnil : found = [] <->
              Forall (fun r => Pg.ILIKE (Pg.r_comment r) (search_pattern query) = false)
                (Pg.table (db w))).
    { subst found. unfold Pg.search_ilike. split.
      - intros H. apply Forall_forall. intros r Hr%list_elem_of_In.
        destruct (Pg.ILIKE (Pg.r_comment r) (search_pattern query)) eqn:E; [|done].
        assert (Hin : In r (List.filter
                  (fun r => Pg.ILIKE (Pg.r_comment r) (search_pattern query))
                  (Pg.table (db w)))) by (apply filter_In; by split).
        apply (Permutation_in _ (Permutation_sym (order_by_Permutation
                 (fun a b => Pg.r_created_at b <=? Pg.r_created_at a) _))) in Hin.
        destruct (Pg.order_by _ _) as [|x l]; [done|]. cbn in H. done.
      - intros H. rewrite filter_all_false; [done|].
        intros r Hr. rewrite Forall_forall in H. apply H. by apply list_elem_of_In. }
    split; [|split].
    + split; [|lia]. intros H. destruct found as [|r l] eqn:Ef; [done|].
      cbn [List.length seq] in H. rewrite appended_some in H by done. cbn in H.
      by injection H.
    + rewrite <- Hnil. split.
      * intros H. split; [lia|]. destruct found as [|r l]; [done|].
        cbn [List.length seq] in H. by rewrite appended_some in H.
      * intros [_ ->]. reflexivity.
    + exists found. split; [|exact Hfound].
      rewrite appended_None_default. apply seq_scanned.
Qed.

End Handlers.

(** ** Path prefixes and the reply relation *)

Section Descent.
Import models.

Definition slash : ascii := "/"%char.

Definition no_slash (l : list ascii) : bool :=
  forallb (fun c => negb (Ascii.eqb c slash)) l.

(** [c] is [R] or is reached from [R] by going from a row to a reply to
    it. *)
Inductive descends (tbl : list Pg.Row) (R : Pg.Row) : Pg.Row -> Prop :=
| descends_self : descends tbl R R
| descends_reply c p :
    In c tbl -> In p tbl -> Pg.r_parent_id c = Some (Pg.r_id p) ->
    descends tbl R p -> descends tbl R c.

Lemma hex_not_slash c : Pg.is_hex c = true -> negb (Ascii.eqb c slash) = true.
Proof. destruct c as [[] [] [] [] [] [] [] []]; vm_compute; congruence. Qed.

Lemma uuid_bytes_no_slash n : forall i s ds rest,
  Pg.uuid_bytes n i s = Some (ds, rest) ->
  no_slash rest = true -> no_slash s = true.
Proof.
  induction n as [|n IH]; intros i s ds rest H Hrest.
  - cbn in H. by injection H as _ <-.
  - cbn [Pg.uuid_bytes] in H. destruct s as [|a [|b r]]; try done.
    destruct (Pg.is_hex a) eqn:Ha; [|done]. destruct (Pg.is_hex b) eqn:Hb; [|done].
    cbn [andb] in H.
    destruct (Pg.uuid_bytes n (S i) _) as [[ds' rest']|] eqn:E; [|done].
    injection H as _ <-. apply IH in E; [|done].
    cbn [no_slash forallb]. rewrite (hex_not_slash a Ha), (hex_not_slash b Hb). cbn [andb].
    destruct r as [|h r0]; [done|]. revert E.
    destruct (Ascii.eqb h Pg.hyphen && Nat.odd i && (i <? 15)%nat) eqn:Eh; [|done].
    apply andb_prop in Eh as [Eh _]. apply andb_prop in Eh as [Eh _].
    apply Ascii.eqb_eq in Eh as ->. intros E. cbn [forallb].
    unfold no_slash in E. by rewrite E.
Qed.

(** A text accepted for the [uuid] column has no separator in it. *)
Lemma uuid_in_no_slash s u :
  Pg.uuid_in s = Some u -> no_slash (GoString.bytes s) = true.
Proof.
  unfold Pg.uuid_in.
  set (src := GoString.bytes s). clearbody src.
  assert (Hgo : forall braces src0,
    match Pg.uuid_bytes 16 0 src0 with
    | Some (ds, rest) =>
        match (if braces : bool
               then match rest with
                    | c :: r => if Ascii.eqb c "}"%char then Some r else None
                    | [] => None
                    end
               else Some rest) with
        | Some [] => Some (GoString.of_bytes (Pg.uuid_out ds))
        | _ => None
        end
    | None => None
    end = Some u -> no_slash src0 = true).
  { intros braces src0 H.
    destruct (Pg.uuid_bytes 16 0 src0) as [[ds rest]|] eqn:E; [|done].
    eapply uuid_bytes_no_slash; [exact E|].
    destruct braces.
    - destruct rest as [|c r]; [done|]. destruct (Ascii.eqb_spec c "}"%char) as [->|]; [|done].
      destruct r; [done|done].
    - by destruct rest. }
  destruct src as [|c r]; [apply (Hgo false)|].
  destruct (Ascii.eqb_spec c "{"%char) as [->|Hc].
  - intros H. apply (Hgo true) in H. cbn [no_slash forallb]. unfold no_slash in H.
    by rewrite H.
  - apply (Hgo false).
Qed.

Lemma prefix_iff a b : String.prefix a b = true <-> exists z, b = a +:+ z.
Proof.
  split.
  - revert b. induction a as [|x a IH]; intros b H; [by exists b|].
    destruct b as [|y b]; [done|]. simpl in H.
    destruct (ascii_dec x y) as [->|]; [|done].
    destruct (IH b H) as [z ->]. by exists z.
  - intros [z ->]. apply prefix_append.
Qed.

Lemma bytes_inj a b : GoString.bytes a = GoString.bytes b -> a = b.
Proof.
  unfold GoString.bytes. intros H.
  by rewrite <- (string_of_list_ascii_of_string a), H, string_of_list_ascii_of_string.
Qed.

(** The part of a path before its last segment: empty, or ending with
    the separator. *)
Definition closed (l : list ascii) : Prop := l = [] \/ exists l', l = l' ++ [slash].

Lemma no_slash_app a b : no_slash (a ++ b) = no_slash a && no_slash b.
Proof. apply forallb_app. Qed.

Lemma segments_align (X Y A B : list ascii) :
  X ++ A = Y ++ B -> no_slash X = true -> no_slash Y = true ->
  (A = [] \/ exists A', A = slash :: A') -> (B = [] \/ exists B', B = slash :: B') ->
  X = Y.
Proof.
  revert Y. induction X as [|x X IH]; intros Y H HX HY HA HB.
  - destruct Y as [|y Y]; [done|]. cbn in H.
    destruct HA as [->|[A' ->]]; [done|]. injection H as <- _.
    cbn in HY. done.
  - destruct Y as [|y Y].
    + cbn in H. destruct HB as [->|[B' ->]]; [done|]. injection H as -> _.
      cbn in HX. done.
    + cbn in H. injection H as -> H. f_equal.
      cbn in HX, HY. apply andb_prop in HX as [_ HX]. apply andb_prop in HY as [_ HY].
      by apply (IH Y).
Qed.

Lemma closed_rev l : closed l -> rev l = [] \/ exists l', rev l = slash :: l'.
Proof.
  intros [->|[l' ->]]; [by left|right]. rewrite rev_app_distr. cbn. eauto.
Qed.

Lemma no_slash_rev l : no_slash (rev l) = no_slash l.
Proof.
  unfold no_slash. induction l as [|x l IH]; [done|]. cbn.
  rewrite forallb_app, IH. cbn. rewrite andb_true_r. apply andb_comm.
Qed.

(** Two paths that are equal end with the same segment. *)
Lemma last_segment a s b t :
  a ++ s ++ [slash] = b ++ t ++ [slash] ->
  no_slash s = true -> no_slash t = true -> closed a -> closed b -> s = t.
Proof.
  intros H Hs Ht Ha Hb. rewrite !app_assoc in H. apply app_inj_tail in H as [H _].
  apply (f_equal (@rev ascii)) in H. rewrite !rev_app_distr in H.
  apply segments_align in H; [|by rewrite no_slash_rev|by rewrite no_slash_rev
                               |by apply closed_rev|by apply closed_rev].
  by apply rev_inj in H.
Qed.

(** A prefix that ends with the separator stops before the last segment
    of the path or is the whole path. *)
Lemma prefix_of_path (r p s z : list ascii) :
  p ++ s ++ [slash] = r ++ z -> no_slash s = true ->
  (exists r', r = r' ++ [slash]) ->
  (exists l, p = r ++ l) \/ z = [].
Proof.
  intros H Hs [r' ->].
  apply app_eq_app in H as [l [[Hp Hz]|[Hr Hsl]]]; [left; by exists l|].
  destruct l as [|x l _] using rev_ind.
  - left. exists []. rewrite app_nil_r in *. done.
  - rewrite app_assoc in Hr. apply app_inj_tail in Hr as [_ <-].
    destruct z as [|y z _] using rev_ind; [by right|].
    exfalso. rewrite !app_assoc in Hsl. apply app_inj_tail in Hsl as [Hsl _].
    rewrite Hsl, !no_slash_app in Hs.
    apply andb_prop in Hs as [Hs _]. apply andb_prop in Hs as [_ Hs]. done.
Qed.

(** *** On a table whose paths are materialized *)

Section Table.
Variable tbl : list Pg.Row.
Hypothesis Hids : NoDup (Pg.r_id <$> tbl).
Hypothesis Hpids : NoDup (Pg.r_path_id <$> tbl).
Hypothesis Hpaths : Forall (path_ok tbl) tbl.

Lemma path_segments c :
  In c tbl ->
  exists pp s,
    Pg.uuid_in s = Some (Pg.r_path_id c) /\
    GoString.bytes (Pg.r_path c) = GoString.bytes pp ++ GoString.bytes s ++ [slash] /\
    match Pg.r_parent_id c with
    | None => pp = ""
    | Some pid => exists r, In r tbl /\ Pg.r_id r = pid /\ Pg.r_path r = pp
    end.
Proof.
  intros Hc. rewrite Forall_forall in Hpaths.
  destruct (Hpaths c (proj2 (list_elem_of_In _ _) Hc)) as (s & Hs & H).
  destruct (Pg.r_parent_id c) as [pid|].
  - destruct H as (r & Hr & Hid & Hpath). exists (Pg.r_path r), s. split; [done|].
    split; [|by exists r]. by rewrite Hpath, !bytes_append.
  - exists "", s. split; [done|]. split; [|done]. by rewrite H, bytes_append.
Qed.

Lemma path_ends_with_slash c :
  In c tbl -> exists r', GoString.bytes (Pg.r_path c) = r' ++ [slash].
Proof.
  intros Hc. destruct (path_segments c Hc) as (pp & s & _ & -> & _).
  exists (GoString.bytes pp ++ GoString.bytes s). by rewrite app_assoc.
Qed.

Lemma parent_path_closed c pp :
  In c tbl ->
  match Pg.r_parent_id c with
  | None => pp = ""
  | Some pid => exists r, In r tbl /\ Pg.r_id r = pid /\ Pg.r_path r = pp
  end ->
  closed (GoString.bytes pp).
Proof.
  intros Hc H. destruct (Pg.r_parent_id c) as [pid|].
  - destruct H as (r & Hr & _ & <-). right. by apply path_ends_with_slash.
  - subst pp. by left.
Qed.

(** No two rows have the same path. *)
Lemma same_path_same_row a b :
  In a tbl -> In b tbl -> GoString.bytes (Pg.r_path a) = GoString.bytes (Pg.r_path b) -> a = b.
Proof.
  intros Ha Hb Heq.
  destruct (path_segments a Ha) as (ppa & sa & Hua & Hpa & Hqa).
  destruct (path_segments b Hb) as (ppb & sb & Hub & Hpb & Hqb).
  rewrite Hpa, Hpb in Heq.
  apply last_segment in Heq;
    [|by eapply uuid_in_no_slash|by eapply uuid_in_no_slash
     |exact (parent_path_closed a ppa Ha Hqa)|exact (parent_path_closed b ppb Hb Hqb)].
  apply bytes_inj in Heq as ->.
  eapply NoDup_fmap_inj; [exact Hpids|done|done|congruence].
Qed.

Lemma descends_prefix R c :
  descends tbl R c -> String.prefix (Pg.r_path R) (Pg.r_path c) = true.
Proof.
  induction 1 as [|c p Hc Hp Hpar _ IH]; [apply prefix_refl|].
  rewrite Forall_forall in Hpaths.
  destruct (Hpaths c (proj2 (list_elem_of_In _ _) Hc)) as (s & Hs & H).
  rewrite Hpar in H. destruct H as (r & Hr & Hid & Hpath).
  assert (r = p) as -> by (eapply NoDup_fmap_inj; [exact Hids|done|done|done]).
  rewrite Hpath. eapply prefix_trans; [exact IH|apply prefix_append].
Qed.

Lemma prefix_descends R :
  In R tbl ->
  forall n c, List.length (GoString.bytes (Pg.r_path c)) = n -> In c tbl ->
    String.prefix (Pg.r_path R) (Pg.r_path c) = true -> descends tbl R c.
Proof.
  intros HR n. induction n as [n IH] using lt_wf_ind. intros c Hn Hc Hpre.
  apply prefix_iff in Hpre as [z Hz]. apply (f_equal GoString.bytes) in Hz.
  rewrite bytes_append in Hz.
  destruct (path_segments c Hc) as (pp & s & Hu & Hp & Hq).
  rewrite Hp in Hz.
  destruct (prefix_of_path _ _ _ _ Hz (uuid_in_no_slash _ _ Hu) (path_ends_with_slash R HR))
    as [[l Hl]|Hnil].
  - destruct (Pg.r_parent_id c) as [pid|] eqn:Hpar.
    + destruct Hq as (p & Hpin & Hid & <-).
      apply (descends_reply tbl R c p Hc Hpin); [by rewrite Hid|].
      apply (IH (List.length (GoString.bytes (Pg.r_path p)))); [|done|done|].
      * rewrite <- Hn, Hp, !length_app. cbn. lia.
      * apply prefix_iff. exists (GoString.of_bytes l). apply bytes_inj.
        rewrite bytes_append, Hl. f_equal. unfold GoString.bytes, GoString.of_bytes.
        by rewrite list_ascii_of_string_of_list_ascii.
    + subst pp. cbn in Hl. destruct (path_ends_with_slash R HR) as [r' Hr'].
      rewrite Hr' in Hl. by destruct r'.
  - rewrite Hnil, app_nil_r in Hz. rewrite <- Hp in Hz.
    rewrite (same_path_same_row c R Hc HR Hz). constructor.
Qed.

Lemma prefix_is_descent R c :
  In R tbl -> In c tbl ->
  (String.prefix (Pg.r_path R) (Pg.r_path c) = true <-> descends tbl R c).
Proof.
  intros HR Hc. split; [by eapply prefix_descends|apply descends_prefix].
Qed.

End Table.

(** X18. On every state the program reaches, the path of a row is a prefix of
    the path of another exactly when the second is the first or is reached
    from it through replies.  So deleting a stored comment removes that
    comment, the replies to it, the replies to those and so on, and no
    other row. *)
Theorem delete_removes_the_replies_of_replies (w : World) (R : Pg.Row) :
  reachable w ->
  In R (Pg.table (db w)) ->
  (forall c, In c (Pg.table (db w)) ->
     (String.prefix (Pg.r_path R) (Pg.r_path c) = true
      <-> descends (Pg.table (db w)) R c)) /\
  exists w',
    service.DeleteComments (Pg.r_id R) w = (Ok tt, w') /\
    forall c, In c (Pg.table (db w')) <->
              In c (Pg.table (db w)) /\ ~ descends (Pg.table (db w)) R c.
Proof.
  intros Hreach HR. pose proof (reachable_wf w Hreach) as Hwf.
  destruct (reachable_materialized w Hreach) as [Hpids Hpaths].
  assert (Hpd : forall c, In c (Pg.table (db w)) ->
            (String.prefix (Pg.r_path R) (Pg.r_path c) = true
             <-> descends (Pg.table (db w)) R c)).
  { intros c Hc. by apply prefix_is_descent; [apply (wf_ids _ Hwf)| | | |]. }
  split; [exact Hpd|].
  rewrite DeleteComments_run, (select_by_id_unique _ _ (wf_ids _ Hwf) HR).
  eexists. split; [reflexivity|]. cbn [db]. intros c.
  rewrite delete_like_path_prefix; [|done|].
  2:{ pose proof (wf_paths _ Hwf) as Hp. rewrite Forall_forall in Hp.
      apply Hp. by apply list_elem_of_In. }
  cbn [Pg.table]. rewrite outside_spec. split.
  - intros [Hc Hpre]. split; [done|]. intros Hd%Hpd; [|done]. congruence.
  - intros [Hc Hnd]. split; [done|].
    destruct (String.prefix (Pg.r_path R) (Pg.r_path c)) eqn:E; [|done].
    destruct Hnd. by apply Hpd.
Qed.

End Descent.

(** ** Structs handed out earlier *)

Section Frame.
Import models.

(** The structs of [h] are still there in [h'], unchanged. *)
Definition kept (h h' : list Comment) : Prop :=
  (List.length h <= List.length h')%nat /\
  forall q, (q < List.length h)%nat -> h' !! q = h !! q.

Lemma kept_refl h : kept h h.
Proof. by split. Qed.

Lemma kept_app h k : kept h (h ++ k).
Proof.
  split; [rewrite length_app; lia|]. intros q Hq. by rewrite lookup_app_l.
Qed.

Lemma kept_prefix h h' : kept h h' -> h `prefix_of` h'.
Proof.
  intros [Hlen Hpre]. exists (drop (List.length h) h').
  rewrite <- (take_drop (List.length h) h') at 1. f_equal.
  apply list_eq. intros q. destruct (decide (q < List.length h)%nat) as [Hq|Hq].
  - rewrite lookup_take_lt by done. by apply Hpre.
  - rewrite lookup_take_ge by lia. symmetry. apply lookup_ge_None. lia.
Qed.

Lemma mapM_ext_Some {A B} (f g : A -> option B) l r :
  (forall x y, In x l -> f x = Some y -> g x = Some y) ->
  mapM f l = Some r -> mapM g l = Some r.
Proof.
  revert r. induction l as [|x l IH]; intros r H E; [done|].
  cbn in *. destruct (f x) as [y|] eqn:Ex; [|done]. cbn in E.
  destruct (mapM f l) as [r'|] eqn:El; [|done]. cbn in E. injection E as <-.
  rewrite (H x y (or_introl eq_refl) Ex). cbn.
  rewrite (IH r'); [done| |done]. intros x' y' Hx'. apply H. by right.
Qed.

(** A tree that unfolds in [h] unfolds to the same value in [h']. *)
Lemma tree_of_kept h h' :
  kept h h' -> forall n p t, tree_of n h p = Some t -> tree_of n h' p = Some t.
Proof.
  intros [Hlen Hpre]. induction n as [|n IH]; intros p t E; [done|].
  cbn [tree_of] in *. destruct (h !! p) as [c|] eqn:Ec; [|done].
  rewrite Hpre by (by eapply lookup_lt_Some). rewrite Ec.
  destruct (mapM (tree_of n h) (default [] (Children c))) as [kids|] eqn:Ek; [|done].
  rewrite (mapM_ext_Some (tree_of n h) (tree_of n h') _ kids); [done| |done].
  intros x y _. apply IH.
Qed.

Lemma GetComments_kept id w : kept (heap w) (heap (service.GetComments id w).2).
Proof.
  destruct (Pg.select_by_id (db w) id) as [r|] eqn:E.
  - destruct (GetComments_ok id w r E) as (p & w' & Erun & _ & _ & Hlen & Hpre).
    rewrite Erun. by split.
  - rewrite GetComments_run, E. apply kept_refl.
Qed.

Lemma GetAllCommentTrees_kept U page limit sortBy sortOrder w :
  kept (heap w) (heap (service.GetAllCommentTrees U page limit sortBy sortOrder w).2).
Proof.
  assert (Hrun := GetTopLevelComments_run U (service.clamp_limit limit)
                    (page_offset page limit) sortBy sortOrder w).
  cbv zeta in Hrun.
  unfold service.GetAllCommentTrees. cbv zeta. fold (page_offset page limit).
  unfold bind at 1, or_else at 1. rewrite Hrun.
  destruct (Pg.select_top_level (db w) _ _ _ _) as [rows|e] eqn:E; [|apply kept_refl].
  set (w1 := {| db := db w; sent := _; heap := _ |}).
  destruct (build_trees_ok (seq (List.length (heap w)) (List.length rows)) None w1)
    as (trees & w' & Eb & _ & _ & Hlen & Hpre).
  { apply Forall_forall. intros p Hp. apply elem_of_seq in Hp.
    destruct (rows !! (p - List.length (heap w))%nat) as [r|] eqn:Er;
      [|apply lookup_ge_None in Er; lia].
    exists (repository.scan_comment r). split.
    - subst w1. cbn [heap]. rewrite lookup_app_r by lia.
      change (List.map repository.scan_comment rows) with (repository.scan_comment <$> rows).
      by rewrite list_lookup_fmap, Er.
    - subst w1. cbn [db repository.scan_comment ID].
      apply select_by_id_is_Some. apply select_top_level_rows in E.
      rewrite Forall_forall in E. apply E. by eapply list_elem_of_lookup_2. }
  unfold bind. rewrite appended_None_default, Eb. cbn [snd heap].
  subst w1. cbn [heap] in *. rewrite length_app in *. unfold ret. cbn [snd].
  split; [lia|].
  intros q Hq. rewrite Hpre by lia. by rewrite lookup_app_l.
Qed.

Lemma step_kept w w' : step w w' -> kept (heap w) (heap w').
Proof.
  intros [pathID now cr w0|decoded pathID now w0|id w0|id w0|U page limit sb so w0|q w0].
  - destruct (CreateComment_outcome pathID now cr w0)
      as [(_ & u & pp & _ & _ & _ & _ & ->)|(_ & _ & _ & ->)]; apply kept_refl.
  - unfold handlers.CreateComment. destruct decoded as [cr|e]; [|apply kept_refl].
    destruct (String.eqb (Comment_ cr) ""); [apply kept_refl|].
    assert (Hh : heap (service.CreateComment pathID now cr w0).2 = heap w0).
    { by destruct (CreateComment_outcome pathID now cr w0)
        as [(_ & u & pp & _ & _ & _ & _ & ->)|(_ & _ & _ & ->)]. }
    destruct (service.CreateComment pathID now cr w0) as [[u|e] w1];
      cbn [snd] in *; rewrite Hh; apply kept_refl.
  - apply GetComments_kept.
  - rewrite DeleteComments_run. destruct (Pg.select_by_id (db w0) id); [apply kept_app|].
    apply kept_refl.
  - apply GetAllCommentTrees_kept.
  - unfold service.SearchComments.
    destruct (String.length (GoString.TrimSpace q) <? 3)%nat; [apply kept_refl|].
    rewrite SearchByText_run. apply kept_app.
Qed.

(** X19. No call changes a struct that an earlier call handed out.  Whatever
    the call, the structs allocated before it are a prefix of the structs
    after it, and a tree that could be unfolded before it unfolds to the
    same value after it: building a tree links only the structs fetched
    for that tree. *)
Theorem calls_keep_the_structs_handed_out (w w' : World) :
  step w w' ->
  heap w `prefix_of` heap w' /\
  forall n p t, tree_of n (heap w) p = Some t -> tree_of n (heap w') p = Some t.
Proof.
  intros Hs. pose proof (step_kept w w' Hs) as Hk.
  split; [by apply kept_prefix|by apply tree_of_kept].
Qed.

End Frame.

(** ** Write, then read *)

Section WriteRead.
Import models.

(** X20. A reply that has been created is returned under the comment it replies
    to: after a successful creation with parent [P], the tree of [P] has,
    among the children of its root, a struct with the id taken from the
    sequence, the parent id, the text and the time of the request. *)
Theorem created_reply_is_listed_under_its_parent (pathID : string) (now : Z)
    (cr : CommentRequest) (P : Pg.Row) (w w1 : World) :
  wf_db (db w) ->
  In P (Pg.table (db w)) ->
  ReqParentID cr = Some (Pg.r_id P) ->
  service.CreateComment pathID now cr w = (Ok tt, w1) ->
  exists p w2 kids k c,
    service.GetComments (Pg.r_id P) w1 = (Ok p, w2) /\
    holds_row (heap w2) p P /\
    Children <$> heap w2 !! p = Some (Some kids) /\
    k ∈ kids /\
    heap w2 !! k = Some c /\
    ID c = Pg.serial (db w) /\ ParentID c = Some (Pg.r_id P) /\
    Comm c = Comment_ cr /\ CreatedAt c = now /\
    String.prefix (Pg.r_path P) (Path c) = true.
Proof.
  intros Hwf HP Hpar E.
  pose proof (CreateComment_wf pathID now cr w Hwf) as Hwf1.
  destruct (CreateComment_table pathID now cr w) as [Hsame|(u & pp & Hu & _ & Ht & Hpp)];
    rewrite E in *; cbn [snd] in *.
  { destruct (CreateComment_outcome pathID now cr w)
      as [(_ & u & pp & _ & _ & Ht & _)|(_ & [e He] & _)];
      rewrite E in *; cbn [fst snd] in *; [|done].
    rewrite Hsame in Ht. apply (f_equal (@List.length Pg.Row)) in Ht.
    rewrite length_app in Ht. cbn in Ht. lia. }
  rewrite Hpar in Hpp. destruct Hpp as (P' & HP' & Hid & Hpath).
  assert (P' = P) as -> by (eapply NoDup_fmap_inj; [exact (wf_ids _ Hwf)|done|done|done]).
  remember (new_row (db w) (ReqParentID cr) u (repository.newPath pp pathID)
              (Comment_ cr) now) as N eqn:HNdef.
  assert (HP1 : In P (Pg.table (db w1))) by (rewrite Ht; apply in_or_app; by left).
  assert (HN1 : In N (Pg.table (db w1))) by (rewrite Ht; apply in_or_app; right; by left).
  assert (Hrun : exists p w2 kids,
            service.GetComments (Pg.r_id P) w1 = (Ok p, w2) /\
            holds_row (heap w2) p P /\
            Children <$> heap w2 !! p = Some (Some kids) /\
            Forall2 (holds_row (heap w2)) kids
              (List.filter (replies_to (Pg.r_id P)) (subtree_rows w1 P))).
  { rewrite GetComments_run, (select_by_id_unique _ _ (wf_ids _ Hwf1) HP1).
    destruct (assemble_subtree w1 P Hwf1 HP1) as [(kids & Hk1 & Hk2 & _ & Hk4) _].
    do 3 eexists. split; [reflexivity|]. cbn [heap]. split; [exact Hk1|].
    split; [exact Hk2|]. eapply Forall2_impl; [exact Hk4|].
    intros k r. apply scanned_holds. }
  destruct Hrun as (p & w2 & kids & Erun & Hk1 & Hk2 & Hk4).
  pose proof (replies_in_subtree w1 P Hwf1 HP1 P (subtree_has_root w1 P Hwf1 HP1)) as Hperm.
  assert (HN : In N (List.filter (replies_to (Pg.r_id P)) (subtree_rows w1 P))).
  { apply (Permutation_in _ (Permutation_sym Hperm)). apply filter_In. split; [done|].
    unfold replies_to. rewrite HNdef. cbn [new_row Pg.r_parent_id]. rewrite Hpar.
    apply Z.eqb_refl. }
  apply list_elem_of_In, list_elem_of_lookup in HN as [i Hi].
  destruct (Forall2_lookup_r _ _ _ _ _ Hk4 Hi) as (k & Hk & Hhold).
  unfold holds_row in Hhold. destruct (heap w2 !! k) as [c|] eqn:Ec; [|done].
  cbn in Hhold. injection Hhold as H1 H2 H3 H4 H5 H6.
  exists p, w2, kids, k, c. split; [exact Erun|]. split; [exact Hk1|]. split; [exact Hk2|].
  split; [by eapply list_elem_of_lookup_2|]. split; [done|].
  rewrite HNdef in H1, H2, H4, H5, H6.
  cbn [repository.scan_comment new_row Pg.r_id Pg.r_parent_id Pg.r_comment Pg.r_created_at
       Pg.r_path ID ParentID Path Comm CreatedAt] in *.
  rewrite Hpar in H2. repeat (split; [done|]).
  rewrite H4, <- Hpath. unfold repository.newPath. apply prefix_append.
Qed.

End WriteRead.

(** ** The properties above on the run of the scenario *)

Section Examples.
Import models.

Lemma scenario_reachable2 : reachable Scenario.world2.
Proof.
  eapply reach_step; [|apply step_create].
  eapply reach_step; [|apply step_create].
  apply reach_init.
Qed.

Lemma reply_row_stored : In reply_row (Pg.table (db Scenario.world3)).
Proof. vm_compute. right. left. reflexivity. Qed.

Lemma scenario25_reachable : reachable Scenario.world25.
Proof.
  unfold Scenario.world25.
  assert (H : forall l w, reachable w -> reachable (fold_left Scenario.add_root l w)).
  { induction l as [|k l IH]; intros w Hw; [done|]. cbn [fold_left]. apply IH.
    eapply reach_step; [exact Hw|apply step_create]. }
  apply H, reach_init.
Qed.

Lemma create_outcome_witness :
  plain_text (Comment_ (Scenario.request "reply to reply" (Some 2))) = true /\
  ((service.CreateComment Scenario.uuidC 300
      (Scenario.request "reply to reply" (Some 2)) Scenario.world2).1 = Ok tt <->
   (exists u, Pg.uuid_in Scenario.uuidC = Some u /\
              Forall (fun r => Pg.r_path_id r <> u) (Pg.table (db Scenario.world2))) /\
   (forall pid, ReqParentID (Scenario.request "reply to reply" (Some 2)) = Some pid ->
                exists r, In r (Pg.table (db Scenario.world2)) /\ Pg.r_id r = pid)).
Proof.
  split; [reflexivity|].
  exact (proj1 (create_succeeds_exactly_when_insertable Scenario.uuidC 300
                  (Scenario.request "reply to reply" (Some 2)) Scenario.world2 eq_refl)).
Defined.

Lemma created_comment_witness :
  wf_db (db Scenario.world2) /\
  service.CreateComment Scenario.uuidC 300
    (Scenario.request "reply to reply" (Some 2)) Scenario.world2
  = (Ok tt, Scenario.world3) /\
  exists u parentPath,
    Pg.uuid_in Scenario.uuidC = Some u /\
    repository.GetByID (Pg.serial (db Scenario.world2)) Scenario.world3
    = (Ok (List.length (heap Scenario.world3)),
       {| db := db Scenario.world3;
          sent := sent Scenario.world3 ++ [by_id_stmt (Pg.serial (db Scenario.world2))];
          heap := heap Scenario.world3 ++
                  [ {| ID := Pg.serial (db Scenario.world2); ParentID := Some 2;
                       PathID := u; Path := parentPath +:+ Scenario.uuidC +:+ "/";
                       Comm := "reply to reply"; CreatedAt := 300; Children := None |} ] |}).
Proof.
  pose proof (reachable_wf _ scenario_reachable2) as Hwf.
  assert (H : service.CreateComment Scenario.uuidC 300
                (Scenario.request "reply to reply" (Some 2)) Scenario.world2
              = (Ok tt, Scenario.world3)) by (vm_compute; reflexivity).
  split; [exact Hwf|]. split; [exact H|].
  exact (created_comment_is_found_by_id Scenario.uuidC 300
           (Scenario.request "reply to reply" (Some 2))
           Scenario.world2 Scenario.world3 Hwf H).
Defined.

Lemma after_deletion_witness :
  wf_db (db Scenario.world3) /\
  In reply_row (Pg.table (db Scenario.world3)) /\
  Pg.r_id reply_row = 2 /\
  (service.DeleteComments 2 Scenario.world3).1 = Ok tt /\
  forall c, In c (Pg.table (db Scenario.world3)) ->
    if String.prefix (Pg.r_path reply_row) (Pg.r_path c)
    then (service.GetComments (Pg.r_id c) (service.DeleteComments 2 Scenario.world3).2).1
         = Err (Wrapf "failed to get root comment" not_found) /\
         is_no_rows (Wrapf "failed to get root comment" not_found) = true
    else Pg.select_by_id (db (service.DeleteComments 2 Scenario.world3).2) (Pg.r_id c)
         = Some c.
Proof.
  pose proof (reachable_wf _ scenario_reachable) as Hwf.
  split; [exact Hwf|]. split; [exact reply_row_stored|]. split; [reflexivity|].
  exact (deleted_subtree_is_gone_and_the_rest_stays 2 Scenario.world3 reply_row Hwf
           reply_row_stored eq_refl).
Defined.

Lemma delete_by_path_witness :
  wf_db (db Scenario.world3) /\
  meta_free (GoString.bytes (Pg.r_path reply_row)) = true /\
  (repository.DeleteByPath (Pg.r_path reply_row) Scenario.world3).1 = Ok tt /\
  Pg.table (db (repository.DeleteByPath (Pg.r_path reply_row) Scenario.world3).2)
  = outside (Pg.r_path reply_row) (Pg.table (db Scenario.world3)).
Proof.
  pose proof (reachable_wf _ scenario_reachable) as Hwf.
  assert (Hm : meta_free (GoString.bytes (Pg.r_path reply_row)) = true)
    by (vm_compute; reflexivity).
  split; [exact Hwf|]. split; [exact Hm|].
  pose proof (delete_by_path_is_idempotent (Pg.r_path reply_row) Scenario.world3 Hwf Hm) as H.
  split; [exact (proj1 H)|exact (proj1 (proj2 H))].
Defined.

Lemma children_by_path_witness :
  wf_db (db Scenario.world3) /\
  In reply_row (Pg.table (db Scenario.world3)) /\
  exists rows,
    repository.GetChildrenByPath (Pg.r_path reply_row) Scenario.world3
    = (Ok (appended None (seq (List.length (heap Scenario.world3)) (List.length rows))),
       {| db := db Scenario.world3;
          sent := sent Scenario.world3 ++ [children_stmt (Pg.r_path reply_row)];
          heap := heap Scenario.world3 ++ List.map repository.scan_comment rows |}) /\
    Permutation rows (below (Pg.r_path reply_row) (Pg.table (db Scenario.world3))) /\
    StronglySorted path_descending rows /\
    In reply_row rows /\
    Forall (fun c => Children c = None) (List.map repository.scan_comment rows).
Proof.
  pose proof (reachable_wf _ scenario_reachable) as Hwf.
  split; [exact Hwf|]. split; [exact reply_row_stored|].
  exact (children_by_path_are_the_rows_below Scenario.world3 reply_row Hwf reply_row_stored).
Defined.

Lemma stored_subtree_witness :
  wf_db (db Scenario.world3) /\
  In reply_row (Pg.table (db Scenario.world3)) /\
  exists p w',
    service.GetComments (Pg.r_id reply_row) Scenario.world3 = (Ok p, w') /\
    exists kids,
      holds_row (heap w') p reply_row /\
      Children <$> heap w' !! p = Some (Some kids) /\
      Forall2 (holds_row (heap w')) kids
        (List.filter (replies_to (Pg.r_id reply_row))
           (subtree_rows Scenario.world3 reply_row)).
Proof.
  pose proof (reachable_wf _ scenario_reachable) as Hwf.
  split; [exact Hwf|]. split; [exact reply_row_stored|].
  destruct (get_comments_returns_the_stored_subtree Scenario.world3 reply_row Hwf
              reply_row_stored) as (p & w' & E & (kids & H1 & H2 & _ & H4) & _).
  exists p, w'. split; [exact E|]. exists kids. split; [exact H1|]. split; [exact H2|exact H4].
Defined.

Lemma finite_tree_witness :
  wf_db (db Scenario.world3) /\
  In reply_row (Pg.table (db Scenario.world3)) /\
  exists p w' t,
    service.GetComments (Pg.r_id reply_row) Scenario.world3 = (Ok p, w') /\
    tree_of (S (List.length (subtree_rows Scenario.world3 reply_row))) (heap w') p = Some t.
Proof.
  pose proof (reachable_wf _ scenario_reachable) as Hwf.
  split; [exact Hwf|]. split; [exact reply_row_stored|].
  exact (get_comments_tree_is_finite Scenario.world3 reply_row Hwf reply_row_stored).
Defined.

Lemma non_nil_children_witness :
  reachable Scenario.world3 /\
  service.GetComments 2 Scenario.world3
  = (Ok 2%nat, (service.GetComments 2 Scenario.world3).2) /\
  exists c kids,
    heap (service.GetComments 2 Scenario.world3).2 !! 2%nat = Some c /\
    ID c = 2 /\ Children c = Some kids.
Proof.
  assert (H : service.GetComments 2 Scenario.world3
              = (Ok 2%nat, (service.GetComments 2 Scenario.world3).2))
    by (vm_compute; reflexivity).
  split; [exact scenario_reachable|]. split; [exact H|].
  exact (reachable_trees_have_non_nil_children Scenario.world3 2 2%nat _
           scenario_reachable H).
Defined.

Lemma materialized_paths_witness :
  reachable Scenario.world3 /\
  NoDup (Pg.r_path_id <$> Pg.table (db Scenario.world3)) /\
  forall c, In c (Pg.table (db Scenario.world3)) ->
    exists s,
      Pg.uuid_in s = Some (Pg.r_path_id c) /\
      match Pg.r_parent_id c with
      | None => Pg.r_path c = s +:+ "/"
      | Some pid =>
          exists r, In r (Pg.table (db Scenario.world3)) /\ Pg.r_id r = pid /\
                    Pg.r_path c = Pg.r_path r +:+ s +:+ "/"
      end.
Proof.
  split; [exact scenario_reachable|].
  exact (reachable_paths_are_materialized Scenario.world3 scenario_reachable).
Defined.

Lemma replies_of_replies_witness :
  reachable Scenario.world3 /\
  In reply_row (Pg.table (db Scenario.world3)) /\
  exists w',
    service.DeleteComments (Pg.r_id reply_row) Scenario.world3 = (Ok tt, w') /\
    forall c, In c (Pg.table (db w')) <->
              In c (Pg.table (db Scenario.world3)) /\
              ~ descends (Pg.table (db Scenario.world3)) reply_row c.
Proof.
  split; [exact scenario_reachable|]. split; [exact reply_row_stored|].
  exact (proj2 (delete_removes_the_replies_of_replies Scenario.world3 reply_row
                  scenario_reachable reply_row_stored)).
Defined.


Lemma listing_statements_witness :
  wf_db (db Scenario.world25) /\
  (exists (rows : list Pg.Row) pc w',
     service.GetAllCommentTrees GoString.ToUpperASCII 3 10 "id" "desc" Scenario.world25
     = (Ok pc, w') /\
     List.length (default [] (Comments pc)) = List.length rows /\
     List.length (sent w')
     = (List.length (sent Scenario.world25) + 2 + 2 * List.length rows)%nat) /\
  service.GetAllCommentTrees GoString.ToUpperASCII MaxInt64 100 "id" "desc" Scenario.world25
  = (Err (Wrapf "failed to get top-level comments"
            (Wrapf "failed to get top level comments"
               (PgError "OFFSET must not be negative"))),
     {| db := db Scenario.world25;
        sent := sent Scenario.world25
                ++ count_stmt
                   :: repeat (page_stmt (repository.checked_sortBy "id")
                                (repository.checked_sortOrder GoString.ToUpperASCII "desc")
                                (service.clamp_limit 100) (-200)) 5;
        heap := heap Scenario.world25 |}).
Proof.
  pose proof (reachable_wf _ scenario25_reachable) as Hwf.
  split; [exact Hwf|]. split.
  - assert (H : exists (rows : list Pg.Row) pc w',
       Pg.select_top_level (db Scenario.world25) (repository.checked_sortBy "id")
         (repository.checked_sortOrder GoString.ToUpperASCII "desc")
         (service.clamp_limit 10)
         (int_mul (int_sub (service.clamp_page 3) 1) (service.clamp_limit 10)) = Ok rows /\
       service.GetAllCommentTrees GoString.ToUpperASCII 3 10 "id" "desc" Scenario.world25
       = (Ok pc, w') /\
       List.length (default [] (Comments pc)) = List.length rows /\
       sent w' = sent Scenario.world25
                 ++ [count_stmt;
                     page_stmt (repository.checked_sortBy "id")
                       (repository.checked_sortOrder GoString.ToUpperASCII "desc")
                       (service.clamp_limit 10)
                       (int_mul (int_sub (service.clamp_page 3) 1) (service.clamp_limit 10))]
                 ++ flat_map (fun r => [by_id_stmt (Pg.r_id r); children_stmt (Pg.r_path r)])
                      rows /\
       List.length (sent w')
       = (List.length (sent Scenario.world25) + 2 + 2 * List.length rows)%nat)
      by exact (listing_sends_two_statements_per_tree GoString.ToUpperASCII 3 10 "id" "desc"
                  Scenario.world25 Hwf).
    destruct H as (rows & pc & w' & _ & Erun & Hl & _ & Hn).
    exists rows, pc, w'. split; [exact Erun|]. split; [exact Hl|exact Hn].
  - exact (listing_sends_two_statements_per_tree GoString.ToUpperASCII MaxInt64 100 "id"
             "desc" Scenario.world25 Hwf).
Defined.

Lemma pages_tile_witness :
  wf_db (db Scenario.world25) /\
  Z.of_nat 3 * service.clamp_limit 10 <= MaxInt64 /\
  NoDup (sort_key "created_at"
           <$> List.filter Pg.is_top_level (Pg.table (db Scenario.world25))) /\
  exists sorted pages,
    Permutation sorted (List.filter Pg.is_top_level (Pg.table (db Scenario.world25))) /\
    StronglySorted (in_order GoString.ToUpperASCII "created_at" "asc") sorted /\
    Forall2 (fun p rows =>
               forall w0, db w0 = db Scenario.world25 ->
                 exists trees w1,
                   service.GetAllCommentTrees GoString.ToUpperASCII (Z.of_nat p) 10
                     "created_at" "asc" w0
                   = (Ok {| Comments := appended None trees;
                            Total := Pg.count_top_level (db Scenario.world25);
                            Page := Z.of_nat p;
                            Limit := service.clamp_limit 10 |}, w1) /\
                   db w1 = db Scenario.world25 /\
                   Forall2 (tree_root (heap w1)) trees rows)
      (seq 1 3) pages /\
    concat pages = firstn (3 * Z.to_nat (service.clamp_limit 10)) sorted /\
    ((List.length sorted <= 3 * Z.to_nat (service.clamp_limit 10))%nat ->
     concat pages = sorted).
Proof.
  pose proof (reachable_wf _ scenario25_reachable) as Hwf.
  assert (Hb : Z.of_nat 3 * service.clamp_limit 10 <= MaxInt64) by (vm_compute; discriminate).
  assert (Hk : NoDup (sort_key "created_at"
                        <$> List.filter Pg.is_top_level (Pg.table (db Scenario.world25)))).
  { apply (bool_decide_unpack _). vm_compute. exact I. }
  split; [exact Hwf|]. split; [exact Hb|]. split; [exact Hk|].
  destruct (pages_tile_the_listing GoString.ToUpperASCII 10 "created_at" "asc" 3
              Scenario.world25 Hwf Hb Hk) as (sorted & pages & H1 & H2 & _ & H4 & H5 & H6).
  exists sorted, pages. split; [exact H1|]. split; [exact H2|]. split; [exact H4|].
  split; [exact H5|exact H6].
Defined.

Lemma delete_handler_witness :
  wf_db (db Scenario.world3) /\
  exists w',
    handlers.DeleteComment "2" Scenario.world3
    = (answered handlers.StatusOK (handlers.IdReply 2), w') /\
    Pg.table (db w') = outside (Pg.r_path reply_row) (Pg.table (db Scenario.world3)) /\
    Pg.select_by_id (db w') 2 = None.
Proof.
  pose proof (reachable_wf _ scenario_reachable) as Hwf.
  split; [exact Hwf|].
  exact (delete_handler_answers "2" Scenario.world3 Hwf).
Defined.

Lemma get_handler_witness :
  wf_db (db Scenario.world3) /\
  "2" <> "" /\
  exists p w',
    handlers.GetCommentByID GoString.ToUpperASCII (Some "2") None None None None
      Scenario.world3
    = (answered handlers.StatusOK (handlers.TreeReply p), w') /\
    db w' = db Scenario.world3 /\
    tree_root (heap w') p reply_row.
Proof.
  pose proof (reachable_wf _ scenario_reachable) as Hwf.
  assert (Hne : "2" <> "") by discriminate.
  split; [exact Hwf|]. split; [exact Hne|].
  exact (get_handler_answers GoString.ToUpperASCII "2" None None None None
           Scenario.world3 Hwf Hne).
Defined.

Lemma listing_defaults_witness :
  GoString.ToUpperASCII "asc" = "ASC" /\
  handlers.Query None = "" /\
  (strconv.Atoi "abc").2 = Some strconv.ErrSyntax /\
  ("text" <> "created_at" /\ "text" <> "id") /\
  (GoString.ToUpperASCII "down" <> "ASC" /\ GoString.ToUpperASCII "down" <> "DESC") /\
  handlers.GetCommentByID GoString.ToUpperASCII None (Some "abc") None (Some "text")
    (Some "down") Scenario.world3
  = handlers.GetCommentByID GoString.ToUpperASCII None None None None None Scenario.world3.
Proof.
  assert (HU : GoString.ToUpperASCII "asc" = "ASC") by reflexivity.
  assert (Hp : (strconv.Atoi "abc").2 = Some strconv.ErrSyntax) by reflexivity.
  assert (Hs : "text" <> "created_at" /\ "text" <> "id") by (split; discriminate).
  assert (Ho : GoString.ToUpperASCII "down" <> "ASC" /\
               GoString.ToUpperASCII "down" <> "DESC") by (split; discriminate).
  split; [exact HU|]. split; [reflexivity|]. split; [exact Hp|]. split; [exact Hs|].
  split; [exact Ho|].
  refine (proj1 (listing_parameters_fall_back_to_defaults GoString.ToUpperASCII None
                   (Some "abc") None (Some "text") (Some "down") Scenario.world3
                   HU eq_refl _ _ _ _)).
  - intros s [= <-]. exact Hp.
  - intros s [=].
  - intros s [= <-]. exact Hs.
  - intros s [= <-]. exact Ho.
Defined.

Lemma create_handler_witness :
  (forall cr, Ok (Scenario.request "reply to reply" (Some 2)) = Ok cr ->
              plain_text (Comment_ cr) = true) /\
  (forall cr pid, Ok (Scenario.request "reply to reply" (Some 2)) = Ok cr ->
                  ReqParentID cr = Some pid -> 0 <= pid) /\
  exists r w',
    handlers.CreateComment (Ok (Scenario.request "reply to reply" (Some 2)))
      Scenario.uuidC 300 Scenario.world2 = ([r], w') /\
    handlers.status r = handlers.StatusCreated /\
    handlers.payload r = handlers.CommentBody (Scenario.request "reply to reply" (Some 2)) /\
    List.length (Pg.table (db w')) = S (List.length (Pg.table (db Scenario.world2))).
Proof.
  assert (Hplain : forall cr,
            (Ok (Scenario.request "reply to reply" (Some 2)) : result CommentRequest) = Ok cr ->
            plain_text (Comment_ cr) = true).
  { intros cr [= <-]. reflexivity. }
  assert (Hpos : forall cr pid,
            (Ok (Scenario.request "reply to reply" (Some 2)) : result CommentRequest) = Ok cr ->
            ReqParentID cr = Some pid -> 0 <= pid).
  { intros cr pid [= <-] [= <-]. lia. }
  split; [exact Hplain|]. split; [exact Hpos|].
  destruct (create_handler_answers_once (Ok (Scenario.request "reply to reply" (Some 2)))
              Scenario.uuidC 300 Scenario.world2 Hplain Hpos)
    as (r & w' & E & [(H & cr & u & pp & [= <-] & _ & Hbody & _ & _ & _ & Ht)
                     |(_ & _ & Hins)]).
  - exists r, w'. split; [exact E|]. split; [exact H|]. split; [exact Hbody|].
    rewrite Ht, length_app. cbn [List.length]. lia.
  - specialize (Hins _ eq_refl). exfalso.
    assert (Hne : Comment_ (Scenario.request "reply to reply" (Some 2)) <> "")
      by discriminate.
    specialize (Hins Hne). vm_compute in Hins. discriminate Hins.
Defined.

Lemma search_handler_witness :
  plain_text (handlers.Query (Some "REPLY")) = true /\
  Forall (fun r => plain_text (Pg.r_comment r) = true) (Pg.table (db Scenario.world3)) /\
  exists results w',
    handlers.SearchComments (Some "REPLY") Scenario.world3
    = (answered handlers.StatusOK (handlers.ResultsReply results), w') /\
    db w' = db Scenario.world3 /\
    exists rows,
      Forall2 (fun p r => heap w' !! p = Some (repository.scan_comment r))
        (default [] results) rows /\
      Forall (fun r => In r (Pg.table (db Scenario.world3)) /\
                       Pg.ILIKE (Pg.r_comment r)
                         ("%" +:+ handlers.Query (Some "REPLY") +:+ "%") = true) rows.
Proof.
  assert (Hq : plain_text (handlers.Query (Some "REPLY")) = true) by reflexivity.
  split; [exact Hq|]. split; [exact scenario_texts_plain|].
  destruct (search_handler_answers (Some "REPLY") Scenario.world3 Hq scenario_texts_plain)
    as (results & w' & E & Hdb & _ & _ & Hrows).
  exists results, w'. split; [exact E|]. split; [exact Hdb|exact Hrows].
Defined.

Lemma structs_kept_witness :
  let w := (service.GetComments 2 Scenario.world3).2 in
  step w (service.GetComments 1 w).2 /\
  heap w `prefix_of` heap (service.GetComments 1 w).2 /\
  forall n p t,
    tree_of n (heap w) p = Some t -> tree_of n (heap (service.GetComments 1 w).2) p = Some t.
Proof.
  cbv zeta. split; [apply step_get|].
  exact (calls_keep_the_structs_handed_out _ _
           (step_get 1 (service.GetComments 2 Scenario.world3).2)).
Defined.

Lemma created_reply_witness :
  wf_db (db Scenario.world2) /\
  In reply_row (Pg.table (db Scenario.world2)) /\
  ReqParentID (Scenario.request "reply to reply" (Some 2)) = Some (Pg.r_id reply_row) /\
  service.CreateComment Scenario.uuidC 300
    (Scenario.request "reply to reply" (Some 2)) Scenario.world2
  = (Ok tt, Scenario.world3) /\
  exists p w2 kids k c,
    service.GetComments (Pg.r_id reply_row) Scenario.world3 = (Ok p, w2) /\
    Children <$> heap w2 !! p = Some (Some kids) /\
    k ∈ kids /\
    heap w2 !! k = Some c /\
    ID c = Pg.serial (db Scenario.world2) /\ Comm c = "reply to reply".
Proof.
  pose proof (reachable_wf _ scenario_reachable2) as Hwf.
  assert (Hin : In reply_row (Pg.table (db Scenario.world2)))
    by (vm_compute; right; left; reflexivity).
  assert (H : service.CreateComment Scenario.uuidC 300
                (Scenario.request "reply to reply" (Some 2)) Scenario.world2
              = (Ok tt, Scenario.world3)) by (vm_compute; reflexivity).
  split; [exact Hwf|]. split; [exact Hin|]. split; [reflexivity|]. split; [exact H|].
  destruct (created_reply_is_listed_under_its_parent Scenario.uuidC 300
              (Scenario.request "reply to reply" (Some 2)) reply_row
              Scenario.world2 Scenario.world3 Hwf Hin eq_refl H)
    as (p & w2 & kids & k & c & H1 & _ & H3 & H4 & H5 & H6 & _ & H8 & _).
  exists p, w2, kids, k, c.
  split; [exact H1|]. split; [exact H3|]. split; [exact H4|]. split; [exact H5|].
  split; [exact H6|exact H8].
Defined.

End Examples.
